(** * Verification of the seminar notebooks

    The repository holds two coursework notebooks:
    - [04_dense/seminar_photo2map.ipynb] (module [Photo2Map] below),
    - [05_generative/seminar_neural_style_transfer.ipynb] (module
      [StyleTransfer]).

    Tensors hold exact rationals where the development reasons about
    shapes, indices, control flow and bounds that rounding keeps. Where
    the value of a float32 result itself matters (the round trip through
    [Normalize] and [imshow]) the same functions are embedded over IEEE
    single precision, in the modules [Float32] and [Single]. *)

From Stdlib Require Import QArith Qabs Qminmax Lqa Sorted.
From Stdlib Require SpecFloat.
From stdpp Require Import gmap strings list fin_maps pretty.

(** ** Python plumbing: exceptions, fallible results, placeholders *)

Module Py.

(** The exception classes the notebooks can meet. *)
Inductive exn : Type :=
  | SyntaxError
  | NameError (name : string)
  | IndexError
  | AssertionError (msg : string)
  | FileNotFoundError (path : string)
  | RuntimeError
  | ValueError
  | TypeError
  | AttributeError (attr : string).

Inductive result (A : Type) : Type :=
  | Ok (a : A)
  | Raise (e : exn).
Arguments Ok {A} a.
Arguments Raise {A} e.

Definition bind {A B} (m : result A) (k : A → result B) : result B :=
  match m with
  | Ok a => k a
  | Raise e => Raise e
  end.

#[global] Instance result_ret : MRet result := λ A a, Ok a.
#[global] Instance result_bind : MBind result := λ A B k m, bind m k.

(** A student-task placeholder: [Unfilled] is the notebook as shipped,
    [Filled a] is the notebook after the student wrote [a] there. *)
Inductive hole (A : Type) : Type :=
  | Unfilled
  | Filled (a : A).
Arguments Unfilled {A}.
Arguments Filled {A} a.

(** A placeholder in expression position ([lhs = # your code here])
    leaves the statement without a right-hand side: the cell is rejected
    with [SyntaxError] before any statement of it runs. *)
Definition expr_hole {A B} (h : hole A) (k : A → result B) : result B :=
  match h with
  | Unfilled => Raise SyntaxError
  | Filled a => k a
  end.

(** A placeholder in statement position is a comment line on its own:
    as shipped it does nothing. Written code sees its surroundings [e]
    and updates what it owns, [s]. *)
Definition stmt_hole {E S} (h : hole (E → S → S)) (e : E) (s : S) : S :=
  match h with
  | Unfilled => s
  | Filled f => f e s
  end.

(** [l[i]] on a Python list: negative indices count from the end, any
    other index out of range raises [IndexError]. *)
Definition getitem {A} (l : list A) (i : Z) : result A :=
  let n := Z.of_nat (length l) in
  let j := (if decide (i < 0)%Z then i + n else i)%Z in
  if decide (0 ≤ j)%Z then
    match l !! Z.to_nat j with
    | Some a => Ok a
    | None => Raise IndexError
    end
  else Raise IndexError.

(** [range(lo, hi)]. *)
Definition range (lo hi : nat) : list nat := seq lo (hi - lo).

(** Reading a name that the function never binds. *)
Definition lookup_name {A} (locals : gmap string A) (x : string) : result A :=
  match locals !! x with
  | Some v => Ok v
  | None => Raise (NameError x)
  end.

(** Statements of a notebook cell: they update the notebook's state and
    stop at the first exception, the state reached so far being kept. *)
Definition cell (S A : Type) : Type := S → S * result A.

Definition cret {S A} (a : A) : cell S A := λ s, (s, Ok a).

Definition cbind {S A B} (m : cell S A) (k : A → cell S B) : cell S B :=
  λ s, match m s with
       | (s', Ok a) => k a s'
       | (s', Raise e) => (s', Raise e)
       end.

#[global] Instance cell_ret {S} : MRet (cell S) := λ A a, cret a.
#[global] Instance cell_bind {S} : MBind (cell S) := λ A B k m, cbind m k.

Definition lift {S A} (r : result A) : cell S A := λ s, (s, r).
Definition gets {S A} (f : S → A) : cell S A := λ s, (s, Ok (f s)).
Definition modify {S} (f : S → S) : cell S unit := λ s, (f s, Ok tt).

(** [for a in l: body(a)]. *)
Fixpoint for_ {S A} (l : list A) (body : A → cell S unit) : cell S unit :=
  match l with
  | [] => cret tt
  | a :: l' => cbind (body a) (λ _, for_ l' body)
  end.

(** [l] cut into consecutive pieces of [n] elements, the last one
    shorter when [n] does not divide the length. *)
Fixpoint chunks_aux {A} (fuel n : nat) (l : list A) : list (list A) :=
  match fuel, l with
  | 0, _ | _, [] => []
  | S fuel', _ => take n l :: chunks_aux fuel' n (drop n l)
  end.

Definition chunks {A} (n : nat) (l : list A) : list (list A) :=
  chunks_aux (length l) n l.

End Py.
Import Py.

(** ** IEEE single precision *)

(** The float32 numbers of torch and numpy: binary floating point with
    24 bits of precision, every operation rounded to the nearest value,
    ties to even, as [SpecFloat] specifies it. *)
Module Float32.

Definition prec : Z := 24.
Definition emax : Z := 128.

Definition float32 : Type := SpecFloat.spec_float.

(** The float32 nearest to an integer, and the constant [0.5]. *)
Definition of_Z (z : Z) : float32 :=
  SpecFloat.binary_normalize prec emax z 0 false.

Definition half : float32 := SpecFloat.binary_normalize prec emax 1 (-1) false.
Definition quarter : float32 :=
  SpecFloat.binary_normalize prec emax 1 (-2) false.

Definition add : float32 → float32 → float32 := SpecFloat.SFadd prec emax.
Definition sub : float32 → float32 → float32 := SpecFloat.SFsub prec emax.
Definition div : float32 → float32 → float32 := SpecFloat.SFdiv prec emax.

(** [x == y] and [x <= y] as IEEE compares. *)
Definition eqb : float32 → float32 → bool := SpecFloat.SFeqb.
Definition leb : float32 → float32 → bool := SpecFloat.SFleb.

(** The rational number a finite float32 stands for. *)
Definition value (x : float32) : Q :=
  match x with
  | SpecFloat.S754_finite s m e =>
      let v := if (0 <=? e)%Z then inject_Z (Z.pos m * 2 ^ e)
               else Z.pos m # 2 ^ Z.to_pos (- e) in
      if s then (- v)%Q else v
  | _ => 0%Q
  end.

(** Between [lo] and [hi]. *)
Definition within (lo hi : Z) (x : float32) : bool :=
  leb (of_Z lo) x && leb x (of_Z hi).

End Float32.

(** ** Tensors and images *)

(** A torch tensor: its size and its elements in row-major order. *)
Record tensor : Type := Tensor { shape : list nat; data : list Q }.

Definition numel (s : list nat) : nat := foldr Nat.mul 1 s.

Definition tensor_wf (t : tensor) : Prop := length (data t) = numel (shape t).

(** Elementwise operation with a scalar. *)
Definition tmap (f : Q → Q) (t : tensor) : tensor :=
  {| shape := shape t; data := f <$> data t |}.

(** [t.unsqueeze(0)]. *)
Definition unsqueeze0 (t : tensor) : tensor :=
  {| shape := 1 :: shape t; data := data t |}.

(** Two tensors that agree up to the representation of their rationals. *)
Definition tensor_eq (a b : tensor) : Prop :=
  shape a = shape b ∧ Forall2 Qeq (data a) (data b).

Definition in_range (lo hi : Q) (t : tensor) : Prop :=
  Forall (λ p, lo <= p ∧ p <= hi)%Q (data t).

(** A (C, H, W) array with its channel axis moved last; nothing for an
    array of another rank. *)
Definition chw_to_hwc (img : tensor) : option tensor :=
  match shape img with
  | [c; h; w] =>
      Some {| shape := [h; w; c];
              data :=
                i ← seq 0 h; j ← seq 0 w; k ← seq 0 c;
                [default 0%Q (data img !! ((k * h + i) * w + j))] |}
  | _ => None
  end.

(** [t.view(new_shape)]. *)
Definition view (new_shape : list nat) (t : tensor) : result tensor :=
  if decide (numel new_shape = numel (shape t)) then
    Ok {| shape := new_shape; data := data t |}
  else Raise RuntimeError.

(** [plt.imshow(X)]: matplotlib draws an (M, N) array of scalars and an
    (M, N, 3) or (M, N, 4) array of colours, an (M, N, 1) array counting
    as (M, N); an array of any other shape is refused with [TypeError]. *)
Definition plt_imshow (X : tensor) : result tensor :=
  match shape X with
  | [_; _] => Ok X
  | [_; _; c] =>
      if bool_decide (c = 1 ∨ c = 3 ∨ c = 4) then Ok X else Raise TypeError
  | _ => Raise TypeError
  end.

(** The PIL modes with 8-bit samples and their number of bands
    ([len(img.getbands())]). *)
Inductive Mode : Type :=
  | L | P
  | LA | PA | La
  | RGB | YCbCr | LAB | HSV
  | RGBA | RGBX | RGBa | CMYK.

Definition bands (m : Mode) : nat :=
  match m with
  | L | P => 1
  | LA | PA | La => 2
  | RGB | YCbCr | LAB | HSV => 3
  | RGBA | RGBX | RGBa | CMYK => 4
  end.

(** A PIL image: mode, size, and 8-bit samples stored row by row, the
    bands of a pixel next to each other. *)
Record Image : Type := {
  mode : Mode;
  width : nat;
  height : nat;
  pixels : list N
}.

Definition getpixel (img : Image) (c i j : nat) : N :=
  default 0%N (pixels img !! ((i * width img + j) * bands (mode img) + c)).

(** [transforms.ToTensor()]: an (H, W, C) byte image becomes a (C, H, W)
    tensor with values [byte / 255]. *)
Definition ToTensor (img : Image) : tensor :=
  {| shape := [bands (mode img); height img; width img];
     data :=
       c ← seq 0 (bands (mode img));
       i ← seq 0 (height img);
       j ← seq 0 (width img);
       [(inject_Z (Z.of_N (getpixel img c i j)) / 255)%Q] |}.

(** The statistic of channel [c] of a per-channel list, a one-element
    list being broadcast over all channels. *)
Definition chan (l : list Q) (c : nat) : Q :=
  match l with
  | [m] => m
  | _ => default 0%Q (l !! c)
  end.

Arguments chan : simpl never.

Definition chan_ok (l : list Q) (c : nat) : bool :=
  bool_decide (length l = 1 ∨ length l = c).

(** [transforms.Normalize(mean, std)] on a (C, H, W) tensor:
    [tensor.sub_(mean[:, None, None]).div_(std[:, None, None])]. *)
Definition Normalize (mean std : list Q) (t : tensor) : result tensor :=
  match shape t with
  | [c; h; w] =>
      if existsb (Qeq_bool 0) std then Raise ValueError
      else if chan_ok mean c && chan_ok std c then
        Ok {| shape := shape t;
              data := imap (λ k p, ((p - chan mean (k / (h * w)))
                                      / chan std (k / (h * w)))%Q) (data t) |}
      else Raise RuntimeError
  | _ => Raise ValueError
  end.

(** [img.resize((ow, oh))]; [resample] is Pillow's interpolation filter,
    which the notebooks take as it comes. *)
Definition resize (resample : Image → nat → nat → list N)
    (img : Image) (ow oh : nat) : Image :=
  {| mode := mode img; width := ow; height := oh;
     pixels := resample img ow oh |}.

(** [transforms.Resize(size)] with an integer: the smaller edge becomes
    [size], the other one keeps the aspect ratio. *)
Definition Resize_edge (resample : Image → nat → nat → list N)
    (size : nat) (img : Image) : Image :=
  let w := width img in
  let h := height img in
  if ((w <=? h) && (w =? size)) || ((h <=? w) && (h =? size)) then img
  else if w <? h then resize resample img size (size * h / w)
  else resize resample img (size * w / h) size.

(** [transforms.Resize((h, w))] with a pair: exactly that size. *)
Definition Resize_hw (resample : Image → nat → nat → list N)
    (h w : nat) (img : Image) : Image :=
  resize resample img w h.

(** ** The part of torch the notebooks drive *)

Module Torch.

(** A tensor object on the heap: its elements, its accumulated gradient
    ([.grad]) and its [requires_grad] flag. Tensor objects are named by
    their address. *)
Record slot : Type := Slot {
  value : tensor;
  grad : option tensor;
  requires_grad : bool
}.

Definition tzip (f : Q → Q → Q) (a b : tensor) : tensor :=
  {| shape := shape a; data := zip_with f (data a) (data b) |}.

Definition zeros_like (t : tensor) : tensor := tmap (λ _, 0%Q) t.

(** A new tensor object. *)
Definition alloc (t : tensor) (rg : bool) (σ : gmap nat slot)
    : nat * gmap nat slot :=
  let id := fresh (dom σ) in
  (id, <[id := Slot t None rg]> σ).

Definition accumulate (g : option tensor) (d : tensor) : tensor :=
  match g with
  | None => d
  | Some g0 => tzip Qplus g0 d
  end.

(** [loss.backward()]: every leaf that requires a gradient and takes
    part in the loss gets [dloss] added to its [.grad]; [dloss id] is the
    derivative of the loss with respect to tensor [id]. *)
Definition backward (dloss : nat → option tensor) (σ : gmap nat slot)
    : gmap nat slot :=
  map_imap (λ id s,
    Some (if requires_grad s then
            match dloss id with
            | Some d => Slot (value s) (Some (accumulate (grad s) d)) true
            | None => s
            end
          else s)) σ.

(** A zero-dimensional tensor with its autograd graph: its number, and
    its derivative with respect to each tensor object, [None] for an
    object it does not depend on. *)
Record scalar : Type := Scalar {
  item : Q;
  derivative : nat → option tensor
}.

(** A Python float. *)
Definition constant (q : Q) : scalar :=
  {| item := q; derivative := λ _, None |}.

Definition scalar_add (a b : scalar) : scalar :=
  {| item := (item a + item b)%Q;
     derivative := λ id,
       match derivative a id, derivative b id with
       | Some x, Some y => Some (tzip Qplus x y)
       | Some x, None => Some x
       | None, y => y
       end |}.

Definition scalar_div (a : scalar) (n : Q) : scalar :=
  {| item := (item a / n)%Q;
     derivative := λ id, tmap (λ g, g / n)%Q <$> derivative a id |}.

(** [for p in params: ...], the shape of every optimizer method. *)
Definition update_params (f : slot → slot) (ps : list nat)
    (σ : gmap nat slot) : gmap nat slot :=
  foldl (λ σ p, alter f p σ) σ ps.

(** [opt.zero_grad()]. *)
Definition zero_grad (ps : list nat) (σ : gmap nat slot) : gmap nat slot :=
  update_params
    (λ s, Slot (value s) (zeros_like <$> grad s) (requires_grad s)) ps σ.

(** [opt.step()] of [torch.optim.SGD(params, lr)]: [p -= lr * p.grad]
    for the parameters that have a gradient. *)
Definition SGD_step (lr : Q) (ps : list nat) (σ : gmap nat slot)
    : gmap nat slot :=
  update_params
    (λ s, match grad s with
          | Some g => Slot (tzip (λ p d, p - lr * d)%Q (value s) g)
                           (grad s) (requires_grad s)
          | None => s
          end) ps σ.

(** Optimizers refuse an empty parameter list. *)
Definition optimizer (ps : list nat) : result (list nat) :=
  match ps with
  | [] => Raise ValueError
  | _ => Ok ps
  end.

Section Adam.
Context {A : Type}.
(** Adam's update of one parameter from the learning rate, its moment
    estimates so far, its value and its gradient. *)
Variable adam_rule : Q → option A → tensor → tensor → A * tensor.

Definition Adam_step1 (lr : Q) (acc : gmap nat A * gmap nat slot)
    (p : nat) : gmap nat A * gmap nat slot :=
  match acc.2 !! p with
  | Some s =>
      match grad s with
      | Some g =>
          let r := adam_rule lr (acc.1 !! p) (value s) g in
          (<[p := r.1]> acc.1,
           <[p := Slot r.2 (grad s) (requires_grad s)]> acc.2)
      | None => acc
      end
  | None => acc
  end.

(** [opt.step()] of [torch.optim.Adam(params, lr)]. *)
Definition Adam_step (lr : Q) (ps : list nat)
    (acc : gmap nat A * gmap nat slot) : gmap nat A * gmap nat slot :=
  foldl (Adam_step1 lr) acc ps.
End Adam.

Definition sum_Q (l : list Q) : Q := foldr Qplus 0%Q l.

(** [F.mse_loss(a, b)] and [nn.MSELoss()(a, b)]: the mean of the squared
    differences. The notebooks compare tensors of equal size; torch's
    broadcasting of unequal sizes is not modelled and reported as
    [RuntimeError]. *)
Definition mse_loss (a b : tensor) : result Q :=
  if decide (shape a = shape b) then
    Ok (sum_Q (zip_with (λ x y, (x - y) * (x - y))%Q (data a) (data b))
          / inject_Z (Z.of_nat (length (data a))))%Q
  else Raise RuntimeError.

(** [torch.stack(ts)]: equal sizes, one new leading axis. *)
Definition stack (ts : list tensor) : result tensor :=
  match ts with
  | [] => Raise RuntimeError
  | t :: _ =>
      if forallb (λ u, bool_decide (shape u = shape t)) ts then
        Ok {| shape := length ts :: shape t; data := ts ≫= data |}
      else Raise RuntimeError
  end.

(** [torch.clamp(t, lo, hi)]. *)
Definition clamp (lo hi : Q) (t : tensor) : tensor :=
  tmap (λ p, Qmax lo (Qmin hi p)) t.

(** A [DataLoader] as the notebooks build it. *)
Record DataLoader (D : Type) : Type := {
  dataset : D;
  dl_batch_size : nat;
  dl_shuffle : bool;
  num_workers : nat
}.
Arguments dataset {D} _.
Arguments dl_batch_size {D} _.
Arguments dl_shuffle {D} _.
Arguments num_workers {D} _.

End Torch.
Import Torch.

(** ** 04_dense/seminar_photo2map.ipynb *)

Module Photo2Map.

Definition batch_size : nat := 4.
Definition image_size : nat := 256.

Definition half : Q := 1 # 2.

(** The [Normalize] step of the notebook's [transform]. *)
Definition transform_Normalize : tensor → result tensor :=
  Normalize [half; half; half] [half; half; half].

(** [transform = Compose([Resize(size=image_size), ToTensor(),
    Normalize(...)])]. *)
Definition transform (resample : Image → nat → nat → list N)
    (img : Image) : result tensor :=
  transform_Normalize (ToTensor (Resize_edge resample image_size img)).

(** [img = img / 2 + 0.5], the first statement of [imshow]. *)
Definition unnormalize (img : tensor) : tensor :=
  tmap (λ p, p / 2 + half)%Q img.

(** [imshow(img)]: the array that [plt.imshow] draws, after
    [rearrange(img, 'c h w -> h w c')]; einops reports another rank as
    an [EinopsError], a [RuntimeError]. *)
Definition imshow (img : tensor) : result tensor :=
  match chw_to_hwc (unnormalize img) with
  | Some img_reshaped => plt_imshow img_reshaped
  | None => Raise RuntimeError
  end.

(** What [__getitem__] holds in [sample]: the loaded PIL image, or the
    tensor the transform made of it. *)
Inductive sample : Type :=
  | PIL (img : Image)
  | Tens (t : tensor).

(** The fields of [torchvision.datasets.ImageFolder] that
    [PhotoMapDataset] inherits and reads. *)
Record ImageFolder : Type := {
  samples : list (string * nat);
  loader : string → result Image;
  ds_transform : option (Image → result tensor)
}.

(** [PhotoMapDataset.__getitem__(self, index)]. The placeholder is the
    right-hand side of [photo_image, map_image = ...], an expression
    over [sample]. *)
Definition PhotoMapDataset_getitem (h : hole (sample → sample * sample))
    (self : ImageFolder) (index : Z) : result (sample * sample) :=
  expr_hole h (λ split,
    entry ← getitem (samples self) index;
    img ← loader self entry.1;
    smp ← match ds_transform self with
          | Some tr => t ← tr img; mret (Tens t)
          | None => mret (PIL img)
          end;
    let '(photo_image, map_image) := split smp in
    mret (photo_image, map_image)).

(** [train_dataset = PhotoMapDataset(root=..., transform=transform)];
    [samples] is what the folder scan found under [root] and [loader]
    opens an image file. *)
Definition train_dataset (resample : Image → nat → nat → list N)
    (samples : list (string * nat)) (loader : string → result Image)
    : ImageFolder :=
  {| samples := samples; loader := loader;
     ds_transform := Some (transform resample) |}.

(** [train_dataloader = DataLoader(train_dataset, batch_size=batch_size,
    shuffle=True, num_workers=2)], written twice in the notebook. *)
Definition train_dataloader (train_dataset : ImageFolder)
    : DataLoader ImageFolder :=
  {| dataset := train_dataset; dl_batch_size := batch_size;
     dl_shuffle := true; num_workers := 2 |}.

(** [len(dataloader)] with the default [drop_last=False]. *)
Definition DataLoader_len (dl : DataLoader ImageFolder) : nat :=
  (length (samples (dataset dl)) + dl_batch_size dl - 1) / dl_batch_size dl.

(** The index lists of one pass over the loader; [perm] is the
    permutation the random sampler draws for that pass. *)
Definition batch_indices (dl : DataLoader ImageFolder) (perm : list nat)
    : list (list nat) :=
  chunks (dl_batch_size dl)
    (if dl_shuffle dl then perm else seq 0 (length (samples (dataset dl)))).

Definition as_tensor (s : sample) : result tensor :=
  match s with
  | Tens t => Ok t
  | PIL _ => Raise TypeError
  end.

(** One batch: the samples of the index list, collated into a pair of
    stacked tensors. *)
Definition fetch (h : hole (sample → sample * sample))
    (dl : DataLoader ImageFolder) (idxs : list nat)
    : result (tensor * tensor) :=
  items ← mapM (λ i : nat, PhotoMapDataset_getitem h (dataset dl) (Z.of_nat i)) idxs;
  photos ← mapM (λ it : sample * sample, as_tensor it.1) items;
  maps ← mapM (λ it : sample * sample, as_tensor it.2) items;
  photo_batch ← stack photos;
  map_batch ← stack maps;
  mret (photo_batch, map_batch).

(** *** Task 2: the U-Net skeletons *)

(** An [nn.Module] object: its plain attributes and the tensor objects
    registered as its parameters. *)
Record Module : Type := {
  attrs : gmap string Z;
  parameters : list nat
}.

(** [super().__init__()]. *)
Definition nn_Module_init : Module := {| attrs := ∅; parameters := [] |}.

(** The body of an [__init__]: it sees the constructor's arguments and
    builds the object, allocating its parameters. *)
Definition init_body (Args : Type) : Type :=
  hole (Args → Module * gmap nat slot → Module * gmap nat slot).

(** The body of a [forward]: it sees [self] and the heap and binds local
    names. *)
Definition forward_body : Type :=
  hole (Module * gmap nat slot → gmap string tensor → gmap string tensor).

(** [UnetDownBlock(in_channels, out_channels, pooling=True)]. *)
Definition UnetDownBlock_init (body : init_body (nat * nat * bool))
    (in_channels out_channels : nat) (pooling : bool) (σ : gmap nat slot)
    : Module * gmap nat slot :=
  stmt_hole body (in_channels, out_channels, pooling) (nn_Module_init, σ).

(** [UnetDownBlock.forward(self, x)]: [return x, x_before_pooling]. *)
Definition UnetDownBlock_forward (body : forward_body) (self : Module)
    (σ : gmap nat slot) (x : tensor) : result (tensor * tensor) :=
  let locals := stmt_hole body (self, σ) {[ "x" := x ]} in
  r1 ← lookup_name locals "x";
  r2 ← lookup_name locals "x_before_pooling";
  mret (r1, r2).

(** [UnetUpBlock(in_channels, out_channels)]. *)
Definition UnetUpBlock_init (body : init_body (nat * nat))
    (in_channels out_channels : nat) (σ : gmap nat slot)
    : Module * gmap nat slot :=
  stmt_hole body (in_channels, out_channels) (nn_Module_init, σ).

(** [UnetUpBlock.forward(self, x, x_bridge)]: [return x]. *)
Definition UnetUpBlock_forward (body : forward_body) (self : Module)
    (σ : gmap nat slot) (x x_bridge : tensor) : result tensor :=
  let locals :=
    stmt_hole body (self, σ) (<[ "x_bridge" := x_bridge ]> {[ "x" := x ]}) in
  lookup_name locals "x".

(** [Unet(in_channels, out_channels, depth=3, base_n_filters=64)]. *)
Definition Unet_init (body : init_body (nat * nat * nat * nat))
    (in_channels out_channels depth base_n_filters : nat)
    (σ : gmap nat slot) : Module * gmap nat slot :=
  stmt_hole body (in_channels, out_channels, depth, base_n_filters)
    (nn_Module_init, σ).

(** [Unet.forward(self, x)]: [return x]. *)
Definition Unet_forward (body : forward_body) (self : Module)
    (σ : gmap nat slot) (x : tensor) : result tensor :=
  lookup_name (stmt_hole body (self, σ) {[ "x" := x ]}) "x".

Definition getattr (self : Module) (name : string) : result Z :=
  match attrs self !! name with
  | Some v => Ok v
  | None => Raise (AttributeError name)
  end.

(** [Unet.__repr__(self)]. *)
Definition Unet_repr (self : Module) : result string :=
  a ← getattr self "in_channels";
  b ← getattr self "out_channels";
  c ← getattr self "depth";
  d ← getattr self "base_n_filters";
  mret ("Unet(in_channels=" +:+ pretty a +:+ ", out_channels=" +:+ pretty b
        +:+ ", depth=" +:+ pretty c +:+ ", base_n_filters=" +:+ pretty d
        +:+ ")").

(** [model = Unet(3, 3, depth=4, base_n_filters=64)]. *)
Definition model (body : init_body (nat * nat * nat * nat))
    (σ : gmap nat slot) : Module * gmap nat slot :=
  Unet_init body 3 3 4 64 σ.

(** *** The train loop *)

(** What the [SummaryWriter] was asked to record. *)
Inductive event : Type :=
  | add_scalar (tag : string) (scalar_value : Q) (global_step : nat)
  | add_image (tag : string) (img_tensor : tensor) (global_step : nat).

Definition n_epochs : nat := 25.
Definition lr : Q := 2 # 10000.

Section TrainLoop.
Context {AdamSt : Type}.
(** Parts of the framework that are taken as they come. *)
Variable adam_rule : Q → option AdamSt → tensor → tensor → AdamSt * tensor.
Variable make_grid : tensor → tensor.
(** [autograd σ photo map leaf]: the derivative of the batch loss with
    respect to tensor [leaf]. *)
Variable autograd : gmap nat slot → nat → nat → nat → option tensor.
(** The permutation the random sampler draws in each epoch. *)
Variable shuffle_perm : nat → list nat.
(** The student's completions. *)
Variable split : hole (sample → sample * sample).
Variable unet_forward : forward_body.
(** The notebook's objects. *)
Variable train_dataset : ImageFolder.
Variable unet : Module.
(** The parameter list held by [opt]. *)
Variable opt : list nat.

(** The notebook's state while the loop runs. *)
Record notebook : Type := {
  heap : gmap nat slot;
  moments : gmap nat AdamSt;
  training : bool;
  writer : list event;
  stdout : list string;
  n_iters : nat
}.

(** The placeholder [# YOUR CODE HERE] after the batch loop. *)
Variable epoch_end : hole (nat → notebook → notebook).

Definition set_heap (f : gmap nat slot → gmap nat slot) (st : notebook)
    : notebook :=
  {| heap := f (heap st); moments := moments st; training := training st;
     writer := writer st; stdout := stdout st; n_iters := n_iters st |}.

Definition set_training (b : bool) (st : notebook) : notebook :=
  {| heap := heap st; moments := moments st; training := b;
     writer := writer st; stdout := stdout st; n_iters := n_iters st |}.

Definition set_n_iters (n : nat) (st : notebook) : notebook :=
  {| heap := heap st; moments := moments st; training := training st;
     writer := writer st; stdout := stdout st; n_iters := n |}.

Definition record (e : event) (st : notebook) : notebook :=
  {| heap := heap st; moments := moments st; training := training st;
     writer := writer st ++ [e]; stdout := stdout st;
     n_iters := n_iters st |}.

Definition print (line : string) (st : notebook) : notebook :=
  {| heap := heap st; moments := moments st; training := training st;
     writer := writer st; stdout := stdout st ++ [line];
     n_iters := n_iters st |}.

Definition opt_step (st : notebook) : notebook :=
  let r := Adam_step adam_rule lr opt (moments st, heap st) in
  {| heap := r.2; moments := r.1; training := training st;
     writer := writer st; stdout := stdout st; n_iters := n_iters st |}.

(** A tensor object coming out of the loader. *)
Definition new_tensor (t : tensor) : cell notebook nat :=
  λ st, let r := alloc t false (heap st) in (set_heap (λ _, r.2) st, Ok r.1).

Definition dl : DataLoader ImageFolder := train_dataloader train_dataset.

(** The statements of the batch loop from the forward pass on; the two
    batch tensors are the objects [photo_image_batch] and
    [map_image_batch] with the elements [batch]. *)
Definition train_step (epoch : nat) (batch : tensor * tensor)
    (photo_image_batch map_image_batch : nat) : cell notebook unit :=
  σ ← gets heap;
  map_image_pred_batch ← lift (Unet_forward unet_forward unet σ batch.1);
  loss ← lift (mse_loss map_image_pred_batch batch.2);
  modify (set_heap (zero_grad opt));;
  modify (set_heap (backward (autograd σ photo_image_batch map_image_batch)));;
  modify opt_step;;
  n ← gets n_iters;
  modify (record (add_scalar "train/loss" loss
                    (epoch * DataLoader_len dl + n)));;
  (if n mod 50 =? 0 then
     modify (record (add_image "train/photo_image"
                       (tmap (λ p, p * (1 # 2) + (1 # 2))%Q
                          (make_grid batch.1))
                       (epoch * DataLoader_len dl + n)));;
     modify (record (add_image "train/map_image_pred"
                       (make_grid map_image_pred_batch)
                       (epoch * DataLoader_len dl + n)));;
     modify (record (add_image "train/map_image_gt"
                       (make_grid batch.2)
                       (epoch * DataLoader_len dl + n)))
   else mret tt);;
  modify (set_n_iters (n + 1)).

(** The body of [for batch in tqdm(train_dataloader)], for the batch
    with index list [idxs]: the loader hands over the batch as two new
    tensor objects, then the statements above run. *)
Definition train_batch (epoch : nat) (idxs : list nat)
    : cell notebook unit :=
  batch ← lift (fetch split dl idxs);
  photo_image_batch ← new_tensor batch.1;
  map_image_batch ← new_tensor batch.2;
  train_step epoch batch photo_image_batch map_image_batch.

(** The body of [for epoch in range(n_epochs)]. *)
Definition train_epoch (epoch : nat) : cell notebook unit :=
  modify (set_training true);;
  modify (set_n_iters 0);;
  for_ (batch_indices dl (shuffle_perm epoch)) (train_batch epoch);;
  modify (stmt_hole epoch_end epoch);;
  modify (print ("Epoch " +:+ pretty epoch +:+ " done.")).

Definition train_loop : cell notebook unit :=
  for_ (range 0 n_epochs) train_epoch.

(** The steps under which the loss was logged, oldest first. *)
Definition train_loss_steps (log : list event) : list nat :=
  log ≫= λ e,
    match e with
    | add_scalar tag _ step => if decide (tag = "train/loss") then [step] else []
    | add_image _ _ _ => []
    end.

End TrainLoop.

End Photo2Map.

(** ** The pixel pipeline of the photo2map notebook in float32 *)

(** [transform] and [imshow] once more, with the elements and the
    arithmetic the program has: float32 tensors, every operation
    rounded. *)
Module Single.
Import Float32.

Record tensor : Type := Tensor { shape : list nat; data : list float32 }.

Definition at3 (t : tensor) (i0 i1 i2 : nat) : option float32 :=
  match shape t with
  | [_; n1; n2] => data t !! ((i0 * n1 + i1) * n2 + i2)
  | _ => None
  end.

(** The float32 made of a byte: [img.to(torch.float32).div(255)]. *)
Definition div_255 (b : N) : float32 := div (of_Z (Z.of_N b)) (of_Z 255).

(** [transforms.ToTensor()]. *)
Definition ToTensor (img : Image) : tensor :=
  {| shape := [bands (mode img); height img; width img];
     data :=
       c ← seq 0 (bands (mode img));
       i ← seq 0 (height img);
       j ← seq 0 (width img);
       [div_255 (getpixel img c i j)] |}.

Definition chan (l : list float32) (c : nat) : float32 :=
  match l with
  | [m] => m
  | _ => default (of_Z 0) (l !! c)
  end.

Arguments chan : simpl never.

Definition chan_ok (l : list float32) (c : nat) : bool :=
  bool_decide (length l = 1 ∨ length l = c).

(** [transforms.Normalize(mean, std)]:
    [tensor.sub_(mean[:, None, None]).div_(std[:, None, None])]. *)
Definition Normalize (mean std : list float32) (t : tensor) : result tensor :=
  match shape t with
  | [c; h; w] =>
      if existsb (eqb (of_Z 0)) std then Raise ValueError
      else if chan_ok mean c && chan_ok std c then
        Ok {| shape := shape t;
              data := imap (λ k p, div (sub p (chan mean (k / (h * w))))
                                       (chan std (k / (h * w)))) (data t) |}
      else Raise RuntimeError
  | _ => Raise ValueError
  end.

Definition transform_Normalize : tensor → result tensor :=
  Normalize [half; half; half] [half; half; half].

(** [transform = Compose([Resize(size=image_size), ToTensor(),
    Normalize(...)])]. *)
Definition transform (resample : Image → nat → nat → list N)
    (img : Image) : result tensor :=
  transform_Normalize (ToTensor (Resize_edge resample Photo2Map.image_size img)).

(** [img = img / 2 + 0.5]. *)
Definition unnormalize (img : tensor) : tensor :=
  {| shape := shape img;
     data := (λ p, add (div p (of_Z 2)) half) <$> data img |}.

Definition chw_to_hwc (img : tensor) : option tensor :=
  match shape img with
  | [c; h; w] =>
      Some {| shape := [h; w; c];
              data :=
                i ← seq 0 h; j ← seq 0 w; k ← seq 0 c;
                [default (of_Z 0) (data img !! ((k * h + i) * w + j))] |}
  | _ => None
  end.

Definition plt_imshow (X : tensor) : result tensor :=
  match shape X with
  | [_; _] => Ok X
  | [_; _; c] =>
      if bool_decide (c = 1 ∨ c = 3 ∨ c = 4) then Ok X else Raise TypeError
  | _ => Raise TypeError
  end.

(** [imshow(img)]. *)
Definition imshow (img : tensor) : result tensor :=
  match chw_to_hwc (unnormalize img) with
  | Some img_reshaped => plt_imshow img_reshaped
  | None => Raise RuntimeError
  end.

(** A tensor of pixel values: every element is what [ToTensor] makes of
    a byte. *)
Definition pixel_values (t : tensor) : Prop :=
  Forall (λ p, ∃ b : N, (b ≤ 255)%N ∧ p = div_255 b) (data t).

(** What the round trip [unnormalize (Normalize p)] does to a pixel
    value [p], checked by evaluation: the normalized value [y] lies in
    [-1, 1] and the value [q] that is shown in [0, 1]; [q] is [p] when
    [p] is 0 or at least 0.25, and is within [2^-26] of [p] always. *)
Definition round_trip (p : float32) : float32 :=
  add (div (div (sub p half) half) (of_Z 2)) half.

Definition round_trip_ok (p : float32) : bool :=
  within (-1) 1 (div (sub p half) half)
  && within 0 1 (round_trip p)
  && Qle_bool (Qabs (value (round_trip p) - value p)) (1 # 2 ^ 26)
  && Bool.eqb (eqb (round_trip p) p) (eqb p (of_Z 0) || leb quarter p).

End Single.

(** ** 05_generative/seminar_neural_style_transfer.ipynb *)

Module StyleTransfer.

Definition style_image_path : string := "./data/starry-night.jpg".
Definition content_image_path : string := "./data/amsterdam.jpg".

Definition size_message : string :=
  "we need to import style and content images of the same size".

Section Loading.
Variable cuda_is_available : bool.
Variable resample : Image → nat → nat → list N.
(** The image files on disk. *)
Variable files : gmap string Image.

Definition imsize : nat := if cuda_is_available then 512 else 128.

(** [image_transform_fn = Compose([Resize((imsize, imsize)),
    ToTensor()])]. *)
Definition image_transform_fn (img : Image) : tensor :=
  ToTensor (Resize_hw resample imsize imsize img).

Definition Image_open (image_name : string) : result Image :=
  match files !! image_name with
  | Some img => Ok img
  | None => Raise (FileNotFoundError image_name)
  end.

(** [image_loader(image_name)]. *)
Definition image_loader (image_name : string) : result tensor :=
  image ← Image_open image_name;
  mret (unsqueeze0 (image_transform_fn image)).

(** The rest of the cell: both images are loaded and their sizes
    compared by the [assert]. *)
Definition load_images (style_path content_path : string)
    : result (tensor * tensor) :=
  style_image ← image_loader style_path;
  content_image ← image_loader content_path;
  if decide (shape style_image = shape content_image) then
    mret (style_image, content_image)
  else Raise (AssertionError size_message).
End Loading.

(** [imshow(tensor, title)]: the array that [plt.imshow] draws, after
    [squeeze(0)] and [transpose(1, 2, 0)], which numpy refuses with
    [ValueError] when the first axis is not of length 1 or the rest is
    not of rank 3. *)
Definition imshow (t : tensor) : result tensor :=
  match shape t with
  | 1 :: s =>
      match chw_to_hwc {| shape := s; data := data t |} with
      | Some image => plt_imshow image
      | None => Raise ValueError
      end
  | _ => Raise ValueError
  end.

(** *** Task 1: the feature extractor *)

(** A layer of [vgg16.features]: its parameter tensors and what it
    computes from their current values. *)
Record Layer : Type := {
  layer_params : list nat;
  layer_forward : gmap nat slot → tensor → tensor
}.

(** [Sequential.add_module(name, module)]: the named children keep the
    order in which their names were first added. *)
Definition add_module (name : string) (m : Layer)
    (children : list (string * Layer)) : list (string * Layer) :=
  if decide (name ∈ children.*1) then
    (λ e, if decide (e.1 = name) then (name, m) else e) <$> children
  else children ++ [(name, m)].

(** [for x in xs: slice.add_module(str(x), features[x])]. *)
Fixpoint add_layers (features : list Layer) (xs : list nat)
    (slice : list (string * Layer)) : result (list (string * Layer)) :=
  match xs with
  | [] => Ok slice
  | x :: xs' =>
      m ← getitem features (Z.of_nat x);
      add_layers features xs' (add_module (pretty x) m slice)
  end.

Record Vgg16 : Type := {
  slice1 : list (string * Layer);
  slice2 : list (string * Layer);
  slice3 : list (string * Layer);
  slice4 : list (string * Layer)
}.

Definition layers (self : Vgg16) : list (string * Layer) :=
  slice1 self ++ slice2 self ++ slice3 self ++ slice4 self.

(** [self.parameters()]. *)
Definition Vgg16_parameters (self : Vgg16) : list nat :=
  layers self ≫= λ l, layer_params l.2.

(** [Vgg16.__init__(self, requires_grad=False)], given the [features]
    of the pretrained classifier. *)
Definition Vgg16_init (vgg_pretrained_features : list Layer)
    (requires_grad : bool) (σ : gmap nat slot)
    : result (Vgg16 * gmap nat slot) :=
  s1 ← add_layers vgg_pretrained_features (range 0 4) [];
  s2 ← add_layers vgg_pretrained_features (range 4 9) [];
  s3 ← add_layers vgg_pretrained_features (range 9 16) [];
  s4 ← add_layers vgg_pretrained_features (range 16 23) [];
  let self := {| slice1 := s1; slice2 := s2; slice3 := s3; slice4 := s4 |} in
  mret (self,
        if requires_grad then σ
        else update_params (λ s, Slot (value s) (grad s) false)
               (Vgg16_parameters self) σ).

(** Calling a [Sequential]: its children in order. *)
Definition run (slice : list (string * Layer)) (σ : gmap nat slot)
    (x : tensor) : tensor :=
  foldl (λ y l, layer_forward l.2 σ y) x slice.

(** [Vgg16.forward(self, x)]: after the placeholder, the dictionary of
    the four local names. *)
Definition Vgg16_forward
    (body : hole (Vgg16 * gmap nat slot → gmap string tensor → gmap string tensor))
    (self : Vgg16) (σ : gmap nat slot) (x : tensor)
    : result (gmap string tensor) :=
  let locals := stmt_hole body (self, σ) {[ "x" := x ]} in
  x_relu1_2 ← lookup_name locals "x_relu1_2";
  x_relu2_2 ← lookup_name locals "x_relu2_2";
  x_relu3_3 ← lookup_name locals "x_relu3_3";
  x_relu4_3 ← lookup_name locals "x_relu4_3";
  mret (<[ "relu1_2" := x_relu1_2 ]> (<[ "relu2_2" := x_relu2_2 ]>
         (<[ "relu3_3" := x_relu3_3 ]> {[ "relu4_3" := x_relu4_3 ]}))).

(** The body the placeholder's comment asks for: "just forward slice by
    slice and save intermediate features". *)
Definition forward_slice_by_slice (env : Vgg16 * gmap nat slot)
    (locals : gmap string tensor) : gmap string tensor :=
  match locals !! "x" with
  | Some x =>
      let x_relu1_2 := run (slice1 env.1) env.2 x in
      let x_relu2_2 := run (slice2 env.1) env.2 x_relu1_2 in
      let x_relu3_3 := run (slice3 env.1) env.2 x_relu2_2 in
      let x_relu4_3 := run (slice4 env.1) env.2 x_relu3_3 in
      <[ "x_relu4_3" := x_relu4_3 ]> (<[ "x_relu3_3" := x_relu3_3 ]>
        (<[ "x_relu2_2" := x_relu2_2 ]> (<[ "x_relu1_2" := x_relu1_2 ]> locals)))
  | None => locals
  end.

(** *** Normalization *)

Definition normalization_mean : list Q := [485 # 1000; 456 # 1000; 406 # 1000].
Definition normalization_std : list Q := [229 # 1000; 224 # 1000; 225 # 1000].

(** The two tensor objects a [Normalization] holds. *)
Record Normalization : Type := { mean : nat; std : nat }.

(** [torch.tensor(l).view(-1, 1, 1)]: with no element the length that
    [-1] stands for is ambiguous and [view] raises [RuntimeError]. *)
Definition column (l : list Q) : result tensor :=
  match l with
  | [] => Raise RuntimeError
  | _ => Ok {| shape := [length l; 1; 1]; data := l |}
  end.

(** [Normalization.__init__(self, mean, std)]. *)
Definition Normalization_init (mean std : list Q) (σ : gmap nat slot)
    : result (Normalization * gmap nat slot) :=
  m ← column mean;
  let r1 := alloc m false σ in
  s ← column std;
  let r2 := alloc s false r1.2 in
  mret ({| mean := r1.1; std := r2.1 |}, r2.2).

Definition deref (σ : gmap nat slot) (id : nat) : result tensor :=
  match σ !! id with
  | Some s => Ok (value s)
  | None => Raise RuntimeError
  end.

(** [Normalization.forward(self, x)]; the placeholder is an expression
    over [x] and the clones [mean] and [std]. *)
Definition Normalization_forward (h : hole (tensor → tensor → tensor → tensor))
    (self : Normalization) (σ : gmap nat slot) (x : tensor) : result tensor :=
  expr_hole h (λ f,
    mean ← deref σ (mean self);
    std ← deref σ (std self);
    let result := f x mean std in
    mret result).

(** *** Task 2: perceptual losses *)

(** [ContentLoss.forward(self, pred_features, target_features)]. *)
Definition ContentLoss_forward (h : hole (tensor → tensor → Q))
    (pred_features target_features : tensor) : result Q :=
  expr_hole h (λ f,
    let result := f pred_features target_features in
    mret result).

(** [StyleLoss.gram_matrix(self, features)]; the placeholder is an
    expression over the reshaped [features]. *)
Definition gram_matrix (h : hole (tensor → tensor)) (features : tensor)
    : result tensor :=
  expr_hole h (λ f,
    match shape features with
    | [b; c; h; w] =>
        features ← view [b; c; w * h] features;
        let gram_matrix := f features in
        mret gram_matrix
    | _ => Raise ValueError
    end).

(** [StyleLoss.forward(self, pred_features, target_features)]. *)
Definition StyleLoss_forward (h : hole (tensor → tensor))
    (pred_features target_features : tensor) : result Q :=
  pred_gram_matrix ← gram_matrix h pred_features;
  target_gram_matrix ← gram_matrix h target_features;
  mse_loss pred_gram_matrix target_gram_matrix.

(** *** Task 3: the transfer loop *)

Definition n_epochs : nat := 200.
Definition content_weight : Q := 1.
Definition style_weight : Q := 500000.
Definition lr : Q := 1 # 10.

Definition content_loss_layers : list string := ["relu2_2"].
Definition style_loss_layers : list string :=
  ["relu1_2"; "relu2_2"; "relu3_3"; "relu4_3"].

(** [input_image = content_image.clone()] followed by
    [input_image.requires_grad_()]: a new tensor object. *)
Definition clone_input_image (content_image : nat) (σ : gmap nat slot)
    : result (nat * gmap nat slot) :=
  t ← deref σ content_image;
  mret (alloc t true σ).

(** What a loss term is written over: the heap, the layer name, the
    features of the input image and those of the target image. *)
Definition term : Type :=
  gmap nat slot → string → gmap string tensor → gmap string tensor
  → result scalar.

(** The five placeholders of the transfer cell, all in expression
    position. *)
Record transfer_holes : Type := {
  hole_content_image_features :
    hole (gmap nat slot → result (gmap string tensor));
  hole_style_image_features :
    hole (gmap nat slot → result (gmap string tensor));
  hole_content_term : hole term;
  hole_style_term : hole term;
  hole_total_loss : hole (gmap nat slot → scalar → scalar → scalar)
}.

Record transfer_code : Type := {
  content_image_features_of : gmap nat slot → result (gmap string tensor);
  style_image_features_of : gmap nat slot → result (gmap string tensor);
  content_term : term;
  style_term : term;
  total_loss_of : gmap nat slot → scalar → scalar → scalar
}.

(** The cell is accepted only when every placeholder has been replaced
    by an expression. *)
Definition parse (h : transfer_holes) : result transfer_code :=
  expr_hole (hole_content_image_features h) (λ a,
  expr_hole (hole_style_image_features h) (λ b,
  expr_hole (hole_content_term h) (λ c,
  expr_hole (hole_style_term h) (λ d,
  expr_hole (hole_total_loss h) (λ e,
    Ok {| content_image_features_of := a; style_image_features_of := b;
          content_term := c; style_term := d; total_loss_of := e |}))))).

(** [for layer in layers: loss += term(layer)]. *)
Fixpoint sum_terms (term : string → result scalar) (layers : list string)
    (loss : scalar) : result scalar :=
  match layers with
  | [] => Ok loss
  | layer :: rest => t ← term layer; sum_terms term rest (scalar_add loss t)
  end.

Section Transfer.
(** The student's completions of the two classes the loop calls. *)
Variable vgg_forward :
  hole (Vgg16 * gmap nat slot → gmap string tensor → gmap string tensor).
Variable normalize : hole (tensor → tensor → tensor → tensor).
(** The notebook's objects. *)
Variable vgg16 : Vgg16.
Variable normalizer : Normalization.
Variable input_image : nat.

Record notebook : Type := {
  heap : gmap nat slot;
  stdout : list string;
  figures : list tensor
}.

Definition set_heap (f : gmap nat slot → gmap nat slot) (st : notebook)
    : notebook :=
  {| heap := f (heap st); stdout := stdout st; figures := figures st |}.

Definition print (line : string) (st : notebook) : notebook :=
  {| heap := heap st; stdout := stdout st ++ [line];
     figures := figures st |}.

Definition show (fig : tensor) (st : notebook) : notebook :=
  {| heap := heap st; stdout := stdout st;
     figures := figures st ++ [fig] |}.

(** The parameter list of [opt = torch.optim.SGD([input_image],
    lr=0.1)]. *)
Definition opt : list nat := [input_image].

(** The body of [for epoch in range(n_epochs)]. *)
Definition transfer_iteration (code : transfer_code)
    (content_image_features style_image_features : gmap string tensor)
    (epoch : nat) : cell notebook unit :=
  (if epoch mod 10 =? 0 then
     modify (print ("Epoch:  " +:+ pretty epoch));;
     σ ← gets heap;
     img ← lift (deref σ input_image);
     fig ← lift (imshow (clamp 0 1 img));
     modify (show fig)
   else mret tt);;
  σ ← gets heap;
  img ← lift (deref σ input_image);
  let x := clamp 0 1 img in
  nx ← lift (Normalization_forward normalize normalizer σ x);
  input_image_features ← lift (Vgg16_forward vgg_forward vgg16 σ nx);
  content_loss ← lift (sum_terms
    (λ layer, content_term code σ layer input_image_features
                content_image_features) content_loss_layers (constant 0));
  let content_loss :=
    scalar_div content_loss
      (inject_Z (Z.of_nat (length content_loss_layers))) in
  style_loss ← lift (sum_terms
    (λ layer, style_term code σ layer input_image_features
                style_image_features) style_loss_layers (constant 0));
  let style_loss :=
    scalar_div style_loss (inject_Z (Z.of_nat (length style_loss_layers))) in
  let total_loss := total_loss_of code σ content_loss style_loss in
  modify (set_heap (zero_grad opt));;
  modify (set_heap (backward (derivative total_loss)));;
  modify (set_heap (SGD_step lr opt)).

(** The whole cell. *)
Definition transfer (h : transfer_holes) : cell notebook unit :=
  code ← lift (parse h);
  σ ← gets heap;
  content_image_features ← lift (content_image_features_of code σ);
  style_image_features ← lift (style_image_features_of code σ);
  for_ (range 0 n_epochs)
    (transfer_iteration code content_image_features style_image_features).

End Transfer.

(** The notebook as shipped: no placeholder replaced. *)
Definition shipped_transfer : transfer_holes :=
  {| hole_content_image_features := Unfilled;
     hole_style_image_features := Unfilled;
     hole_content_term := Unfilled;
     hole_style_term := Unfilled;
     hole_total_loss := Unfilled |}.

End StyleTransfer.

(** ** The placeholders in the source text *)

Module Source.

Definition marker : string := "# your code here".

(** The lines of the student tasks that hold a placeholder, as they are
    in the notebooks. *)
Definition placeholder_lines : list (string * string) :=
  [ ("PhotoMapDataset.__getitem__",
     "        photo_image, map_image = # your code here ");
    ("UnetDownBlock.__init__", "        # your code here");
    ("UnetDownBlock.forward", "        # your code here");
    ("UnetUpBlock.__init__", "        # your code here");
    ("UnetUpBlock.forward", "        # your code here");
    ("Unet.__init__", "        # your code here");
    ("Unet.forward", "        # your code here");
    ("Vgg16.forward",
     "        ## your code here: just forward slice by slice and save intermediate features");
    ("Normalization.forward", "        result = ## your code here");
    ("ContentLoss.forward", "        result = ## your code here");
    ("StyleLoss.gram_matrix", "        gram_matrix = ## your code here");
    ("transfer cell, content features",
     "content_image_features = ## your code here (don't forget to normalize!)");
    ("transfer cell, style features",
     "style_image_features = ## your code here (don't forget to normalize!)");
    ("transfer loop, total loss", "    total_loss = ## your code here");
    ("transfer loop, content loss",
     "        content_loss += ## your code here (don't forget to .detach() target feature map)");
    ("transfer loop, style loss",
     "        style_loss += ## your code here (don't forget to .detach() target feature map)") ].

Definition has_marker (line : string) : bool :=
  match String.index 0 marker line with
  | Some _ => true
  | None => false
  end.

End Source.

(** ** The statements under verification, as the specification words them *)

Module Spec.

Import Photo2Map StyleTransfer.

(** The left and the right half, along the width axis, of a (C, H, W)
    tensor. *)
Definition left_half (t : tensor) : tensor :=
  match shape t with
  | [c; h; w] =>
      {| shape := [c; h; w / 2]; data := chunks w (data t) ≫= take (w / 2) |}
  | _ => t
  end.

Definition right_half (t : tensor) : tensor :=
  match shape t with
  | [c; h; w] =>
      {| shape := [c; h; w - w / 2];
         data := chunks w (data t) ≫= drop (w / 2) |}
  | _ => t
  end.

(** "[__getitem__(i)] returns the left half and the right half of the
    transformed side-by-side (3, H, W) image." *)
Definition getitem_returns_halves (h : hole (sample → sample * sample))
    : Prop :=
  ∀ (self : ImageFolder) (index : Z) entry img tr t hh w,
    getitem (samples self) index = Ok entry →
    loader self entry.1 = Ok img →
    ds_transform self = Some tr →
    tr img = Ok t →
    shape t = [3; hh; w] →
    PhotoMapDataset_getitem h self index
      = Ok (Tens (left_half t), Tens (right_half t)).

(** The expression that cuts the transformed sample in two. *)
Definition halves (s : sample) : sample * sample :=
  match s with
  | Tens t => (Tens (left_half t), Tens (right_half t))
  | PIL _ => (s, s)
  end.

Definition dot (u v : list Q) : Q := sum_Q (zip_with Qmult u v).

(** The pairwise inner products between the rows of every matrix of a
    (b, c, n) batch: what [torch.bmm(f, f.transpose(1, 2))] computes. *)
Definition inner_products (f : tensor) : tensor :=
  match shape f with
  | [b; c; n] =>
      {| shape := [b; c; c];
         data :=
           image ← chunks c (chunks n (data f));
           u ← image; v ← image; [dot u v] |}
  | _ => f
  end.

(** "The (b, c, c) tensor of pairwise inner products between the
    spatially flattened channels." *)
Definition gram (features : tensor) : tensor :=
  match shape features with
  | [b; c; h; w] =>
      inner_products {| shape := [b; c; h * w]; data := data features |}
  | _ => features
  end.

(** "[StyleLoss.forward] equals the mean-squared error between the Gram
    matrices of its two arguments." *)
Definition style_loss_is_gram_mse (h : hole (tensor → tensor)) : Prop :=
  ∀ pred target b c hh w,
    shape pred = [b; c; hh; w] →
    shape target = [b; c; hh; w] →
    StyleLoss_forward h pred target = mse_loss (gram pred) (gram target).

(** The children a slice holds for the layer indices [lo, hi). *)
Definition slice_of (features : list Layer) (lo hi : nat)
    : list (string * Layer) :=
  zip (pretty <$> range lo hi) (take (hi - lo) (drop lo features)).

Definition sliced (features : list Layer) (self : Vgg16) : Prop :=
  slice1 self = slice_of features 0 4
  ∧ slice2 self = slice_of features 4 9
  ∧ slice3 self = slice_of features 9 16
  ∧ slice4 self = slice_of features 16 23.

(** The four activations obtained by running [x] through the first
    4, 9, 16 and 23 layers of [features]. *)
Definition activations (features : list Layer) (σ : gmap nat slot)
    (x : tensor) : gmap string tensor :=
  let through n := foldl (λ y l, layer_forward l σ y) x (take n features) in
  <[ "relu1_2" := through 4 ]> (<[ "relu2_2" := through 9 ]>
    (<[ "relu3_3" := through 16 ]> {[ "relu4_3" := through 23 ]})).

(** "[__init__] slices the features at depths 4, 9, 16 and 23, and
    [forward] returns the four intermediate activations." *)
Definition vgg16_slices_and_activations
    (body : hole (Vgg16 * gmap nat slot → gmap string tensor → gmap string tensor))
    : Prop :=
  ∀ (features : list Layer) (rg : bool) (σ : gmap nat slot),
    23 ≤ length features →
    ∃ self σ',
      Vgg16_init features rg σ = Ok (self, σ')
      ∧ sliced features self
      ∧ ∀ x, Vgg16_forward body self σ' x = Ok (activations features σ' x).

(** "No code path raises, catches, or asserts a repository-defined
    error condition." *)
Definition no_repository_defined_error : Prop :=
  ∀ cuda resample files style_path content_path msg,
    load_images cuda resample files style_path content_path
      ≠ Raise (AssertionError msg).


Definition fails {A} (r : result A) : Prop := ∃ e, r = Raise e.

(** "As shipped these operations compute no defined result." *)
Definition shipped_operations_undefined : Prop :=
  (∀ self index, fails (PhotoMapDataset_getitem Unfilled self index))
  ∧ (∀ self σ x, fails (UnetDownBlock_forward Unfilled self σ x))
  ∧ (∀ self σ x x_bridge, fails (UnetUpBlock_forward Unfilled self σ x x_bridge))
  ∧ (∀ self σ x, fails (Unet_forward Unfilled self σ x))
  ∧ (∀ self σ x, fails (Vgg16_forward Unfilled self σ x))
  ∧ (∀ self σ x, fails (Normalization_forward Unfilled self σ x))
  ∧ (∀ pred target, fails (ContentLoss_forward Unfilled pred target))
  ∧ (∀ features, fails (gram_matrix Unfilled features))
  ∧ (∀ vgg_forward normalize vgg16 normalizer input_image st,
       fails (transfer vgg_forward normalize vgg16 normalizer
                input_image shipped_transfer st).2).

End Spec.

(** ** Sample inputs *)

Module Sample.

Import Photo2Map StyleTransfer.

(** Nearest-neighbour resampling. *)
Definition nearest (img : Image) (ow oh : nat) : list N :=
  i ← seq 0 oh; j ← seq 0 ow; c ← seq 0 (bands (mode img));
  [getpixel img c (i * height img / oh) (j * width img / ow)].

Definition rgb_2x1 : Image :=
  {| mode := RGB; width := 2; height := 1;
     pixels := [255; 0; 0; 0; 0; 255]%N |}.

Definition rgb_1x2 : Image :=
  {| mode := RGB; width := 1; height := 2;
     pixels := [0; 255; 0; 255; 255; 255]%N |}.

Definition gray_2x2 : Image :=
  {| mode := L; width := 2; height := 2; pixels := [0; 85; 170; 255]%N |}.

Definition two_rgb_files : gmap string Image :=
  {[ style_image_path := rgb_2x1; content_image_path := rgb_1x2 ]}.

Definition rgb_and_gray_files : gmap string Image :=
  {[ style_image_path := rgb_2x1; content_image_path := gray_2x2 ]}.

(** A (3, 1, 2) tensor: one row of two pixels per channel. *)
Definition pair_tensor : tensor :=
  {| shape := [3; 1; 2]; data := [1; 2; 3; 4; 5; 6]%Q |}.

Definition one_sample_folder : ImageFolder :=
  {| samples := [("./maps/train/0/1.jpg", 0)];
     loader := λ _, Ok rgb_2x1;
     ds_transform := Some (λ _, Ok pair_tensor) |}.


(** Two (1, 2, 1, 2) feature maps: two channels of two positions. *)
Definition two_channels : tensor :=
  {| shape := [1; 2; 1; 2]; data := [1; 2; 3; 4]%Q |}.

Definition unit_channels : tensor :=
  {| shape := [1; 2; 1; 2]; data := [1; 0; 0; 1]%Q |}.

Definition unit_features : tensor :=
  {| shape := [1; 1; 1; 1]; data := [1%Q] |}.

Definition no_module : Module := nn_Module_init.

(** The notebook before the train loop: nothing allocated, nothing
    logged. *)
Definition fresh_notebook : @Photo2Map.notebook unit :=
  {| Photo2Map.heap := ∅; moments := ∅; training := false; writer := [];
     Photo2Map.stdout := []; n_iters := 0 |}.

Definition no_moments (lr : Q) (m : option unit) (p g : tensor)
    : unit * tensor :=
  (tt, p).

Definition no_gradient (σ : gmap nat slot) (photo map leaf : nat)
    : option tensor :=
  None.

(** The outcome of the train loop over the one-sample folder, with the
    halving written into [__getitem__] and the shipped [Unet]. *)
Definition small_training : @Photo2Map.notebook unit * result unit :=
  train_loop no_moments (λ t, t) no_gradient (λ _, [0])
    (Filled Spec.halves) Unfilled one_sample_folder no_module [] Unfilled
    fresh_notebook.

(** A one-pixel (1, 1, 1, 1) tensor. *)
Definition pixel (q : Q) : tensor := {| shape := [1; 1; 1; 1]; data := [q] |}.

(** A loss term of value 1 whose derivative is 1 with respect to every
    tensor. *)
Definition slope_one : scalar :=
  {| item := 1; derivative := λ _, Some (pixel 1) |}.

(** A completed transfer cell: every loss term is [slope_one], the
    total loss is the sum of the content and the style loss. *)
Definition completed_transfer : transfer_holes :=
  {| hole_content_image_features := Filled (λ _, Ok ∅);
     hole_style_image_features := Filled (λ _, Ok ∅);
     hole_content_term := Filled (λ _ _ _ _, Ok slope_one);
     hole_style_term := Filled (λ _ _ _ _, Ok slope_one);
     hole_total_loss := Filled (λ _ content_loss style_loss,
                                  scalar_add content_loss style_loss) |}.

(** A heap with the content image at 0 and a weight that requires a
    gradient at 5; the normalizer and the clone [input_image] come on
    top of it. *)
Definition small_heap : gmap nat slot :=
  {[ 0 := Slot (pixel (1 # 2)) None false; 5 := Slot (pixel 7) None true ]}.

Definition small_normalizer : Normalization * gmap nat slot :=
  match Normalization_init normalization_mean normalization_std small_heap with
  | Ok r => r
  | Raise _ => ({| mean := 0; std := 0 |}, small_heap)
  end.

Definition small_input_image : nat * gmap nat slot :=
  alloc (pixel (1 # 2)) true small_normalizer.2.

Definition no_slices : Vgg16 :=
  {| slice1 := []; slice2 := []; slice3 := []; slice4 := [] |}.

(** The state in which the small transfer cell ends. *)
Definition small_transfer : StyleTransfer.notebook :=
  (transfer (Filled forward_slice_by_slice) (Filled (λ x _ _, x))
     no_slices small_normalizer.1 small_input_image.1 completed_transfer
     {| StyleTransfer.heap := small_input_image.2;
        StyleTransfer.stdout := []; figures := [] |}).1.

(** Thirty-one layers, as many as [vgg16.features] has; layer [k] owns
    tensor [k] and adds [k] to every element. *)
Definition layers31 : list Layer :=
  (λ k, {| layer_params := [k];
           layer_forward := λ _ t, tmap (Qplus (inject_Z (Z.of_nat k))) t |})
    <$> seq 0 31.

End Sample.

(** ** Vocabulary of the proofs *)

(** A cell keeps a relation between the state before and after it,
    whether or not it raises. *)
Definition preserves {S A} (R : relation S) (m : cell S A) : Prop :=
  ∀ s, R s (m s).1.

(** From a state in [P], the cell ends in [Q] when it returns and in [E]
    when it raises. *)
Definition hoare {S A} (P : S → Prop) (m : cell S A) (Q : A → S → Prop)
    (E : S → Prop) : Prop :=
  ∀ s, P s →
    match m s with
    | (s', Ok a) => Q a s'
    | (s', Raise _) => E s'
    end.

(** The part [V] of the state that a property looks at is left alone. *)
Definition same_view {S X} (V : S → X) (s s' : S) : Prop := V s' = V s.

(** Every tensor but [input_image] keeps its elements. *)
Definition style_frame (input_image : nat)
    (st st' : StyleTransfer.notebook) : Prop :=
  ∀ id, id ≠ input_image →
    value <$> StyleTransfer.heap st' !! id = value <$> StyleTransfer.heap st !! id.

(** Every tensor object that exists and is not held by the optimizer
    keeps its elements. *)
Definition train_frame {AdamSt} (opt : list nat)
    (st st' : @Photo2Map.notebook AdamSt) : Prop :=
  ∀ id, id ∉ opt → is_Some (Photo2Map.heap st !! id) →
    value <$> Photo2Map.heap st' !! id = value <$> Photo2Map.heap st !! id.

(** The steps under which the train loop has logged its loss, and the
    counter [n_iters] beside them. *)
Definition steps {AdamSt} (st : @Photo2Map.notebook AdamSt) : list nat :=
  Photo2Map.train_loss_steps (Photo2Map.writer st).

Definition log_view {AdamSt} (st : @Photo2Map.notebook AdamSt)
    : list nat * nat :=
  (steps st, Photo2Map.n_iters st).

(** A run that stopped early has logged the steps up to some point. *)
Definition logged_prefix {AdamSt} (total : nat)
    (st : @Photo2Map.notebook AdamSt) : Prop :=
  ∃ k, k ≤ total ∧ steps st = seq 0 k.

(** A cell that never ends in [AssertionError msg]. *)
Definition never_asserts {S A} (msg : string) (m : cell S A) : Prop :=
  ∀ s, (m s).2 ≠ Raise (AssertionError msg).

(** *** Vocabulary of the further properties *)

(** An image whose samples are bytes. *)
Definition eight_bit (img : Image) : Prop :=
  Forall (λ b, (b ≤ 255)%N) (pixels img).

(** The byte of band [c] of the pixel in row [i] and column [j], as
    [ToTensor] scales it. *)
Definition level (img : Image) (c i j : nat) : Q :=
  (inject_Z (Z.of_N (getpixel img c i j)) / 255)%Q.

(** Element [i0, i1, i2] of a three-dimensional tensor. *)
Definition at3 (t : tensor) (i0 i1 i2 : nat) : option Q :=
  match shape t with
  | [_; n1; n2] => data t !! ((i0 * n1 + i1) * n2 + i2)
  | _ => None
  end.

(** The figures a cell adds all have their values between [lo] and
    [hi]. *)
Definition shows_within (lo hi : Q) (st st' : StyleTransfer.notebook) : Prop :=
  ∃ new, StyleTransfer.figures st' = StyleTransfer.figures st ++ new
         ∧ Forall (in_range lo hi) new.

(** What the transfer cell prints and how many figures it has shown. *)
Definition report (st : StyleTransfer.notebook) : list string * nat :=
  (StyleTransfer.stdout st, length (StyleTransfer.figures st)).

(** The epochs before [n] in which the transfer loop reports. *)
Definition reported_epochs (n : nat) : list nat :=
  filter (λ epoch, epoch mod 10 = 0) (seq 0 n).

(** [print("Epoch: ", epoch)]. *)
Definition epoch_line (epoch : nat) : string := "Epoch:  " +:+ pretty epoch.

(** [print("Epoch {} done.".format(epoch))]. *)
Definition done_line (epoch : nat) : string :=
  "Epoch " +:+ pretty epoch +:+ " done.".

(** The train loop has printed the lines of the first [k] epochs on top
    of [out]. *)
Definition printed {AdamSt} (out : list string) (k : nat)
    (st : @Photo2Map.notebook AdamSt) : Prop :=
  Photo2Map.stdout st = out ++ (done_line <$> seq 0 k).

(** The steps under which an image was logged with [tag], oldest
    first. *)
Definition image_steps (tag : string) (log : list Photo2Map.event) : list nat :=
  log ≫= λ e,
    match e with
    | Photo2Map.add_image t _ step => if decide (t = tag) then [step] else []
    | Photo2Map.add_scalar _ _ _ => []
    end.

(** The tags of the three images the train loop logs. *)
Definition image_tags : list string :=
  ["train/photo_image"; "train/map_image_pred"; "train/map_image_gt"].

(** The iterations below [n] in which the train loop logs its images. *)
Definition image_iterations (n : nat) : list nat :=
  filter (λ n_iters, n_iters mod 50 = 0) (seq 0 n).

(** The image log and the counter [n_iters] beside it. *)
Definition image_view {AdamSt} (tag : string)
    (st : @Photo2Map.notebook AdamSt) : list nat * nat :=
  (image_steps tag (Photo2Map.writer st), Photo2Map.n_iters st).

(** The transfer loop has reported the epochs before [n], on top of
    the lines [out] and the [shown] figures that were there. *)
Definition reported_after (out : list string) (shown n : nat)
    (st : StyleTransfer.notebook) : Prop :=
  report st = (out ++ (epoch_line <$> reported_epochs n),
               shown + length (reported_epochs n)).

(** The image log holds, after the steps [before], those of the epochs
    before [e] and of the first [i] iterations of epoch [e]; [len] is
    the number of batches of an epoch. *)
Definition images_logged {AdamSt} (tag : string) (before : list nat)
    (len e i : nat) (st : @Photo2Map.notebook AdamSt) : Prop :=
  image_view tag st
  = (before ++ (e' ← seq 0 e; n ← image_iterations len; [e' * len + n])
            ++ (n ← image_iterations i; [e * len + n]), i).

(** ** Properties *)

Section TensorFacts.

Lemma chan_half c :
  (c < 3)%nat →
  chan [Photo2Map.half; Photo2Map.half; Photo2Map.half] c = Photo2Map.half.
Proof.
  intros Hc. destruct c as [|[|[|c]]]; try reflexivity. lia.
Qed.

Lemma div_numel_lt k c h w :
  (k < c * (h * w))%nat → (k / (h * w) < c)%nat.
Proof.
  intros Hk. destruct (decide (h * w = 0)%nat) as [E|E].
  - rewrite E in Hk. lia.
  - apply Nat.Div0.div_lt_upper_bound. lia.
Qed.

Lemma transform_Normalize_rgb t h w :
  shape t = [3; h; w] →
  Photo2Map.transform_Normalize t =
    Ok {| shape := shape t;
          data := imap (λ k p,
            ((p - chan [Photo2Map.half; Photo2Map.half; Photo2Map.half]
                    (k / (h * w)))
               / chan [Photo2Map.half; Photo2Map.half; Photo2Map.half]
                   (k / (h * w)))%Q)
            (data t) |}.
Proof.
  intros Hs. unfold Photo2Map.transform_Normalize, Normalize. rewrite Hs.
  reflexivity.
Qed.

Lemma length_bind_const {A B} (f : A → list B) (l : list A) (n : nat) :
  (∀ x, length (f x) = n) → length (l ≫= f) = length l * n.
Proof.
  intros Hf. induction l as [|a l IH]; [reflexivity|].
  change ((a :: l) ≫= f) with (f a ++ (l ≫= f)).
  rewrite length_app, Hf, IH. simpl. lia.
Qed.

End TensorFacts.

(** *** Loading the style and content images *)

Section Loading.
Import StyleTransfer.
Variable cuda : bool.
Variable resample : Image → nat → nat → list N.
Variable files : gmap string Image.

Lemma image_loader_found name img :
  files !! name = Some img →
  image_loader cuda resample files name
    = Ok (unsqueeze0 (image_transform_fn cuda resample img)).
Proof.
  intros Hf. unfold image_loader, Image_open. rewrite Hf. reflexivity.
Qed.

Lemma image_loader_missing name :
  files !! name = None →
  image_loader cuda resample files name = Raise (FileNotFoundError name).
Proof.
  intros Hf. unfold image_loader, Image_open. rewrite Hf. reflexivity.
Qed.

Lemma loaded_shape img :
  shape (unsqueeze0 (image_transform_fn cuda resample img))
    = [1; bands (mode img); imsize cuda; imsize cuda].
Proof. reflexivity. Qed.

Lemma bands_positive m : 0 < bands m.
Proof. destruct m; simpl; lia. Qed.

(** The loaded tensor has as many elements as its size says. *)
Lemma loaded_wf img :
  tensor_wf (unsqueeze0 (image_transform_fn cuda resample img)).
Proof.
  unfold tensor_wf. rewrite loaded_shape.
  unfold unsqueeze0, image_transform_fn, ToTensor. cbn [data numel foldr].
  rewrite (length_bind_const _ _ (imsize cuda * imsize cuda)).
  - rewrite length_seq. cbn [mode height width Resize_hw resize]. lia.
  - intros c. rewrite (length_bind_const _ _ (imsize cuda)).
    + rewrite length_seq. reflexivity.
    + intros i. rewrite (length_bind_const _ _ 1).
      * rewrite length_seq. cbn [width Resize_hw resize]. lia.
      * reflexivity.
Qed.
End Loading.

(** C8. [image_loader] turns an image file with [c] bands into a tensor
    of size (1, c, imsize, imsize); when the style and the content image
    have the same number of bands the [assert] on equal sizes passes, and
    when it fails the two images differ in their number of bands. *)
Theorem image_loader_sizes_agree (cuda : bool)
    (resample : Image → nat → nat → list N) (files : gmap string Image)
    (style_path content_path : string) (s c : Image) :
  files !! style_path = Some s →
  files !! content_path = Some c →
  (∃ ts tc,
      StyleTransfer.image_loader cuda resample files style_path = Ok ts
      ∧ StyleTransfer.image_loader cuda resample files content_path = Ok tc
      ∧ shape ts = [1; bands (mode s); StyleTransfer.imsize cuda; StyleTransfer.imsize cuda]
      ∧ shape tc = [1; bands (mode c); StyleTransfer.imsize cuda; StyleTransfer.imsize cuda]
      ∧ tensor_wf ts ∧ tensor_wf tc
      ∧ (bands (mode s) = bands (mode c) →
         StyleTransfer.load_images cuda resample files style_path content_path
           = Ok (ts, tc)))
  ∧ (∀ msg,
       StyleTransfer.load_images cuda resample files style_path content_path
         = Raise (AssertionError msg) →
       bands (mode s) ≠ bands (mode c)).
Proof.
  intros Hs Hc.
  pose proof (image_loader_found cuda resample files _ _ Hs) as Es.
  pose proof (image_loader_found cuda resample files _ _ Hc) as Ec.
  split.
  - eexists _, _. split; [exact Es|]. split; [exact Ec|].
    split; [apply loaded_shape|]. split; [apply loaded_shape|].
    split; [apply loaded_wf|]. split; [apply loaded_wf|].
    intros Hb. unfold StyleTransfer.load_images. rewrite Es, Ec. simpl.
    rewrite Hb. rewrite decide_True by reflexivity. reflexivity.
  - intros msg Hr Hb. unfold StyleTransfer.load_images in Hr.
    rewrite Es, Ec in Hr. simpl in Hr. rewrite Hb in Hr.
    rewrite decide_True in Hr by reflexivity. discriminate.
Qed.

Lemma image_loader_sizes_agree_witness :
  (∃ ts tc,
      StyleTransfer.image_loader false Sample.nearest Sample.two_rgb_files
        StyleTransfer.style_image_path = Ok ts
      ∧ StyleTransfer.image_loader false Sample.nearest Sample.two_rgb_files
          StyleTransfer.content_image_path = Ok tc
      ∧ shape ts = [1; 3; 128; 128]
      ∧ shape tc = [1; 3; 128; 128]
      ∧ tensor_wf ts ∧ tensor_wf tc
      ∧ (3 = 3 →
         StyleTransfer.load_images false Sample.nearest Sample.two_rgb_files
           StyleTransfer.style_image_path StyleTransfer.content_image_path
           = Ok (ts, tc)))
  ∧ (∀ msg,
       StyleTransfer.load_images false Sample.nearest Sample.two_rgb_files
         StyleTransfer.style_image_path StyleTransfer.content_image_path
         = Raise (AssertionError msg) →
       3 ≠ 3).
Proof.
  apply (image_loader_sizes_agree false Sample.nearest Sample.two_rgb_files
           StyleTransfer.style_image_path StyleTransfer.content_image_path
           Sample.rgb_2x1 Sample.rgb_1x2); reflexivity.
Defined.

(** *** Fallible results *)

Lemma bind_Ok {A B} (m : result A) (k : A → result B) (b : B) :
  m ≫= k = Ok b → ∃ a, m = Ok a ∧ k a = Ok b.
Proof. intros H. destruct m as [a|e]; [eauto|discriminate H]. Qed.

Lemma bind_Raise {A B} (m : result A) (k : A → result B) (e : exn) :
  m ≫= k = Raise e → m = Raise e ∨ ∃ a, m = Ok a ∧ k a = Raise e.
Proof.
  intros H. destruct m as [a|e']; [right; eauto|left].
  injection H as ->. reflexivity.
Qed.

Lemma getitem_valid {A} (l : list A) (i : nat) (a : A) :
  l !! i = Some a → getitem l (Z.of_nat i) = Ok a.
Proof.
  intros Hl. unfold getitem. cbv zeta.
  destruct (decide (Z.of_nat i < 0)%Z) as [Hneg|_]; [lia|].
  destruct (decide (0 ≤ Z.of_nat i)%Z) as [_|Hneg]; [|lia].
  rewrite Nat2Z.id, Hl. reflexivity.
Qed.

(** *** The model at work *)

Example getitem_indices :
  getitem [10; 20; 30] 0 = Ok 10
  ∧ getitem [10; 20; 30] (-1) = Ok 30
  ∧ getitem [10; 20; 30] 3 = Raise IndexError
  ∧ getitem [10; 20; 30] (-4) = Raise IndexError.
Proof. repeat split. Qed.

Example chunks_of_four :
  chunks 4 (seq 0 10) = [[0; 1; 2; 3]; [4; 5; 6; 7]; [8; 9]]
  ∧ chunks 4 (seq 0 8) = [[0; 1; 2; 3]; [4; 5; 6; 7]].
Proof. split; reflexivity. Qed.

Example ToTensor_channels_first :
  ToTensor Sample.rgb_2x1
  = {| shape := [3; 1; 2];
       data := [255 # 255; 0 # 255; 0 # 255; 0 # 255; 0 # 255; 255 # 255] |}.
Proof. reflexivity. Qed.

Example Resize_edge_keeps_ratio :
  width (Resize_edge Sample.nearest 4 Sample.rgb_2x1) = 8
  ∧ height (Resize_edge Sample.nearest 4 Sample.rgb_2x1) = 4
  ∧ Resize_edge Sample.nearest 1 Sample.rgb_2x1 = Sample.rgb_2x1.
Proof. repeat split. Qed.

(** The shipped [Unet] has no attribute to print and no parameter to
    optimize. *)
Example shipped_model :
  Photo2Map.Unet_repr (Photo2Map.model Unfilled ∅).1
    = Raise (AttributeError "in_channels")
  ∧ optimizer (Photo2Map.parameters (Photo2Map.model Unfilled ∅).1)
      = Raise ValueError.
Proof. split; reflexivity. Qed.

Example fetch_one_sample :
  Photo2Map.fetch (Filled Spec.halves)
    (Photo2Map.train_dataloader Sample.one_sample_folder) [0]
  = Ok ({| shape := [1; 3; 1; 1]; data := [1; 3; 5]%Q |},
        {| shape := [1; 3; 1; 1]; data := [2; 4; 6]%Q |}).
Proof. reflexivity. Qed.

(** Two hundred steps of slope 2 at rate 0.1 move [input_image] from
    0.5 to -39.5; the content image and the weight keep their elements,
    though the weight has collected a gradient. *)
Example small_transfer_moves_input_image :
  StyleTransfer.clone_input_image 0 Sample.small_normalizer.2
    = Ok Sample.small_input_image
  ∧ (∃ v, value <$> StyleTransfer.heap Sample.small_transfer
                      !! Sample.small_input_image.1 = Some v
          ∧ tensor_eq v (Sample.pixel (- (79 # 2))))
  ∧ value <$> StyleTransfer.heap Sample.small_transfer !! 0
      = Some (Sample.pixel (1 # 2))
  ∧ value <$> StyleTransfer.heap Sample.small_transfer !! 5
      = Some (Sample.pixel 7)
  ∧ ∃ g, grad <$> StyleTransfer.heap Sample.small_transfer !! 5 = Some (Some g)
         ∧ tensor_eq g (Sample.pixel 400).
Proof.
  split; [reflexivity|].
  split; [eexists; split; [vm_compute; reflexivity|split; [reflexivity|]]|].
  { repeat constructor. }
  split; [vm_compute; reflexivity|]. split; [vm_compute; reflexivity|].
  eexists. split; [vm_compute; reflexivity|]. split; [reflexivity|].
  repeat constructor.
Qed.

(** Twenty-five epochs of one batch: the loss is logged under the steps
    0 to 24, with three images beside each. *)
Example small_training_log :
  Sample.small_training.2 = Ok tt
  ∧ steps Sample.small_training.1 = seq 0 25
  ∧ length (Photo2Map.writer Sample.small_training.1) = 100
  ∧ Photo2Map.n_iters Sample.small_training.1 = 1.
Proof. vm_compute. repeat split. Qed.

(** *** The dataset wrapper *)

Example halves_of_two_rows :
  Spec.halves (Photo2Map.Tens
                 {| shape := [1; 2; 4]; data := [1; 2; 3; 4; 5; 6; 7; 8]%Q |})
  = (Photo2Map.Tens {| shape := [1; 2; 2]; data := [1; 2; 5; 6]%Q |},
     Photo2Map.Tens {| shape := [1; 2; 2]; data := [3; 4; 7; 8]%Q |}).
Proof. reflexivity. Qed.

(** C1, as worded, fails on the shipped notebook: the statement that
    should split the sample has no right-hand side. *)
Lemma getitem_shipped_returns_no_halves :
  ¬ Spec.getitem_returns_halves Unfilled.
Proof.
  intros H.
  specialize (H Sample.one_sample_folder 0%Z ("./maps/train/0/1.jpg", 0)
                Sample.rgb_2x1 (λ _, Ok Sample.pair_tensor) Sample.pair_tensor
                1 2 eq_refl eq_refl eq_refl eq_refl eq_refl).
  discriminate H.
Qed.

(** C1, amended. For a valid index, [__getitem__] loads the sample at
    that index, applies the transform when one is set, and returns the
    pair that the student's expression makes of the transformed sample;
    with the placeholder left in, the cell is rejected; with the halving
    written in, the pair is the left and the right half. *)
Theorem getitem_returns_split_of_transformed (self : Photo2Map.ImageFolder)
    (index : Z) (entry : string * nat) (img : Image) :
  getitem (Photo2Map.samples self) index = Ok entry →
  Photo2Map.loader self entry.1 = Ok img →
  (∀ split tr t,
      Photo2Map.ds_transform self = Some tr → tr img = Ok t →
      Photo2Map.PhotoMapDataset_getitem (Filled split) self index
        = Ok (split (Photo2Map.Tens t)))
  ∧ (∀ split,
       Photo2Map.ds_transform self = None →
       Photo2Map.PhotoMapDataset_getitem (Filled split) self index
         = Ok (split (Photo2Map.PIL img)))
  ∧ Photo2Map.PhotoMapDataset_getitem Unfilled self index = Raise SyntaxError
  ∧ (∀ tr t,
       Photo2Map.ds_transform self = Some tr → tr img = Ok t →
       Photo2Map.PhotoMapDataset_getitem (Filled Spec.halves) self index
         = Ok (Photo2Map.Tens (Spec.left_half t),
               Photo2Map.Tens (Spec.right_half t))).
Proof.
  intros Hentry Himg.
  assert (Hset : ∀ split tr t,
            Photo2Map.ds_transform self = Some tr → tr img = Ok t →
            Photo2Map.PhotoMapDataset_getitem (Filled split) self index
              = Ok (split (Photo2Map.Tens t))).
  { intros split tr t Htr Ht. unfold Photo2Map.PhotoMapDataset_getitem.
    cbn [expr_hole]. rewrite Hentry. cbn [mbind result_bind bind].
    rewrite Himg, Htr. cbn [mbind result_bind bind]. rewrite Ht.
    cbn [mbind result_bind bind mret result_ret].
    destruct (split (Photo2Map.Tens t)). reflexivity. }
  split; [exact Hset|]. split; [|split; [reflexivity|]].
  - intros split Hnone. unfold Photo2Map.PhotoMapDataset_getitem.
    cbn [expr_hole]. rewrite Hentry. cbn [mbind result_bind bind].
    rewrite Himg, Hnone. cbn [mbind result_bind bind mret result_ret].
    destruct (split (Photo2Map.PIL img)). reflexivity.
  - intros tr t Htr Ht. rewrite (Hset _ _ _ Htr Ht). reflexivity.
Qed.

Lemma getitem_returns_split_of_transformed_witness :
  (∀ split tr t,
      Photo2Map.ds_transform Sample.one_sample_folder = Some tr →
      tr Sample.rgb_2x1 = Ok t →
      Photo2Map.PhotoMapDataset_getitem (Filled split)
        Sample.one_sample_folder 0%Z = Ok (split (Photo2Map.Tens t)))
  ∧ (∀ split,
       Photo2Map.ds_transform Sample.one_sample_folder = None →
       Photo2Map.PhotoMapDataset_getitem (Filled split)
         Sample.one_sample_folder 0%Z = Ok (split (Photo2Map.PIL Sample.rgb_2x1)))
  ∧ Photo2Map.PhotoMapDataset_getitem Unfilled Sample.one_sample_folder 0%Z
      = Raise SyntaxError
  ∧ (∀ tr t,
       Photo2Map.ds_transform Sample.one_sample_folder = Some tr →
       tr Sample.rgb_2x1 = Ok t →
       Photo2Map.PhotoMapDataset_getitem (Filled Spec.halves)
         Sample.one_sample_folder 0%Z
         = Ok (Photo2Map.Tens (Spec.left_half t),
               Photo2Map.Tens (Spec.right_half t))).
Proof.
  apply (getitem_returns_split_of_transformed Sample.one_sample_folder 0%Z
           ("./maps/train/0/1.jpg", 0) Sample.rgb_2x1); reflexivity.
Defined.

(** *** The style loss *)

Lemma view_flattened (t : tensor) (b c h w : nat) :
  shape t = [b; c; h; w] →
  view [b; c; w * h] t = Ok {| shape := [b; c; w * h]; data := data t |}.
Proof.
  intros Hs. unfold view. rewrite Hs.
  rewrite decide_True; [reflexivity|]. simpl. lia.
Qed.

Lemma gram_matrix_filled (g : tensor → tensor) (t : tensor) (b c h w : nat) :
  shape t = [b; c; h; w] →
  StyleTransfer.gram_matrix (Filled g) t
    = Ok (g {| shape := [b; c; w * h]; data := data t |}).
Proof.
  intros Hs. unfold StyleTransfer.gram_matrix. cbn [expr_hole].
  rewrite Hs, (view_flattened t b c h w Hs). reflexivity.
Qed.

(** C2, as worded, fails on the shipped notebook: [gram_matrix] has no
    expression to evaluate. *)
Lemma style_loss_shipped_is_no_gram_mse :
  ¬ Spec.style_loss_is_gram_mse Unfilled.
Proof.
  intros H.
  specialize (H Sample.unit_features Sample.unit_features 1 1 1 1
                eq_refl eq_refl).
  vm_compute in H. discriminate H.
Qed.

(** C2, amended. [StyleLoss.forward] is the mean-squared error between
    [gram_matrix] of its two arguments, and [gram_matrix] reshapes a
    (b, c, h, w) tensor to (b, c, w * h) and returns what the student's
    expression makes of it; with the placeholder left in, the class is
    rejected and no loss is computed; with the product of the reshaped
    features and their transpose written in, [forward] is the
    mean-squared error between the tensors of pairwise inner products of
    the flattened channels. *)
Theorem style_loss_is_mse_of_gram_matrix (g : tensor → tensor)
    (pred target : tensor) (b c h w : nat) :
  shape pred = [b; c; h; w] →
  shape target = [b; c; h; w] →
  StyleTransfer.gram_matrix (Filled g) pred
    = Ok (g {| shape := [b; c; w * h]; data := data pred |})
  ∧ StyleTransfer.gram_matrix (Filled g) target
      = Ok (g {| shape := [b; c; w * h]; data := data target |})
  ∧ StyleTransfer.StyleLoss_forward (Filled g) pred target
      = mse_loss (g {| shape := [b; c; w * h]; data := data pred |})
                 (g {| shape := [b; c; w * h]; data := data target |})
  ∧ StyleTransfer.gram_matrix Unfilled pred = Raise SyntaxError
  ∧ StyleTransfer.StyleLoss_forward Unfilled pred target = Raise SyntaxError
  ∧ StyleTransfer.StyleLoss_forward (Filled Spec.inner_products) pred target
      = mse_loss (Spec.gram pred) (Spec.gram target).
Proof.
  intros Hp Ht.
  assert (Hfw : ∀ f, StyleTransfer.StyleLoss_forward (Filled f) pred target
            = mse_loss (f {| shape := [b; c; w * h]; data := data pred |})
                       (f {| shape := [b; c; w * h]; data := data target |})).
  { intros f. unfold StyleTransfer.StyleLoss_forward.
    rewrite (gram_matrix_filled f pred b c h w Hp).
    rewrite (gram_matrix_filled f target b c h w Ht). reflexivity. }
  split; [exact (gram_matrix_filled g pred b c h w Hp)|].
  split; [exact (gram_matrix_filled g target b c h w Ht)|].
  split; [apply Hfw|]. split; [reflexivity|]. split; [reflexivity|].
  rewrite Hfw. unfold Spec.gram. rewrite Hp, Ht.
  rewrite (Nat.mul_comm w h). reflexivity.
Qed.

Lemma style_loss_is_mse_of_gram_matrix_witness :
  StyleTransfer.gram_matrix (Filled Spec.inner_products) Sample.two_channels
    = Ok (Spec.inner_products
            {| shape := [1; 2; 2 * 1]; data := data Sample.two_channels |})
  ∧ StyleTransfer.gram_matrix (Filled Spec.inner_products) Sample.unit_channels
      = Ok (Spec.inner_products
              {| shape := [1; 2; 2 * 1]; data := data Sample.unit_channels |})
  ∧ StyleTransfer.StyleLoss_forward (Filled Spec.inner_products)
      Sample.two_channels Sample.unit_channels
      = mse_loss
          (Spec.inner_products
             {| shape := [1; 2; 2 * 1]; data := data Sample.two_channels |})
          (Spec.inner_products
             {| shape := [1; 2; 2 * 1]; data := data Sample.unit_channels |})
  ∧ StyleTransfer.gram_matrix Unfilled Sample.two_channels = Raise SyntaxError
  ∧ StyleTransfer.StyleLoss_forward Unfilled
      Sample.two_channels Sample.unit_channels = Raise SyntaxError
  ∧ StyleTransfer.StyleLoss_forward (Filled Spec.inner_products)
      Sample.two_channels Sample.unit_channels
      = mse_loss (Spec.gram Sample.two_channels) (Spec.gram Sample.unit_channels).
Proof.
  apply (style_loss_is_mse_of_gram_matrix Spec.inner_products
           Sample.two_channels Sample.unit_channels 1 2 1 2); reflexivity.
Defined.

Example gram_of_two_channels :
  Spec.gram Sample.two_channels
    = {| shape := [1; 2; 2]; data := [5; 11; 11; 25]%Q |}
  ∧ StyleTransfer.StyleLoss_forward (Filled Spec.inner_products)
      Sample.two_channels Sample.unit_channels = Ok (834 # 4).
Proof. split; reflexivity. Qed.

(** *** The feature extractor *)

Lemma Vgg16_forward_shipped (self : StyleTransfer.Vgg16) (σ : gmap nat slot)
    (x : tensor) :
  StyleTransfer.Vgg16_forward Unfilled self σ x = Raise (NameError "x_relu1_2").
Proof. reflexivity. Qed.

(** C3, as worded, fails on the shipped notebook: [forward] returns
    names that nothing has bound. *)
Lemma vgg16_shipped_returns_no_activations :
  ¬ Spec.vgg16_slices_and_activations Unfilled.
Proof.
  intros H.
  destruct (H Sample.layers31 true ∅) as (self & σ' & _ & _ & Hfw).
  { vm_compute. lia. }
  specialize (Hfw Sample.unit_features).
  rewrite Vgg16_forward_shipped in Hfw. discriminate Hfw.
Qed.

(** C3, amended. [__init__] slices the features at depths 4, 9, 16 and
    23: the four slices hold layers 0-3, 4-8, 9-15 and 16-22 under their
    indices as names, every index once and in the original order, and
    with [requires_grad=True] the heap is left as it was. [forward]
    returns the dictionary of the local names [x_relu1_2] ... [x_relu4_3]:
    with the placeholder left in they are unbound and the call raises
    [NameError]; with the slices run one after the other they are the
    activations after layers 3, 8, 15 and 22. *)
Theorem vgg16_slices_at_fixed_depths (features : list StyleTransfer.Layer)
    (rg : bool) (σ : gmap nat slot) :
  23 ≤ length features →
  ∃ self σ',
    StyleTransfer.Vgg16_init features rg σ = Ok (self, σ')
    ∧ Spec.sliced features self
    ∧ (StyleTransfer.layers self).*1 = pretty <$> seq 0 23
    ∧ (StyleTransfer.layers self).*2 = take 23 features
    ∧ NoDup (StyleTransfer.layers self).*1
    ∧ (rg = true → σ' = σ)
    ∧ (∀ x, StyleTransfer.Vgg16_forward Unfilled self σ' x
              = Raise (NameError "x_relu1_2"))
    ∧ (∀ x, StyleTransfer.Vgg16_forward
              (Filled StyleTransfer.forward_slice_by_slice) self σ' x
              = Ok (Spec.activations features σ' x)).
Proof.
  intros Hlen.
  do 23 (destruct features as [|? features]; [simpl in Hlen; lia|]).
  clear Hlen.
  eexists _, _. split; [reflexivity|].
  split; [repeat split; vm_compute; reflexivity|].
  split; [vm_compute; reflexivity|].
  split; [vm_compute; reflexivity|].
  split; [apply (bool_decide_unpack _); vm_compute; reflexivity|].
  split; [intros ->; reflexivity|].
  split; intros x.
  - reflexivity.
  - unfold StyleTransfer.Vgg16_forward, Spec.activations.
    vm_compute. reflexivity.
Qed.

Lemma vgg16_slices_at_fixed_depths_witness :
  ∃ self σ',
    StyleTransfer.Vgg16_init Sample.layers31 true ∅ = Ok (self, σ')
    ∧ Spec.sliced Sample.layers31 self
    ∧ (StyleTransfer.layers self).*1 = pretty <$> seq 0 23
    ∧ (StyleTransfer.layers self).*2 = take 23 Sample.layers31
    ∧ NoDup (StyleTransfer.layers self).*1
    ∧ (true = true → σ' = ∅)
    ∧ (∀ x, StyleTransfer.Vgg16_forward Unfilled self σ' x
              = Raise (NameError "x_relu1_2"))
    ∧ (∀ x, StyleTransfer.Vgg16_forward
              (Filled StyleTransfer.forward_slice_by_slice) self σ' x
              = Ok (Spec.activations Sample.layers31 σ' x)).
Proof.
  apply (vgg16_slices_at_fixed_depths Sample.layers31 true ∅).
  vm_compute. lia.
Defined.

(** *** The placeholders *)

Lemma transfer_shipped vgg_forward normalize vgg16 normalizer
    input_image (st : StyleTransfer.notebook) :
  StyleTransfer.transfer vgg_forward normalize vgg16 normalizer
    input_image StyleTransfer.shipped_transfer st = (st, Raise SyntaxError).
Proof. reflexivity. Qed.

Lemma UnetUpBlock_forward_shipped (self : Photo2Map.Module)
    (σ : gmap nat slot) (x x_bridge : tensor) :
  Photo2Map.UnetUpBlock_forward Unfilled self σ x x_bridge = Ok x.
Proof. reflexivity. Qed.

Lemma Unet_forward_shipped (self : Photo2Map.Module) (σ : gmap nat slot)
    (x : tensor) :
  Photo2Map.Unet_forward Unfilled self σ x = Ok x.
Proof. reflexivity. Qed.

(** C7, as worded, fails on the shipped notebook: two of the skeletons
    run and return their argument. *)
Lemma shipped_unet_forward_is_defined :
  ¬ Spec.shipped_operations_undefined.
Proof.
  intros (_ & _ & Hup & _).
  destruct (Hup Sample.no_module ∅ Sample.unit_features Sample.unit_features)
    as [e He].
  rewrite UnetUpBlock_forward_shipped in He. discriminate He.
Qed.

(** C7, amended. Every student task holds a placeholder line. As
    shipped, the operations whose placeholder stands for an expression
    ([PhotoMapDataset.__getitem__], [Normalization.forward],
    [ContentLoss.forward], [StyleLoss.gram_matrix], the transfer loop) are
    rejected with [SyntaxError]; [UnetDownBlock.forward] and
    [Vgg16.forward] raise [NameError] on the names they were to bind; the
    three [__init__] build a module without parameters; and
    [UnetUpBlock.forward] and [Unet.forward] return their input [x]. *)
Theorem shipped_skeletons :
  Forall (λ l, Source.has_marker l.2 = true) Source.placeholder_lines
  ∧ (∀ self index,
       Photo2Map.PhotoMapDataset_getitem Unfilled self index = Raise SyntaxError)
  ∧ (∀ self σ x,
       StyleTransfer.Normalization_forward Unfilled self σ x = Raise SyntaxError)
  ∧ (∀ pred target,
       StyleTransfer.ContentLoss_forward Unfilled pred target = Raise SyntaxError)
  ∧ (∀ features, StyleTransfer.gram_matrix Unfilled features = Raise SyntaxError)
  ∧ (∀ vgg_forward normalize vgg16 normalizer input_image st,
       StyleTransfer.transfer vgg_forward normalize vgg16 normalizer
         input_image StyleTransfer.shipped_transfer st = (st, Raise SyntaxError))
  ∧ (∀ self σ x,
       Photo2Map.UnetDownBlock_forward Unfilled self σ x
         = Raise (NameError "x_before_pooling"))
  ∧ (∀ self σ x,
       StyleTransfer.Vgg16_forward Unfilled self σ x
         = Raise (NameError "x_relu1_2"))
  ∧ (∀ a b pooling σ,
       Photo2Map.UnetDownBlock_init Unfilled a b pooling σ
         = (Photo2Map.nn_Module_init, σ))
  ∧ (∀ a b σ,
       Photo2Map.UnetUpBlock_init Unfilled a b σ = (Photo2Map.nn_Module_init, σ))
  ∧ (∀ a b depth base σ,
       Photo2Map.Unet_init Unfilled a b depth base σ
         = (Photo2Map.nn_Module_init, σ))
  ∧ (∀ self σ x x_bridge,
       Photo2Map.UnetUpBlock_forward Unfilled self σ x x_bridge = Ok x)
  ∧ (∀ self σ x, Photo2Map.Unet_forward Unfilled self σ x = Ok x).
Proof.
  split; [apply (bool_decide_unpack _); vm_compute; reflexivity|].
  repeat split.
Qed.

(** *** Error conditions *)

(** Case analysis on a failing computation: which statement raised. *)
Ltac raised H :=
  repeat first
    [ discriminate H
    | apply bind_Raise in H as [H|(? & _ & H)]
    | match type of H with
      | expr_hole ?h _ = Raise _ => destruct h; cbn [expr_hole] in H
      | context [match ?x with _ => _ end] => destruct x
      end ].

Section NoAssertion.
Import Photo2Map StyleTransfer.
Variable msg : string.

Lemma lookup_name_no_assertion (locals : gmap string tensor) (x : string) :
  lookup_name locals x ≠ Raise (AssertionError msg).
Proof. unfold lookup_name. intros H. raised H. Qed.

Lemma getitem_no_assertion {A} (l : list A) (i : Z) :
  getitem l i ≠ Raise (AssertionError msg).
Proof. unfold getitem. intros H. cbv zeta in H. raised H. Qed.

Lemma add_layers_no_assertion features xs slice :
  add_layers features xs slice ≠ Raise (AssertionError msg).
Proof.
  revert slice. induction xs as [|x xs IH]; intros slice H; [discriminate H|].
  cbn [add_layers] in H. apply bind_Raise in H as [H|(m & _ & H)].
  - exact (getitem_no_assertion _ _ H).
  - exact (IH _ H).
Qed.

Lemma image_loader_no_assertion cuda resample files name :
  image_loader cuda resample files name ≠ Raise (AssertionError msg).
Proof. unfold image_loader, Image_open. intros H. raised H. Qed.

Lemma Vgg16_init_no_assertion features rg σ :
  Vgg16_init features rg σ ≠ Raise (AssertionError msg).
Proof.
  unfold Vgg16_init. intros H.
  repeat (apply bind_Raise in H as [H|(? & _ & H)];
          [exact (add_layers_no_assertion _ _ _ H)|]).
  discriminate H.
Qed.

Lemma Vgg16_forward_no_assertion body self σ x :
  Vgg16_forward body self σ x ≠ Raise (AssertionError msg).
Proof.
  unfold Vgg16_forward. intros H. cbv zeta in H.
  repeat (apply bind_Raise in H as [H|(? & _ & H)];
          [exact (lookup_name_no_assertion _ _ H)|]).
  discriminate H.
Qed.

Lemma Unet_forwards_no_assertion body self σ x x_bridge :
  UnetDownBlock_forward body self σ x ≠ Raise (AssertionError msg)
  ∧ UnetUpBlock_forward body self σ x x_bridge ≠ Raise (AssertionError msg)
  ∧ Unet_forward body self σ x ≠ Raise (AssertionError msg).
Proof.
  unfold UnetDownBlock_forward, UnetUpBlock_forward, Unet_forward.
  split; [|split; apply lookup_name_no_assertion].
  intros H. cbv zeta in H.
  repeat (apply bind_Raise in H as [H|(? & _ & H)];
          [exact (lookup_name_no_assertion _ _ H)|]).
  discriminate H.
Qed.

Lemma Normalization_forward_no_assertion h self σ x :
  Normalization_forward h self σ x ≠ Raise (AssertionError msg).
Proof. unfold Normalization_forward, deref. intros H. raised H. Qed.

Lemma ContentLoss_forward_no_assertion h pred target :
  ContentLoss_forward h pred target ≠ Raise (AssertionError msg).
Proof. unfold ContentLoss_forward. intros H. raised H. Qed.

Lemma gram_matrix_no_assertion h features :
  gram_matrix h features ≠ Raise (AssertionError msg).
Proof.
  unfold gram_matrix. intros H. destruct h as [|g]; [discriminate H|].
  cbn [expr_hole] in H.
  destruct (shape features) as [|b [|c [|hh [|w [|]]]]]; try discriminate H.
  unfold view in H. raised H.
Qed.

Lemma StyleLoss_forward_no_assertion h pred target :
  StyleLoss_forward h pred target ≠ Raise (AssertionError msg).
Proof.
  unfold StyleLoss_forward. intros H.
  apply bind_Raise in H as [H|(? & _ & H)];
    [exact (gram_matrix_no_assertion _ _ H)|].
  apply bind_Raise in H as [H|(? & _ & H)];
    [exact (gram_matrix_no_assertion _ _ H)|].
  unfold mse_loss in H. raised H.
Qed.

Lemma PhotoMapDataset_getitem_no_assertion h self index :
  (∀ path, loader self path ≠ Raise (AssertionError msg)) →
  (∀ tr img, ds_transform self = Some tr → tr img ≠ Raise (AssertionError msg)) →
  PhotoMapDataset_getitem h self index ≠ Raise (AssertionError msg).
Proof.
  intros Hl Ht H. unfold PhotoMapDataset_getitem in H.
  destruct h as [|split]; [discriminate H|]. cbn [expr_hole] in H.
  apply bind_Raise in H as [H|(entry & _ & H)];
    [exact (getitem_no_assertion _ _ H)|].
  apply bind_Raise in H as [H|(img & _ & H)]; [exact (Hl _ H)|].
  apply bind_Raise in H as [H|(smp & _ & H)].
  - destruct (ds_transform self) as [tr|] eqn:Etr; [|discriminate H].
    apply bind_Raise in H as [H|(t & _ & H)]; [exact (Ht _ _ eq_refl H)|].
    discriminate H.
  - destruct (split smp). discriminate H.
Qed.
End NoAssertion.

(** A loop stops at the first iteration that raises. *)
Lemma for_stops {S A} (body : A → cell S unit) (l1 l2 : list A) (a : A)
    (s s1 s' : S) (e : exn) :
  for_ l1 body s = (s1, Ok tt) →
  body a s1 = (s', Raise e) →
  for_ (l1 ++ a :: l2) body s = (s', Raise e).
Proof.
  revert s. induction l1 as [|b l1 IH]; intros s Hl1 Ha.
  - injection Hl1 as ->. cbn [app for_]. unfold cbind. rewrite Ha. reflexivity.
  - cbn [app for_] in *. unfold cbind in *.
    destruct (body b s) as [s2 [[]|e2]]; [|discriminate Hl1].
    apply IH; assumption.
Qed.

Lemma getitem_passes_on (split : Photo2Map.sample → Photo2Map.sample * Photo2Map.sample)
    (self : Photo2Map.ImageFolder) (index : Z) (entry : string * nat) (e : exn) :
  getitem (Photo2Map.samples self) index = Ok entry →
  Photo2Map.loader self entry.1 = Raise e →
  Photo2Map.PhotoMapDataset_getitem (Filled split) self index = Raise e.
Proof.
  intros Hentry Hload. unfold Photo2Map.PhotoMapDataset_getitem.
  cbn [expr_hole]. rewrite Hentry. cbn [mbind result_bind bind].
  rewrite Hload. reflexivity.
Qed.

Lemma train_batch_passes_on {AdamSt : Type}
    (adam_rule : Q → option AdamSt → tensor → tensor → AdamSt * tensor)
    make_grid autograd split unet_forward train_dataset unet opt epoch idxs
    (st : @Photo2Map.notebook AdamSt) (e : exn) :
  Photo2Map.fetch split (Photo2Map.dl train_dataset) idxs = Raise e →
  Photo2Map.train_batch adam_rule make_grid autograd split unet_forward
    train_dataset unet opt epoch idxs st = (st, Raise e).
Proof.
  intros Hfetch. unfold Photo2Map.train_batch, mbind, cell_bind, cbind, lift.
  rewrite Hfetch. reflexivity.
Qed.

(** *** Cells that never assert *)

Section NoAssertionCells.
Import Photo2Map StyleTransfer.
Variable msg : string.

Lemma Normalize_no_assertion mean std t :
  Normalize mean std t ≠ Raise (AssertionError msg).
Proof. unfold Normalize. intros H. raised H. Qed.

Lemma transform_no_assertion resample img :
  Photo2Map.transform resample img ≠ Raise (AssertionError msg).
Proof. apply Normalize_no_assertion. Qed.

Lemma plt_imshow_no_assertion X :
  plt_imshow X ≠ Raise (AssertionError msg).
Proof. unfold plt_imshow. intros H. raised H. Qed.

Lemma imshow_no_assertion img t :
  Photo2Map.imshow img ≠ Raise (AssertionError msg)
  ∧ StyleTransfer.imshow t ≠ Raise (AssertionError msg).
Proof.
  unfold Photo2Map.imshow, StyleTransfer.imshow. split; intros H.
  - destruct (chw_to_hwc _); [exact (plt_imshow_no_assertion _ H)|discriminate H].
  - destruct (shape t) as [|[|[|?]] ?]; try discriminate H.
    destruct (chw_to_hwc _); [exact (plt_imshow_no_assertion _ H)|discriminate H].
Qed.

Lemma Single_no_assertion resample img t :
  Single.transform resample img ≠ Raise (AssertionError msg)
  ∧ Single.imshow t ≠ Raise (AssertionError msg).
Proof.
  unfold Single.transform, Single.transform_Normalize, Single.Normalize,
    Single.imshow, Single.plt_imshow.
  split; intros H; raised H.
Qed.

Lemma Normalization_init_no_assertion mean std σ :
  Normalization_init mean std σ ≠ Raise (AssertionError msg).
Proof. unfold Normalization_init, column. intros H. raised H. Qed.

Lemma Unet_repr_no_assertion self :
  Unet_repr self ≠ Raise (AssertionError msg).
Proof. unfold Unet_repr, getattr. intros H. raised H. Qed.

Lemma optimizer_no_assertion ps :
  optimizer ps ≠ Raise (AssertionError msg).
Proof. unfold optimizer. intros H. raised H. Qed.

Lemma mse_loss_no_assertion a b :
  mse_loss a b ≠ Raise (AssertionError msg).
Proof. unfold mse_loss. intros H. raised H. Qed.

Lemma stack_no_assertion ts :
  stack ts ≠ Raise (AssertionError msg).
Proof. unfold stack. intros H. raised H. Qed.

Lemma deref_no_assertion σ id :
  deref σ id ≠ Raise (AssertionError msg).
Proof. unfold deref. intros H. raised H. Qed.

Lemma clone_input_image_no_assertion content_image σ :
  clone_input_image content_image σ ≠ Raise (AssertionError msg).
Proof. unfold clone_input_image, deref. intros H. raised H. Qed.

Lemma mapM_no_assertion {A B} (f : A → result B) (l : list A) :
  (∀ x, f x ≠ Raise (AssertionError msg)) →
  mapM f l ≠ Raise (AssertionError msg).
Proof.
  intros Hf. induction l as [|x l IH]; intros H; cbn [mapM] in H;
    [discriminate H|].
  apply bind_Raise in H as [H|(y & _ & H)]; [exact (Hf _ H)|].
  apply bind_Raise in H as [H|(k & _ & H)]; [exact (IH H)|discriminate H].
Qed.

Lemma fetch_no_assertion h (dl : DataLoader ImageFolder) idxs :
  (∀ path, loader (dataset dl) path ≠ Raise (AssertionError msg)) →
  (∀ tr img, ds_transform (dataset dl) = Some tr →
             tr img ≠ Raise (AssertionError msg)) →
  fetch h dl idxs ≠ Raise (AssertionError msg).
Proof.
  intros Hl Ht H. unfold fetch in H.
  apply bind_Raise in H as [H|(items & _ & H)].
  { revert H. apply mapM_no_assertion. intros i.
    apply PhotoMapDataset_getitem_no_assertion; assumption. }
  apply bind_Raise in H as [H|(ps & _ & H)].
  { revert H. apply mapM_no_assertion. intros it H. destruct it.1; discriminate H. }
  apply bind_Raise in H as [H|(ms & _ & H)].
  { revert H. apply mapM_no_assertion. intros it H. destruct it.2; discriminate H. }
  apply bind_Raise in H as [H|(pb & _ & H)]; [exact (stack_no_assertion _ H)|].
  apply bind_Raise in H as [H|(mb & _ & H)]; [exact (stack_no_assertion _ H)|].
  discriminate H.
Qed.

Lemma sum_terms_no_assertion (term : string → result scalar) layers loss :
  (∀ layer, term layer ≠ Raise (AssertionError msg)) →
  sum_terms term layers loss ≠ Raise (AssertionError msg).
Proof.
  intros Ht. revert loss. induction layers as [|l layers IH]; intros loss H;
    cbn [sum_terms] in H; [discriminate H|].
  apply bind_Raise in H as [H|(t & _ & H)]; [exact (Ht _ H)|exact (IH _ H)].
Qed.

Lemma parse_no_assertion h : parse h ≠ Raise (AssertionError msg).
Proof. unfold parse. intros H. raised H. Qed.

(** The same for the statements of a cell. *)
Lemma never_asserts_ret {S A} (a : A) : never_asserts msg (mret a : cell S A).
Proof. intros s H. discriminate H. Qed.

Lemma never_asserts_lift {S A} (r : result A) :
  r ≠ Raise (AssertionError msg) → never_asserts msg (lift r : cell S A).
Proof. intros Hr s. exact Hr. Qed.

Lemma never_asserts_gets {S A} (f : S → A) : never_asserts msg (gets f).
Proof. intros s H. discriminate H. Qed.

Lemma never_asserts_modify {S} (f : S → S) : never_asserts msg (modify f).
Proof. intros s H. discriminate H. Qed.

Lemma never_asserts_bind {S A B} (m : cell S A) (k : A → cell S B) :
  never_asserts msg m → (∀ a, never_asserts msg (k a)) →
  never_asserts msg (m ≫= k).
Proof.
  intros Hm Hk s. unfold mbind, cell_bind, cbind.
  specialize (Hm s). destruct (m s) as [s' [a|e]]; cbn [snd] in *.
  - apply Hk.
  - intros H. apply Hm. injection H as ->. reflexivity.
Qed.

Lemma never_asserts_for {S A} (l : list A) (body : A → cell S unit) :
  (∀ a, never_asserts msg (body a)) → never_asserts msg (for_ l body).
Proof.
  intros Hb. induction l as [|a l IH]; cbn [for_].
  - intros s H. discriminate H.
  - apply (never_asserts_bind (body a) (λ _, for_ l body)); [apply Hb|].
    intros _. exact IH.
Qed.

End NoAssertionCells.

(** Breaks a cell into its statements. *)
Ltac never_asserts_step :=
  lazymatch goal with
  | |- never_asserts _ (_ ≫= _) => refine (never_asserts_bind _ _ _ _ _); [|intros ?]
  | |- never_asserts _ (mret _) => refine (never_asserts_ret _ _)
  | |- never_asserts _ (gets _) => refine (never_asserts_gets _ _)
  | |- never_asserts _ (modify _) => refine (never_asserts_modify _ _)
  | |- never_asserts _ (lift _) => refine (never_asserts_lift _ _ _)
  | |- never_asserts _ (for_ _ _) => refine (never_asserts_for _ _ _ _); intros ?
  | |- never_asserts _ (if ?c then _ else _) => destruct c
  | |- never_asserts _ (let _ := _ in _) => cbv zeta
  end.

Section NoAssertionLoops.
Import Photo2Map StyleTransfer.
Variable msg : string.

Lemma train_loop_no_assertion {AdamSt : Type}
    (adam_rule : Q → option AdamSt → tensor → tensor → AdamSt * tensor)
    make_grid autograd shuffle_perm split unet_forward
    (train_dataset : ImageFolder) unet opt epoch_end :
  (∀ path, loader train_dataset path ≠ Raise (AssertionError msg)) →
  (∀ tr img, ds_transform train_dataset = Some tr →
             tr img ≠ Raise (AssertionError msg)) →
  never_asserts msg
    (train_loop adam_rule make_grid autograd shuffle_perm split unet_forward
       train_dataset unet opt epoch_end).
Proof.
  intros Hl Ht. unfold train_loop, train_epoch, train_batch, train_step.
  repeat never_asserts_step.
  - apply fetch_no_assertion; assumption.
  - intros s H. discriminate H.
  - intros s H. discriminate H.
  - apply Unet_forwards_no_assertion. exact (Tensor [] []).
  - apply mse_loss_no_assertion.
Qed.

Lemma transfer_no_assertion vgg_forward normalize vgg16 normalizer
    input_image h :
  (∀ code, parse h = Ok code →
     (∀ σ, content_image_features_of code σ ≠ Raise (AssertionError msg))
     ∧ (∀ σ, style_image_features_of code σ ≠ Raise (AssertionError msg))
     ∧ (∀ σ layer x y, content_term code σ layer x y ≠ Raise (AssertionError msg))
     ∧ (∀ σ layer x y, style_term code σ layer x y ≠ Raise (AssertionError msg))) →
  never_asserts msg
    (transfer vgg_forward normalize vgg16 normalizer input_image h).
Proof.
  intros Hcode. unfold transfer.
  intros s. unfold mbind, cell_bind, cbind, lift.
  destruct (parse h) as [code|e] eqn:Hparse;
    [|intros H; cbn [snd] in H; injection H as ->;
      exact (parse_no_assertion msg h Hparse)].
  destruct (Hcode code eq_refl) as (Hc & Hs & Hct & Hst).
  revert s.
  change (never_asserts msg
            (σ ← gets heap;
             cf ← lift (content_image_features_of code σ);
             sf ← lift (style_image_features_of code σ);
             for_ (range 0 n_epochs)
               (transfer_iteration vgg_forward normalize vgg16 normalizer
                  input_image code cf sf))).
  unfold transfer_iteration. repeat never_asserts_step;
    first [ apply Hc | apply Hs | apply deref_no_assertion
          | apply imshow_no_assertion; exact (Tensor [] [])
          | apply Normalization_forward_no_assertion
          | apply Vgg16_forward_no_assertion
          | apply sum_terms_no_assertion; intros ?; first [apply Hct|apply Hst] ].
Qed.

End NoAssertionLoops.

(** C5, as worded, fails: a style image and a content image with
    different numbers of bands end in the notebook's own [assert]. *)
Lemma size_assertion_is_raised :
  ¬ Spec.no_repository_defined_error.
Proof.
  intros H.
  apply (H false Sample.nearest Sample.rgb_and_gray_files
           StyleTransfer.style_image_path StyleTransfer.content_image_path
           StyleTransfer.size_message).
  unfold StyleTransfer.load_images.
  rewrite (image_loader_found _ _ _ StyleTransfer.style_image_path
             Sample.rgb_2x1) by reflexivity.
  rewrite (image_loader_found _ _ _ StyleTransfer.content_image_path
             Sample.gray_2x2) by reflexivity.
  reflexivity.
Qed.

(** C5, amended. The one error condition the notebooks define themselves
    is the [assert] of the image-loading cell: it raises
    [AssertionError] with the notebook's message exactly when both
    images were loaded and their tensors differ in size. No other code
    of the notebooks raises an [AssertionError]: every function, the
    train loop and the transfer cell end in one only if the framework's
    image loader, or an expression the student wrote into a placeholder,
    has raised it. Nothing is caught or tried again: an exception of the
    loader is the exception of [__getitem__], a batch that cannot be
    fetched ends the iteration with that exception and the state as it
    was, and a loop stops at the first iteration that raises. *)
Theorem size_assertion_is_the_only_check (msg : string) :
  (∀ cuda resample files style_path content_path,
     StyleTransfer.load_images cuda resample files style_path content_path
       = Raise (AssertionError msg)
     ↔ msg = StyleTransfer.size_message
       ∧ ∃ ts tc,
           StyleTransfer.image_loader cuda resample files style_path = Ok ts
           ∧ StyleTransfer.image_loader cuda resample files content_path = Ok tc
           ∧ shape ts ≠ shape tc)
  ∧ (∀ cuda resample files name,
       StyleTransfer.image_loader cuda resample files name
         ≠ Raise (AssertionError msg))
  ∧ (∀ img t,
       Photo2Map.imshow img ≠ Raise (AssertionError msg)
       ∧ StyleTransfer.imshow t ≠ Raise (AssertionError msg))
  ∧ (∀ features rg σ,
       StyleTransfer.Vgg16_init features rg σ ≠ Raise (AssertionError msg))
  ∧ (∀ body self σ x,
       StyleTransfer.Vgg16_forward body self σ x ≠ Raise (AssertionError msg))
  ∧ (∀ mean std σ,
       StyleTransfer.Normalization_init mean std σ
         ≠ Raise (AssertionError msg))
  ∧ (∀ h self σ x,
       StyleTransfer.Normalization_forward h self σ x
         ≠ Raise (AssertionError msg))
  ∧ (∀ h pred target,
       StyleTransfer.ContentLoss_forward h pred target
         ≠ Raise (AssertionError msg))
  ∧ (∀ h features,
       StyleTransfer.gram_matrix h features ≠ Raise (AssertionError msg))
  ∧ (∀ h pred target,
       StyleTransfer.StyleLoss_forward h pred target
         ≠ Raise (AssertionError msg))
  ∧ (∀ content_image σ,
       StyleTransfer.clone_input_image content_image σ
         ≠ Raise (AssertionError msg))
  ∧ (∀ vgg_forward normalize vgg16 normalizer input_image h st,
       (∀ code, StyleTransfer.parse h = Ok code →
          (∀ σ, StyleTransfer.content_image_features_of code σ
                  ≠ Raise (AssertionError msg))
          ∧ (∀ σ, StyleTransfer.style_image_features_of code σ
                    ≠ Raise (AssertionError msg))
          ∧ (∀ σ layer x y, StyleTransfer.content_term code σ layer x y
                              ≠ Raise (AssertionError msg))
          ∧ (∀ σ layer x y, StyleTransfer.style_term code σ layer x y
                              ≠ Raise (AssertionError msg))) →
       (StyleTransfer.transfer vgg_forward normalize vgg16 normalizer
          input_image h st).2 ≠ Raise (AssertionError msg))
  ∧ (∀ resample img t,
       Photo2Map.transform resample img ≠ Raise (AssertionError msg)
       ∧ Single.transform resample img ≠ Raise (AssertionError msg)
       ∧ Single.imshow t ≠ Raise (AssertionError msg))
  ∧ (∀ body self σ x x_bridge,
       Photo2Map.UnetDownBlock_forward body self σ x ≠ Raise (AssertionError msg)
       ∧ Photo2Map.UnetUpBlock_forward body self σ x x_bridge
           ≠ Raise (AssertionError msg)
       ∧ Photo2Map.Unet_forward body self σ x ≠ Raise (AssertionError msg))
  ∧ (∀ self, Photo2Map.Unet_repr self ≠ Raise (AssertionError msg))
  ∧ (∀ ps a b,
       optimizer ps ≠ Raise (AssertionError msg)
       ∧ mse_loss a b ≠ Raise (AssertionError msg))
  ∧ (∀ h self index,
       (∀ path, Photo2Map.loader self path ≠ Raise (AssertionError msg)) →
       (∀ tr img, Photo2Map.ds_transform self = Some tr →
                  tr img ≠ Raise (AssertionError msg)) →
       Photo2Map.PhotoMapDataset_getitem h self index
         ≠ Raise (AssertionError msg))
  ∧ (∀ h (dl : DataLoader Photo2Map.ImageFolder) idxs,
       (∀ path, Photo2Map.loader (dataset dl) path
                  ≠ Raise (AssertionError msg)) →
       (∀ tr img, Photo2Map.ds_transform (dataset dl) = Some tr →
                  tr img ≠ Raise (AssertionError msg)) →
       Photo2Map.fetch h dl idxs ≠ Raise (AssertionError msg))
  ∧ (∀ (AdamSt : Type)
       (adam_rule : Q → option AdamSt → tensor → tensor → AdamSt * tensor)
       make_grid autograd shuffle_perm split unet_forward resample samples
       loader unet opt epoch_end st,
       (∀ path, loader path ≠ Raise (AssertionError msg)) →
       (Photo2Map.train_loop adam_rule make_grid autograd shuffle_perm split
          unet_forward (Photo2Map.train_dataset resample samples loader)
          unet opt epoch_end st).2 ≠ Raise (AssertionError msg))
  ∧ (∀ split self index entry e,
       getitem (Photo2Map.samples self) index = Ok entry →
       Photo2Map.loader self entry.1 = Raise e →
       Photo2Map.PhotoMapDataset_getitem (Filled split) self index = Raise e)
  ∧ (∀ (AdamSt : Type)
       (adam_rule : Q → option AdamSt → tensor → tensor → AdamSt * tensor)
       make_grid autograd split unet_forward train_dataset unet opt epoch
       idxs st e,
       Photo2Map.fetch split (Photo2Map.dl train_dataset) idxs = Raise e →
       Photo2Map.train_batch adam_rule make_grid autograd split unet_forward
         train_dataset unet opt epoch idxs st = (st, Raise e))
  ∧ (∀ (S A : Type) (body : A → cell S unit) l1 l2 a s s1 s' e,
       for_ l1 body s = (s1, Ok tt) →
       body a s1 = (s', Raise e) →
       for_ (l1 ++ a :: l2) body s = (s', Raise e)).
Proof.
  split.
  { intros cuda resample files sp cp. unfold StyleTransfer.load_images. split.
    - intros H.
      apply bind_Raise in H as [H|(ts & Hs & H)];
        [destruct (image_loader_no_assertion _ _ _ _ _ H)|].
      apply bind_Raise in H as [H|(tc & Hc & H)];
        [destruct (image_loader_no_assertion _ _ _ _ _ H)|].
      destruct (decide (shape ts = shape tc)) as [E|E]; [discriminate H|].
      injection H as <-. split; [reflexivity|]. eauto.
    - intros (-> & ts & tc & Hs & Hc & Hne). rewrite Hs, Hc.
      cbn [mbind result_bind bind]. rewrite decide_False by exact Hne.
      reflexivity. }
  split; [intros; apply image_loader_no_assertion|].
  split; [intros; apply imshow_no_assertion|].
  split; [intros; apply Vgg16_init_no_assertion|].
  split; [intros; apply Vgg16_forward_no_assertion|].
  split; [intros; apply Normalization_init_no_assertion|].
  split; [intros; apply Normalization_forward_no_assertion|].
  split; [intros; apply ContentLoss_forward_no_assertion|].
  split; [intros; apply gram_matrix_no_assertion|].
  split; [intros; apply StyleLoss_forward_no_assertion|].
  split; [intros; apply clone_input_image_no_assertion|].
  split.
  { intros vgg_forward normalize vgg16 normalizer input_image h st Hcode.
    apply transfer_no_assertion. exact Hcode. }
  split.
  { intros resample img t. split; [apply transform_no_assertion|].
    exact (Single_no_assertion msg resample img t). }
  split; [intros; apply Unet_forwards_no_assertion|].
  split; [intros; apply Unet_repr_no_assertion|].
  split; [intros; split; [apply optimizer_no_assertion|apply mse_loss_no_assertion]|].
  split; [intros h self index; apply PhotoMapDataset_getitem_no_assertion|].
  split; [intros h dl idxs; apply fetch_no_assertion|].
  split.
  { intros AdamSt adam_rule make_grid autograd shuffle_perm split unet_forward
      resample samples loader unet opt epoch_end st Hloader.
    apply train_loop_no_assertion; [exact Hloader|].
    intros tr img Htr. injection Htr as <-. apply transform_no_assertion. }
  split; [apply getitem_passes_on|].
  split; [intros; apply train_batch_passes_on; assumption|].
  intros S A. apply for_stops.
Qed.

(** *** What an optimizer step can change *)

Section Heap.
Implicit Types (σ : gmap nat slot) (ps : list nat) (id : nat).

Lemma update_params_lookup_ne f ps σ id :
  id ∉ ps → update_params f ps σ !! id = σ !! id.
Proof.
  unfold update_params. revert σ.
  induction ps as [|p ps IH]; intros σ Hid; [reflexivity|].
  apply not_elem_of_cons in Hid as [Hne Hid]. cbn [foldl].
  rewrite IH by exact Hid. apply lookup_alter_ne. congruence.
Qed.

Lemma update_params_value f ps σ id :
  (∀ s, value (f s) = value s) →
  value <$> update_params f ps σ !! id = value <$> σ !! id.
Proof.
  intros Hf. unfold update_params. revert σ.
  induction ps as [|p ps IH]; intros σ; [reflexivity|].
  cbn [foldl]. rewrite IH.
  destruct (decide (p = id)) as [->|Hne].
  - rewrite lookup_alter_eq. destruct (σ !! id) as [s|]; [|reflexivity].
    simpl. rewrite Hf. reflexivity.
  - rewrite lookup_alter_ne by exact Hne. reflexivity.
Qed.

Lemma zero_grad_value ps σ id :
  value <$> zero_grad ps σ !! id = value <$> σ !! id.
Proof. apply update_params_value. reflexivity. Qed.

Lemma backward_value dloss σ id :
  value <$> backward dloss σ !! id = value <$> σ !! id.
Proof.
  unfold backward. rewrite map_lookup_imap.
  destruct (σ !! id) as [s|]; [|reflexivity]. simpl.
  destruct (requires_grad s); [|reflexivity].
  destruct (dloss id); reflexivity.
Qed.

Lemma SGD_step_lookup_ne lr ps σ id :
  id ∉ ps → SGD_step lr ps σ !! id = σ !! id.
Proof. apply update_params_lookup_ne. Qed.

Lemma Adam_step_lookup_ne {A} (rule : Q → option A → tensor → tensor → A * tensor)
    lr ps (acc : gmap nat A * gmap nat slot) id :
  id ∉ ps → (Adam_step rule lr ps acc).2 !! id = acc.2 !! id.
Proof.
  unfold Adam_step. revert acc.
  induction ps as [|p ps IH]; intros acc Hid; [reflexivity|].
  apply not_elem_of_cons in Hid as [Hne Hid]. cbn [foldl].
  rewrite IH by exact Hid. unfold Adam_step1.
  destruct (acc.2 !! p) as [s|]; [|reflexivity].
  destruct (grad s); [|reflexivity].
  cbn [snd]. apply lookup_insert_ne. congruence.
Qed.

Lemma alloc_fresh t rg σ : σ !! (alloc t rg σ).1 = None.
Proof.
  unfold alloc. cbn [fst]. apply not_elem_of_dom. apply is_fresh.
Qed.

Lemma alloc_lookup_new t rg σ :
  (alloc t rg σ).2 !! (alloc t rg σ).1 = Some (Slot t None rg).
Proof. unfold alloc. cbn [fst snd]. apply lookup_insert_eq. Qed.

Lemma alloc_lookup_old t rg σ id :
  is_Some (σ !! id) → (alloc t rg σ).2 !! id = σ !! id.
Proof.
  intros [s Hs]. unfold alloc. cbn [snd]. apply lookup_insert_ne.
  intros <-. pose proof (alloc_fresh t rg σ) as Hf. unfold alloc in Hf.
  cbn [fst] in Hf. congruence.
Qed.
End Heap.

Section Preserves.
Context {S : Type} (R : relation S) `{!PreOrder R}.

Lemma preserves_ret {A} (a : A) : preserves R (mret a : cell S A).
Proof. intros s. reflexivity. Qed.

Lemma preserves_lift {A} (r : result A) : preserves R (lift r : cell S A).
Proof. intros s. reflexivity. Qed.

Lemma preserves_gets {A} (f : S → A) : preserves R (gets f).
Proof. intros s. reflexivity. Qed.

Lemma preserves_modify (f : S → S) : (∀ s, R s (f s)) → preserves R (modify f).
Proof. intros Hf s. apply Hf. Qed.

Lemma preserves_bind {A B} (m : cell S A) (k : A → cell S B) :
  preserves R m → (∀ a, preserves R (k a)) → preserves R (m ≫= k).
Proof.
  intros Hm Hk s. unfold mbind, cell_bind, cbind.
  specialize (Hm s). destruct (m s) as [s' [a|e]]; cbn [fst] in *.
  - etransitivity; [exact Hm|]. apply Hk.
  - exact Hm.
Qed.

Lemma preserves_for {A} (l : list A) (body : A → cell S unit) :
  (∀ a, preserves R (body a)) → preserves R (for_ l body).
Proof.
  intros Hb. induction l as [|a l IH]; cbn [for_].
  - intros s. reflexivity.
  - apply (preserves_bind (body a) (λ _, for_ l body)); [apply Hb|].
    intros _. exact IH.
Qed.
End Preserves.

(** Breaks a cell into its statements. *)
Ltac preserves_step :=
  lazymatch goal with
  | |- preserves _ (_ ≫= _) => refine (preserves_bind _ _ _ _ _); [|intros ?]
  | |- preserves _ (mret _) => refine (preserves_ret _ _)
  | |- preserves _ (lift _) => refine (preserves_lift _ _)
  | |- preserves _ (gets _) => refine (preserves_gets _ _)
  | |- preserves _ (for_ _ _) => refine (preserves_for _ _ _ _); intros ?
  | |- preserves _ (if ?c then _ else _) => destruct c
  | |- preserves _ (let _ := _ in _) => cbv zeta
  end.

Ltac preserves_steps := repeat preserves_step.

Section StyleFrame.
Import StyleTransfer.
Variable input_image : nat.

#[local] Instance style_frame_preorder : PreOrder (style_frame input_image).
Proof.
  split.
  - intros st id _. reflexivity.
  - intros a b c Hab Hbc id Hid. rewrite (Hbc id Hid). apply Hab, Hid.
Qed.

Lemma transfer_iteration_frame vgg_forward normalize vgg16
    normalizer code cf sf epoch :
  preserves (style_frame input_image)
    (transfer_iteration vgg_forward normalize vgg16 normalizer
       input_image code cf sf epoch).
Proof.
  unfold transfer_iteration. preserves_steps;
    apply preserves_modify; intros st id Hid; cbn [heap set_heap print show];
    try reflexivity.
  - apply zero_grad_value.
  - apply backward_value.
  - rewrite SGD_step_lookup_ne; [reflexivity|]. unfold opt.
    rewrite list_elem_of_singleton. exact Hid.
Qed.

Lemma transfer_frame vgg_forward normalize vgg16 normalizer h :
  preserves (style_frame input_image)
    (transfer vgg_forward normalize vgg16 normalizer input_image h).
Proof.
  unfold transfer. preserves_steps. apply transfer_iteration_frame.
Qed.
End StyleFrame.

Section TrainFrame.
Import Photo2Map.
Context {AdamSt : Type}.
Variable adam_rule : Q → option AdamSt → tensor → tensor → AdamSt * tensor.
Variable make_grid : tensor → tensor.
Variable autograd : gmap nat slot → nat → nat → nat → option tensor.
Variable split : hole (sample → sample * sample).
Variable unet_forward : forward_body.
Variable train_dataset : ImageFolder.
Variable unet : Module.
Variable opt : list nat.

#[local] Instance train_frame_preorder :
  PreOrder (train_frame (AdamSt := AdamSt) opt).
Proof.
  split.
  - intros st id _ _. reflexivity.
  - intros a b c Hab Hbc id Hid Hsome.
    specialize (Hab id Hid Hsome). rewrite <- Hab. apply Hbc; [exact Hid|].
    destruct Hsome as [s Hs]. rewrite Hs in Hab.
    destruct (heap b !! id); [eauto|discriminate Hab].
Qed.

Lemma new_tensor_frame (t : tensor) :
  preserves (train_frame opt) (new_tensor (AdamSt := AdamSt) t).
Proof.
  intros st id _ Hsome. unfold new_tensor. cbn [fst heap set_heap].
  rewrite alloc_lookup_old by exact Hsome. reflexivity.
Qed.

Lemma train_step_frame epoch batch photo map :
  preserves (train_frame opt)
    (train_step adam_rule make_grid autograd unet_forward train_dataset
       unet opt epoch batch photo map).
Proof.
  unfold train_step. preserves_steps;
    apply preserves_modify; intros st id Hid Hsome;
    cbn [heap set_heap record set_n_iters opt_step]; try reflexivity.
  - apply zero_grad_value.
  - apply backward_value.
  - rewrite Adam_step_lookup_ne by exact Hid. reflexivity.
Qed.

Lemma train_batch_frame epoch idxs :
  preserves (train_frame opt)
    (train_batch adam_rule make_grid autograd split unet_forward
       train_dataset unet opt epoch idxs).
Proof.
  unfold train_batch. preserves_steps;
    [apply new_tensor_frame ..|apply train_step_frame].
Qed.

(** The two tensor objects of a batch still hold the loaded elements
    when the iteration ends. *)
Lemma train_batch_keeps_batch epoch idxs batch (st : @notebook AdamSt) :
  fetch split (dl train_dataset) idxs = Ok batch →
  (∀ p, p ∈ opt → is_Some (heap st !! p)) →
  let st' := (train_batch adam_rule make_grid autograd split unet_forward
                train_dataset unet opt epoch idxs st).1 in
  let photo := (alloc batch.1 false (heap st)).1 in
  let map := (alloc batch.2 false (alloc batch.1 false (heap st)).2).1 in
  photo ≠ map
  ∧ heap st !! photo = None
  ∧ heap st !! map = None
  ∧ value <$> heap st' !! photo = Some batch.1
  ∧ value <$> heap st' !! map = Some batch.2.
Proof.
  intros Hfetch Hopt st' photo map.
  set (σ1 := (alloc batch.1 false (heap st)).2).
  set (σ2 := (alloc batch.2 false σ1).2).
  assert (Hp0 : heap st !! photo = None)
    by apply (alloc_fresh batch.1 false (heap st)).
  assert (Hp1 : σ1 !! photo = Some (Slot batch.1 None false))
    by apply (alloc_lookup_new batch.1 false (heap st)).
  assert (Hm1 : σ1 !! map = None)
    by apply (alloc_fresh batch.2 false σ1).
  assert (Hne : photo ≠ map) by congruence.
  assert (Hm0 : heap st !! map = None).
  { destruct (heap st !! map) as [s|] eqn:E; [|reflexivity].
    assert (Hold : σ1 !! map = heap st !! map)
      by (apply (alloc_lookup_old batch.1 false (heap st)); rewrite E; eauto).
    congruence. }
  assert (Hm2 : σ2 !! map = Some (Slot batch.2 None false))
    by apply (alloc_lookup_new batch.2 false σ1).
  assert (Hp2 : σ2 !! photo = Some (Slot batch.1 None false)).
  { unfold σ2. rewrite (alloc_lookup_old batch.2 false σ1)
      by (rewrite Hp1; eauto). exact Hp1. }
  assert (Hnot : ∀ id, heap st !! id = None → id ∉ opt).
  { intros id Hnone Hin. destruct (Hopt id Hin) as [s Hs]. congruence. }
  set (st2 := set_heap (λ _, σ2) (set_heap (λ _, σ1) st)).
  assert (Hrun : st' = (train_step adam_rule make_grid autograd unet_forward
                          train_dataset unet opt epoch batch photo map st2).1).
  { unfold st', train_batch, mbind, cell_bind, cbind, lift.
    rewrite Hfetch. reflexivity. }
  pose proof (train_step_frame epoch batch photo map st2) as Hframe.
  rewrite <- Hrun in Hframe.
  split; [exact Hne|]. split; [exact Hp0|]. split; [exact Hm0|]. split.
  - rewrite (Hframe photo (Hnot _ Hp0)) by (cbn [heap st2 set_heap]; eauto).
    cbn [heap st2 set_heap]. rewrite Hp2. reflexivity.
  - rewrite (Hframe map (Hnot _ Hm0)) by (cbn [heap st2 set_heap]; eauto).
    cbn [heap st2 set_heap]. rewrite Hm2. reflexivity.
Qed.
End TrainFrame.

Lemma clone_input_image_fresh (content_image input_image : nat)
    (σ σ' : gmap nat slot) :
  StyleTransfer.clone_input_image content_image σ = Ok (input_image, σ') →
  σ !! input_image = None
  ∧ ∀ id, is_Some (σ !! id) → id ≠ input_image ∧ σ' !! id = σ !! id.
Proof.
  unfold StyleTransfer.clone_input_image. intros H.
  apply bind_Ok in H as (t & _ & H).
  assert (Hid : input_image = (alloc t true σ).1) by (injection H; auto).
  assert (Hσ : σ' = (alloc t true σ).2) by (injection H; auto).
  subst input_image σ'. split; [apply (alloc_fresh t true σ)|].
  intros id Hsome. split; [|apply (alloc_lookup_old t true σ), Hsome].
  intros ->. rewrite (alloc_fresh t true σ) in Hsome.
  destruct Hsome as [? ?]. discriminate.
Qed.

(** C4. In the style-transfer loop, [opt.step()] of the SGD optimizer
    built over [[input_image]] leaves every other tensor object as it
    is, and a whole iteration, as well as the whole cell, leaves the
    elements of every tensor but [input_image] unchanged; [input_image]
    is a fresh clone, so every tensor that existed before (the
    parameters of the feature extractor, the normalizer's mean and std,
    the content and style images) is among them. In the photo2map train
    loop, [opt.step()] of the Adam optimizer leaves every tensor outside
    its parameter list as it is, an iteration leaves the elements of
    every existing tensor outside that list unchanged, and the two batch
    tensors of the iteration still hold the loaded elements at its end. *)
Theorem optimizer_changes_only_its_parameters :
  (∀ lr input_image σ id,
     id ≠ input_image → SGD_step lr [input_image] σ !! id = σ !! id)
  ∧ (∀ vgg_forward normalize vgg16 normalizer input_image code
       content_features style_features epoch st id,
       id ≠ input_image →
       value <$> StyleTransfer.heap
                   (StyleTransfer.transfer_iteration vgg_forward
                      normalize vgg16 normalizer input_image code
                      content_features style_features epoch st).1 !! id
         = value <$> StyleTransfer.heap st !! id)
  ∧ (∀ vgg_forward normalize vgg16 normalizer input_image h st id,
       id ≠ input_image →
       value <$> StyleTransfer.heap
                   (StyleTransfer.transfer vgg_forward normalize
                      vgg16 normalizer input_image h st).1 !! id
         = value <$> StyleTransfer.heap st !! id)
  ∧ (∀ content_image input_image σ σ',
       StyleTransfer.clone_input_image content_image σ = Ok (input_image, σ') →
       σ !! input_image = None
       ∧ ∀ id, is_Some (σ !! id) → id ≠ input_image ∧ σ' !! id = σ !! id)
  ∧ (∀ (AdamSt : Type)
       (adam_rule : Q → option AdamSt → tensor → tensor → AdamSt * tensor)
       lr opt acc id,
       id ∉ opt → (Adam_step adam_rule lr opt acc).2 !! id = acc.2 !! id)
  ∧ (∀ (AdamSt : Type)
       (adam_rule : Q → option AdamSt → tensor → tensor → AdamSt * tensor)
       make_grid autograd split unet_forward train_dataset unet opt
       epoch idxs st id,
       id ∉ opt → is_Some (Photo2Map.heap st !! id) →
       value <$> Photo2Map.heap
                   (Photo2Map.train_batch adam_rule make_grid autograd split
                      unet_forward train_dataset unet opt epoch idxs st).1 !! id
         = value <$> Photo2Map.heap st !! id)
  ∧ (∀ (AdamSt : Type)
       (adam_rule : Q → option AdamSt → tensor → tensor → AdamSt * tensor)
       make_grid autograd split unet_forward train_dataset unet opt
       epoch idxs batch st,
       Photo2Map.fetch split (Photo2Map.dl train_dataset) idxs = Ok batch →
       (∀ p, p ∈ opt → is_Some (Photo2Map.heap st !! p)) →
       let st' := (Photo2Map.train_batch adam_rule make_grid autograd split
                     unet_forward train_dataset unet opt epoch idxs st).1 in
       let photo := (alloc batch.1 false (Photo2Map.heap st)).1 in
       let map := (alloc batch.2 false
                     (alloc batch.1 false (Photo2Map.heap st)).2).1 in
       photo ≠ map
       ∧ Photo2Map.heap st !! photo = None
       ∧ Photo2Map.heap st !! map = None
       ∧ value <$> Photo2Map.heap st' !! photo = Some batch.1
       ∧ value <$> Photo2Map.heap st' !! map = Some batch.2).
Proof.
  split.
  { intros lr input_image σ id Hid. apply SGD_step_lookup_ne.
    rewrite list_elem_of_singleton. exact Hid. }
  split.
  { intros. apply (transfer_iteration_frame input_image); assumption. }
  split.
  { intros. apply (transfer_frame input_image); assumption. }
  split; [apply clone_input_image_fresh|].
  split; [intros; apply Adam_step_lookup_ne; assumption|].
  split.
  { intros. apply (train_batch_frame adam_rule); assumption. }
  intros. apply train_batch_keeps_batch; assumption.
Qed.

(** *** The steps of the logged loss *)

Section Hoare.
Context {S : Type}.
Implicit Types (P E : S → Prop).

Lemma hoare_bind {A B} P (m : cell S A) (k : A → cell S B)
    (Q' : A → S → Prop) (Q : B → S → Prop) E :
  hoare P m Q' E → (∀ a, hoare (Q' a) (k a) Q E) → hoare P (m ≫= k) Q E.
Proof.
  intros Hm Hk s Hs. unfold mbind, cell_bind, cbind.
  specialize (Hm s Hs). destruct (m s) as [s' [a|e]]; [|exact Hm].
  exact (Hk a s' Hm).
Qed.

Lemma hoare_modify P (f : S → S) (Q : unit → S → Prop) E :
  (∀ s, P s → Q tt (f s)) → hoare P (modify f) Q E.
Proof. intros Hf s Hs. apply Hf, Hs. Qed.

Lemma hoare_gets_bind {A B} P (f : S → A) (k : A → cell S B)
    (Q : B → S → Prop) E :
  (∀ a, hoare (λ s, P s ∧ f s = a) (k a) Q E) → hoare P (gets f ≫= k) Q E.
Proof.
  intros Hk s Hs. unfold mbind, cell_bind, cbind, gets.
  exact (Hk (f s) s (conj Hs eq_refl)).
Qed.

Lemma hoare_for {A} (I : nat → S → Prop) (l : list A)
    (body : A → cell S unit) E :
  (∀ i a, l !! i = Some a → hoare (I i) (body a) (λ _, I (Datatypes.S i)) E) →
  hoare (I 0) (for_ l body) (λ _, I (length l)) E.
Proof.
  revert I. induction l as [|a l IH]; intros I Hbody; cbn [for_ length].
  - intros s Hs. exact Hs.
  - apply (hoare_bind _ (body a) (λ _, for_ l body) (λ _, I 1)).
    + exact (Hbody 0 a eq_refl).
    + intros _. apply (IH (λ i, I (Datatypes.S i))).
      intros i b Hb. exact (Hbody (Datatypes.S i) b Hb).
Qed.

Section View.
Context {X : Type} (V : S → X).

#[export] Instance same_view_preorder : PreOrder (same_view V).
Proof.
  split.
  - intros s. reflexivity.
  - intros a b c Hab Hbc. unfold same_view in *. congruence.
Qed.

Lemma hoare_bind_silent {A B} (p : X → Prop) (m : cell S A)
    (k : A → cell S B) (Q : B → S → Prop) E :
  preserves (same_view V) m →
  (∀ s, p (V s) → E s) →
  (∀ a, hoare (λ s, p (V s)) (k a) Q E) →
  hoare (λ s, p (V s)) (m ≫= k) Q E.
Proof.
  intros Hm HE Hk s Hs. unfold mbind, cell_bind, cbind.
  specialize (Hm s). unfold same_view in Hm.
  destruct (m s) as [s' [a|e]]; cbn [fst] in Hm.
  - apply Hk. rewrite Hm. exact Hs.
  - apply HE. rewrite Hm. exact Hs.
Qed.
End View.
End Hoare.

Lemma chunks_aux_length {A} (n fuel : nat) (l : list A) :
  0 < n → length l ≤ fuel →
  length (chunks_aux fuel n l) = (length l + n - 1) / n.
Proof.
  intros Hn. revert l. induction fuel as [|fuel IH]; intros l Hl.
  - destruct l; [|simpl in Hl; lia]. simpl.
    symmetry. apply Nat.div_small. lia.
  - destruct l as [|a l].
    { simpl. symmetry. apply Nat.div_small. lia. }
    change (chunks_aux (S fuel) n (a :: l))
      with (take n (a :: l) :: chunks_aux fuel n (drop n (a :: l))).
    cbn [length]. rewrite IH by (rewrite length_drop; simpl in *; lia).
    rewrite length_drop. set (len := length (a :: l)).
    assert (Hlen : 1 ≤ len) by (unfold len; simpl; lia).
    change (S (length l)) with len.
    destruct (decide (n ≤ len)) as [Hle|Hgt].
    + replace (len + n - 1) with ((len - n + n - 1) + 1 * n) by lia.
      rewrite Nat.div_add by lia. lia.
    + replace (len - n + n - 1) with (n - 1) by lia.
      rewrite (Nat.div_small (n - 1)) by lia.
      replace (len + n - 1) with ((len - 1) + 1 * n) by lia.
      rewrite Nat.div_add by lia. rewrite Nat.div_small by lia. reflexivity.
Qed.

Lemma chunks_length {A} (n : nat) (l : list A) :
  0 < n → length (chunks n l) = (length l + n - 1) / n.
Proof. intros Hn. apply chunks_aux_length; [exact Hn|reflexivity]. Qed.

Lemma seq_strictly_increasing (a k : nat) : StronglySorted lt (seq a k).
Proof.
  revert a. induction k as [|k IH]; intros a; cbn [seq]; constructor.
  - apply IH.
  - apply Forall_forall. intros x Hx. apply elem_of_seq in Hx. lia.
Qed.

Lemma seq_by_epochs (epochs len : nat) :
  seq 0 (epochs * len) = (e ← seq 0 epochs; n ← seq 0 len; [e * len + n]).
Proof.
  induction epochs as [|e IH]; [reflexivity|].
  rewrite seq_S, bind_app. cbn [mbind list_bind app].
  rewrite app_nil_r, <- IH.
  replace (S e * len) with (e * len + len) by lia.
  rewrite seq_app. f_equal. cbn [Nat.add].
  replace (seq (e * len) len) with (seq (e * len + 0) len)
    by (rewrite Nat.add_0_r; reflexivity).
  rewrite <- (fmap_add_seq (e * len) 0 len).
  clear IH. generalize (seq 0 len) as l. intros l.
  induction l as [|x l IHl]; [reflexivity|].
  cbn [fmap list_fmap mbind list_bind app]. f_equal; exact IHl.
Qed.

Section TrainLog.
Import Photo2Map.
Context {AdamSt : Type}.
Variable adam_rule : Q → option AdamSt → tensor → tensor → AdamSt * tensor.
Variable make_grid : tensor → tensor.
Variable autograd : gmap nat slot → nat → nat → nat → option tensor.
Variable shuffle_perm : nat → list nat.
Variable split : hole (sample → sample * sample).
Variable unet_forward : forward_body.
Variable train_dataset : ImageFolder.
Variable unet : Module.
Variable opt : list nat.
Variable epoch_end : hole (nat → @notebook AdamSt → @notebook AdamSt).

(** The sampler's permutation covers the dataset. *)
Hypothesis perm_length :
  ∀ e, length (shuffle_perm e) = length (samples train_dataset).
(** What the student adds after the batch loop leaves the logged loss
    alone. *)
Hypothesis epoch_end_keeps_log :
  ∀ f e st, epoch_end = Filled f → steps (f e st) = steps st.

Abbreviation len := (DataLoader_len (dl train_dataset)).
Abbreviation total := (n_epochs * len).

Lemma batches_per_epoch e :
  length (batch_indices (dl train_dataset) (shuffle_perm e)) = len.
Proof.
  unfold batch_indices, DataLoader_len, dl, train_dataloader.
  cbn [dl_shuffle dl_batch_size dataset].
  rewrite chunks_length by (unfold batch_size; lia).
  rewrite perm_length. reflexivity.
Qed.

Lemma steps_record_loss (st : @notebook AdamSt) loss k :
  steps (record (add_scalar "train/loss" loss k) st) = steps st ++ [k].
Proof.
  unfold steps, train_loss_steps. cbn [writer record].
  rewrite bind_app. reflexivity.
Qed.

Lemma steps_record_image (st : @notebook AdamSt) tag img k :
  steps (record (add_image tag img k) st) = steps st.
Proof.
  unfold steps, train_loss_steps. cbn [writer record].
  rewrite bind_app. cbn [mbind list_bind app]. apply app_nil_r.
Qed.

(** The statements of an iteration up to the logging neither log nor
    count. *)
Ltac silent :=
  lazymatch goal with
  | |- preserves _ (gets _) => refine (preserves_gets _ _)
  | |- preserves _ (lift _) => refine (preserves_lift _ _)
  | |- preserves _ (modify _) =>
      refine (preserves_modify _ _ _); intros ?; reflexivity
  end.

Lemma train_step_log e i batch photo map :
  e * len + i ≤ total →
  hoare (λ st, log_view st = (seq 0 (e * len + i), i))
    (train_step adam_rule make_grid autograd unet_forward train_dataset
       unet opt e batch photo map)
    (λ _ st, log_view st = (seq 0 (e * len + S i), S i))
    (logged_prefix total).
Proof.
  intros Hle. unfold train_step.
  assert (HE : ∀ st : @notebook AdamSt,
            log_view st = (seq 0 (e * len + i), i) → logged_prefix total st).
  { intros st Hst. exists (e * len + i). split; [exact Hle|].
    unfold log_view in Hst. congruence. }
  do 6 (refine (hoare_bind_silent log_view (λ v, v = (seq 0 (e * len + i), i))
                  _ _ _ _ _ HE _); [silent|intros ?; cbv beta]).
  apply hoare_gets_bind. intros n st [Hst Hn].
  unfold log_view in Hst. injection Hst as Hsteps Hiters.
  assert (Hni : n = i) by congruence. clear Hn. subst n.
  unfold mbind, cell_bind, cbind, modify.
  assert (Hlog : ∀ st' : @notebook AdamSt,
            steps st' = steps st ++ [e * len + i] →
            log_view (set_n_iters (i + 1) st') = (seq 0 (e * len + S i), S i)).
  { intros st' Hst'. unfold log_view.
    replace (steps (set_n_iters (i + 1) st')) with (steps st') by reflexivity.
    rewrite Hst', Hsteps. cbn [n_iters set_n_iters].
    replace (e * len + S i) with (S (e * len + i)) by lia.
    rewrite seq_S. f_equal. lia. }
  destruct (i mod 50 =? 0); cbn [mret cell_ret cret]; apply Hlog.
  - rewrite !steps_record_image. apply steps_record_loss.
  - apply steps_record_loss.
Qed.

Lemma train_batch_log e i idxs :
  e * len + i ≤ total →
  hoare (λ st, log_view st = (seq 0 (e * len + i), i))
    (train_batch adam_rule make_grid autograd split unet_forward
       train_dataset unet opt e idxs)
    (λ _ st, log_view st = (seq 0 (e * len + S i), S i))
    (logged_prefix total).
Proof.
  intros Hle. unfold train_batch.
  assert (HE : ∀ st : @notebook AdamSt,
            log_view st = (seq 0 (e * len + i), i) → logged_prefix total st).
  { intros st Hst. exists (e * len + i). split; [exact Hle|].
    unfold log_view in Hst. congruence. }
  refine (hoare_bind_silent log_view (λ v, v = (seq 0 (e * len + i), i))
            _ _ _ _ _ HE _); [silent|intros batch; cbv beta].
  do 2 (refine (hoare_bind_silent log_view (λ v, v = (seq 0 (e * len + i), i))
                  _ _ _ _ _ HE _); [intros st; reflexivity|intros ?; cbv beta]).
  apply train_step_log, Hle.
Qed.

Lemma train_epoch_log e :
  e < n_epochs →
  hoare (λ st, steps st = seq 0 (e * len))
    (train_epoch adam_rule make_grid autograd shuffle_perm split unet_forward
       train_dataset unet opt epoch_end e)
    (λ _ st, steps st = seq 0 (S e * len))
    (logged_prefix total).
Proof.
  intros He. unfold train_epoch.
  apply (hoare_bind _ _ _ (λ _ st, steps st = seq 0 (e * len)));
    [apply hoare_modify; intros st Hst; exact Hst|intros _].
  apply (hoare_bind _ _ _ (λ _ st, log_view st = (seq 0 (e * len + 0), 0)));
    [apply hoare_modify; intros st Hst; unfold log_view;
     replace (steps (set_n_iters 0 st)) with (steps st) by reflexivity;
     rewrite Hst, Nat.add_0_r; reflexivity|intros _].
  pose (n := length (batch_indices (dl train_dataset) (shuffle_perm e))).
  assert (Hn : n = len) by apply batches_per_epoch.
  apply (hoare_bind _ _ _ (λ _ st, log_view st = (seq 0 (e * len + n), n))).
  { apply (hoare_for (λ i st, log_view st = (seq 0 (e * len + i), i))).
    intros i idxs Hi. apply train_batch_log.
    apply lookup_lt_Some in Hi. fold n in Hi. nia. }
  intros _.
  apply (hoare_bind _ _ _ (λ _ st, steps st = seq 0 (S e * len))).
  - apply hoare_modify. intros st Hst. unfold log_view in Hst.
    injection Hst as Hsteps _. rewrite Hn in Hsteps.
    replace (S e * len) with (e * len + len) by lia.
    destruct epoch_end as [|f] eqn:Ehook; cbn [stmt_hole]; [exact Hsteps|].
    rewrite (epoch_end_keeps_log f e st eq_refl). exact Hsteps.
  - intros _. apply hoare_modify. intros st Hst. exact Hst.
Qed.

Lemma train_loop_log :
  hoare (λ st, steps st = [])
    (train_loop adam_rule make_grid autograd shuffle_perm split unet_forward
       train_dataset unet opt epoch_end)
    (λ _ st, steps st = seq 0 total)
    (logged_prefix total).
Proof.
  unfold train_loop.
  refine (hoare_for (λ e (st : @notebook AdamSt), steps st = seq 0 (e * len))
            (range 0 n_epochs) _ (logged_prefix total) _).
  intros i e Hi.
  unfold range in Hi. apply lookup_seq in Hi as [-> Hlt].
  cbn [Nat.add]. apply train_epoch_log. simpl in Hlt. exact Hlt.
Qed.
End TrainLog.

(** C10. Over the whole run of the train loop, whether it completes or
    is stopped by an exception, the [global_step] values under which the
    loss was logged are strictly increasing, hence pairwise distinct:
    they are the first values of the sequence [epoch * len + n_iters],
    with [epoch] over the epochs and [n_iters] counting from 0 to below
    [len = len(train_dataloader)] in each of them, and all of that
    sequence when the run completes. *)
Theorem global_steps_strictly_increasing {AdamSt : Type}
    (adam_rule : Q → option AdamSt → tensor → tensor → AdamSt * tensor)
    (make_grid : tensor → tensor)
    (autograd : gmap nat slot → nat → nat → nat → option tensor)
    (shuffle_perm : nat → list nat)
    (split : hole (Photo2Map.sample → Photo2Map.sample * Photo2Map.sample))
    (unet_forward : Photo2Map.forward_body)
    (train_dataset : Photo2Map.ImageFolder)
    (unet : Photo2Map.Module) (opt : list nat)
    (epoch_end : hole (nat → @Photo2Map.notebook AdamSt
                           → @Photo2Map.notebook AdamSt))
    (st : @Photo2Map.notebook AdamSt) :
  (∀ e, length (shuffle_perm e) = length (Photo2Map.samples train_dataset)) →
  (∀ f e st, epoch_end = Filled f → steps (f e st) = steps st) →
  steps st = [] →
  let len := Photo2Map.DataLoader_len (Photo2Map.train_dataloader train_dataset) in
  let run := Photo2Map.train_loop adam_rule make_grid autograd shuffle_perm
               split unet_forward train_dataset unet opt epoch_end st in
  let logged := steps run.1 in
  let all_steps :=
    e ← seq 0 Photo2Map.n_epochs; n_iters ← seq 0 len; [e * len + n_iters] in
  StronglySorted lt logged
  ∧ NoDup logged
  ∧ logged `prefix_of` all_steps
  ∧ (run.2 = Ok tt → logged = all_steps).
Proof.
  intros Hperm Hhook Hst len run logged all_steps.
  pose proof (train_loop_log adam_rule make_grid autograd shuffle_perm split
                unet_forward train_dataset unet opt epoch_end Hperm Hhook
                st Hst) as Hrun.
  fold run in Hrun.
  assert (Hall : all_steps = seq 0 (Photo2Map.n_epochs * len))
    by (symmetry; apply seq_by_epochs).
  assert (Hk : ∃ k, k ≤ Photo2Map.n_epochs * len ∧ logged = seq 0 k
                    ∧ (run.2 = Ok tt → k = Photo2Map.n_epochs * len)).
  { unfold logged. destruct run as [st' [[]|e]]; cbn [fst snd] in *.
    - exists (Photo2Map.n_epochs * len). split; [lia|]. split; [exact Hrun|done].
    - destruct Hrun as (k & Hle & Hsteps). exists k.
      split; [exact Hle|]. split; [exact Hsteps|discriminate]. }
  destruct Hk as (k & Hle & Hlogged & Hdone).
  rewrite Hlogged, Hall.
  split; [apply seq_strictly_increasing|].
  split; [apply NoDup_seq|].
  split.
  - exists (seq k (Photo2Map.n_epochs * len - k)).
    replace (Photo2Map.n_epochs * len)
      with (k + (Photo2Map.n_epochs * len - k)) at 1 by lia.
    apply seq_app.
  - intros Hok. rewrite (Hdone Hok). reflexivity.
Qed.

Lemma global_steps_strictly_increasing_witness :
  let len := Photo2Map.DataLoader_len
               (Photo2Map.train_dataloader Sample.one_sample_folder) in
  let run := Photo2Map.train_loop Sample.no_moments (λ t, t) Sample.no_gradient
               (λ _, [0]) (Filled Spec.halves) Unfilled
               Sample.one_sample_folder Sample.no_module [] Unfilled
               Sample.fresh_notebook in
  let logged := steps run.1 in
  let all_steps :=
    e ← seq 0 Photo2Map.n_epochs; n_iters ← seq 0 len; [e * len + n_iters] in
  StronglySorted lt logged
  ∧ NoDup logged
  ∧ logged `prefix_of` all_steps
  ∧ (run.2 = Ok tt → logged = all_steps).
Proof.
  apply (global_steps_strictly_increasing Sample.no_moments (λ t, t)
           Sample.no_gradient (λ _, [0]) (Filled Spec.halves) Unfilled
           Sample.one_sample_folder Sample.no_module [] Unfilled
           Sample.fresh_notebook).
  - intros e. reflexivity.
  - intros f e st Hf. discriminate Hf.
  - reflexivity.
Defined.

(** ** Further properties of the notebooks *)

Section Tabulate.

Lemma bind_singleton {A B} (g : A → B) (l : list A) :
  (l ≫= λ x, [g x]) = g <$> l.
Proof. induction l as [|a l IH]; [reflexivity|]. cbn. congruence. Qed.

Lemma lookup_bind_const {A B} (f : A → list B) (l : list A) (n a b : nat) :
  (∀ x, length (f x) = n) → b < n →
  (l ≫= f) !! (a * n + b) = l !! a ≫= λ x, f x !! b.
Proof.
  intros Hf Hb. revert a. induction l as [|x l IH]; intros a.
  - destruct a; reflexivity.
  - change ((x :: l) ≫= f) with (f x ++ (l ≫= f)). destruct a as [|a].
    + cbn [Nat.mul Nat.add]. rewrite lookup_app_l by (rewrite Hf; exact Hb).
      reflexivity.
    + rewrite lookup_app_r by (rewrite Hf; lia).
      rewrite Hf. replace (S a * n + b - n) with (a * n + b) by lia.
      rewrite IH. reflexivity.
Qed.

Lemma length_tabulate3 {B} (f : nat → nat → nat → B) (n0 n1 n2 : nat) :
  length (i ← seq 0 n0; j ← seq 0 n1; k ← seq 0 n2; [f i j k])
    = n0 * (n1 * n2).
Proof.
  rewrite (length_bind_const _ _ (n1 * n2)); [rewrite length_seq; reflexivity|].
  intros i. rewrite (length_bind_const _ _ n2); [rewrite length_seq; reflexivity|].
  intros j. rewrite bind_singleton, length_fmap, length_seq. reflexivity.
Qed.

Lemma lookup_tabulate3 {B} (f : nat → nat → nat → B) (n0 n1 n2 i j k : nat) :
  i < n0 → j < n1 → k < n2 →
  (i ← seq 0 n0; j ← seq 0 n1; k ← seq 0 n2; [f i j k])
    !! ((i * n1 + j) * n2 + k) = Some (f i j k).
Proof.
  intros Hi Hj Hk.
  replace ((i * n1 + j) * n2 + k) with (i * (n1 * n2) + (j * n2 + k)) by lia.
  rewrite (lookup_bind_const _ _ (n1 * n2)); [| |nia].
  2:{ intros x. rewrite (length_bind_const _ _ n2); [rewrite length_seq; reflexivity|].
      intros y. rewrite bind_singleton, length_fmap, length_seq. reflexivity. }
  rewrite lookup_seq_lt by exact Hi. cbn [mbind option_bind Nat.add].
  rewrite (lookup_bind_const _ _ n2); [| |exact Hk].
  2:{ intros y. rewrite bind_singleton, length_fmap, length_seq. reflexivity. }
  rewrite lookup_seq_lt by exact Hj. cbn [mbind option_bind Nat.add].
  rewrite bind_singleton, list_lookup_fmap, lookup_seq_lt by exact Hk.
  reflexivity.
Qed.

Lemma Forall_tabulate3 {B} (P : B → Prop) (f : nat → nat → nat → B)
    (n0 n1 n2 : nat) :
  (∀ i j k, i < n0 → j < n1 → k < n2 → P (f i j k)) →
  Forall P (i ← seq 0 n0; j ← seq 0 n1; k ← seq 0 n2; [f i j k]).
Proof.
  intros Hf. apply Forall_bind, Forall_forall. intros i Hi%elem_of_seq.
  apply Forall_bind, Forall_forall. intros j Hj%elem_of_seq.
  apply Forall_bind, Forall_forall. intros k Hk%elem_of_seq.
  apply Forall_singleton, Hf; lia.
Qed.

End Tabulate.

(** *** Images as tensors *)

Section ImageTensors.

Lemma level_unit_interval (img : Image) (c i j : nat) :
  eight_bit img → (0 <= level img c i j ∧ level img c i j <= 1)%Q.
Proof.
  intros Himg. unfold level.
  assert (Hb : (getpixel img c i j ≤ 255)%N).
  { unfold getpixel.
    destruct (pixels img !! _) as [b|] eqn:Hl; cbn [default]; [|lia].
    exact (Forall_lookup_1 _ _ _ _ Himg Hl). }
  set (z := Z.of_N (getpixel img c i j)).
  assert (Hz : (0 ≤ z ≤ 255)%Z) by (unfold z; lia).
  split.
  - apply Qle_shift_div_l; [reflexivity|]. rewrite Qmult_0_l.
    change 0%Q with (inject_Z 0). rewrite <- Zle_Qle. lia.
  - apply Qle_shift_div_r; [reflexivity|]. rewrite Qmult_1_l.
    change 255%Q with (inject_Z 255). rewrite <- Zle_Qle. lia.
Qed.

Lemma ToTensor_wf (img : Image) : tensor_wf (ToTensor img).
Proof.
  unfold tensor_wf, ToTensor. cbn [shape data numel foldr].
  rewrite length_tabulate3. lia.
Qed.

Lemma ToTensor_at3 (img : Image) (c i j : nat) :
  c < bands (mode img) → i < height img → j < width img →
  at3 (ToTensor img) c i j = Some (level img c i j).
Proof.
  intros Hc Hi Hj. unfold at3, ToTensor. cbn [shape data].
  apply (lookup_tabulate3 (λ c i j, level img c i j)); assumption.
Qed.

Lemma ToTensor_unit_interval (img : Image) :
  eight_bit img → in_range 0 1 (ToTensor img).
Proof.
  intros Himg. unfold in_range, ToTensor. cbn [data].
  apply (Forall_tabulate3 _ (λ c i j, level img c i j)).
  intros c i j _ _ _. apply level_unit_interval, Himg.
Qed.

Lemma Resize_edge_mode resample size img :
  mode (Resize_edge resample size img) = mode img.
Proof.
  unfold Resize_edge. cbv zeta.
  destruct (_ || _); [reflexivity|]. destruct (_ <? _); reflexivity.
Qed.

Lemma Resize_edge_smaller_edge resample size img :
  0 < width img → 0 < height img →
  height (Resize_edge resample size img)
    `min` width (Resize_edge resample size img) = size.
Proof.
  intros Hw Hh. unfold Resize_edge. cbv zeta.
  destruct (_ || _) eqn:Hsame.
  - apply orb_true_iff in Hsame as [H|H]; apply andb_true_iff in H as [Hle Heq];
      apply Nat.leb_le in Hle; apply Nat.eqb_eq in Heq; lia.
  - destruct (width img <? height img) eqn:Hlt; cbn [height width resize].
    + apply Nat.ltb_lt in Hlt.
      assert (size ≤ size * height img / width img).
      { apply Nat.div_le_lower_bound; nia. }
      lia.
    + apply Nat.ltb_ge in Hlt.
      assert (size ≤ size * width img / height img).
      { apply Nat.div_le_lower_bound; nia. }
      lia.
Qed.

(** What [Normalize(mean=0.5, std=0.5)] makes of each element. *)
Lemma transform_Normalize_data (t : tensor) (h w : nat) :
  shape t = [3; h; w] → tensor_wf t →
  ∃ t', Photo2Map.transform_Normalize t = Ok t'
        ∧ shape t' = [3; h; w]
        ∧ data t' = (λ p, (p - Photo2Map.half) / Photo2Map.half)%Q <$> data t.
Proof.
  intros Hs Hwf. rewrite (transform_Normalize_rgb t h w Hs).
  eexists. split; [reflexivity|]. cbn [shape data]. split; [exact Hs|].
  assert (Hlen : length (data t) = 3 * (h * w)).
  { unfold tensor_wf in Hwf. rewrite Hwf, Hs. simpl. lia. }
  apply list_eq. intros k. rewrite list_lookup_imap, list_lookup_fmap.
  destruct (data t !! k) as [p|] eqn:Hp; [|reflexivity]. cbn [fmap option_fmap option_map].
  pose proof (lookup_lt_Some _ _ _ Hp) as Hlt.
  rewrite chan_half by (apply div_numel_lt; lia). reflexivity.
Qed.

Lemma chw_to_hwc_elements (img : tensor) (c h w : nat) :
  shape img = [c; h; w] →
  ∃ a, chw_to_hwc img = Some a
       ∧ shape a = [h; w; c]
       ∧ tensor_wf a
       ∧ ∀ i j k, i < h → j < w → k < c →
           at3 a i j k = Some (default 0%Q (at3 img k i j)).
Proof.
  intros Hs. unfold chw_to_hwc. rewrite Hs.
  eexists. split; [reflexivity|]. split; [reflexivity|]. split.
  - unfold tensor_wf. cbn [shape data numel foldr].
    rewrite length_tabulate3. lia.
  - intros i j k Hi Hj Hk. unfold at3. rewrite Hs. cbn [shape data].
    apply (lookup_tabulate3
             (λ i j k, default 0%Q (data img !! ((k * h + i) * w + j))));
      assumption.
Qed.

(** Moving the channel axis invents no value but 0. *)
Lemma chw_to_hwc_range (lo hi : Q) (img a : tensor) :
  (lo <= 0)%Q → (0 <= hi)%Q → in_range lo hi img →
  chw_to_hwc img = Some a → in_range lo hi a.
Proof.
  intros Hlo Hhi Hr Ha. unfold chw_to_hwc in Ha.
  destruct (shape img) as [|c [|h [|w [|]]]]; try discriminate Ha.
  injection Ha as <-. unfold in_range. cbn [data].
  apply (Forall_tabulate3 _
           (λ i j k, default 0%Q (data img !! ((k * h + i) * w + j)))).
  intros i j k _ _ _.
  destruct (data img !! ((k * h + i) * w + j)) as [p|] eqn:Hp;
    cbn [default from_option]; unfold id.
  - exact (Forall_lookup_1 _ _ _ _ Hr Hp).
  - split; assumption.
Qed.

End ImageTensors.

Lemma nearest_eight_bit (img : Image) (ow oh : nat) :
  eight_bit img → eight_bit (resize Sample.nearest img ow oh).
Proof.
  intros Himg. unfold eight_bit, resize, Sample.nearest. cbn [pixels].
  apply (Forall_tabulate3 _
           (λ i j c, getpixel img c (i * height img / oh) (j * width img / ow))).
  intros i j c _ _ _. unfold getpixel.
  destruct (pixels img !! _) as [b|] eqn:Hl; cbn [default from_option]; unfold id.
  - exact (Forall_lookup_1 _ _ _ _ Himg Hl).
  - lia.
Qed.

Lemma rgb_2x1_eight_bit : eight_bit Sample.rgb_2x1.
Proof.
  unfold eight_bit. cbn [pixels Sample.rgb_2x1]. repeat constructor; lia.
Qed.

(** X1. The notebook's [transform] turns an RGB photo with positive
    width and height whose resized samples are bytes into a well-formed
    (3, H, W) tensor: the smaller of H and W is [image_size] = 256 and
    every value lies in [-1, 1], as the comment beside [Normalize]
    says. *)
Theorem transform_gives_unit_ball (resample : Image → nat → nat → list N)
    (img : Image) :
  mode img = RGB → 0 < width img → 0 < height img →
  eight_bit (Resize_edge resample Photo2Map.image_size img) →
  ∃ t h w, Photo2Map.transform resample img = Ok t
           ∧ shape t = [3; h; w]
           ∧ h `min` w = 256
           ∧ tensor_wf t
           ∧ in_range (-1) 1 t.
Proof.
  intros Hmode Hw Hh Hbytes. unfold Photo2Map.transform.
  set (photo := Resize_edge resample Photo2Map.image_size img) in *.
  assert (Hs : shape (ToTensor photo) = [3; height photo; width photo]).
  { unfold ToTensor. cbn [shape]. unfold photo.
    rewrite Resize_edge_mode, Hmode. reflexivity. }
  destruct (transform_Normalize_data _ _ _ Hs (ToTensor_wf photo))
    as (t & Ht & Hst & Hdt).
  exists t, (height photo), (width photo).
  split; [exact Ht|]. split; [exact Hst|].
  split; [apply Resize_edge_smaller_edge; assumption|]. split.
  - unfold tensor_wf. rewrite Hdt, length_fmap, Hst, <- Hs. apply ToTensor_wf.
  - unfold in_range. rewrite Hdt. apply Forall_fmap.
    eapply Forall_impl; [exact (ToTensor_unit_interval photo Hbytes)|].
    intros p [H0 H1]. cbn beta. unfold Photo2Map.half.
    split; [apply Qle_shift_div_l|apply Qle_shift_div_r]; lra.
Qed.

Lemma transform_gives_unit_ball_witness :
  ∃ t h w, Photo2Map.transform Sample.nearest Sample.rgb_2x1 = Ok t
           ∧ shape t = [3; h; w]
           ∧ h `min` w = 256
           ∧ tensor_wf t
           ∧ in_range (-1) 1 t.
Proof.
  apply (transform_gives_unit_ball Sample.nearest Sample.rgb_2x1).
  - reflexivity.
  - cbn. lia.
  - cbn. lia.
  - apply (nearest_eight_bit Sample.rgb_2x1 512 256), rgb_2x1_eight_bit.
Defined.

(** X2. On an image whose mode does not have three bands (grayscale,
    palette, with alpha, CMYK) [transform] raises [RuntimeError]:
    [Normalize] holds three means and the tensor made by [ToTensor] has
    another number of channels. The three-band modes pass [Normalize]
    like RGB. *)
Theorem transform_rejects_other_band_counts
    (resample : Image → nat → nat → list N) (img : Image) :
  bands (mode img) ≠ 3 →
  Photo2Map.transform resample img = Raise RuntimeError.
Proof.
  intros Hbands. unfold Photo2Map.transform, Photo2Map.transform_Normalize.
  unfold Normalize, ToTensor. cbn [shape]. rewrite Resize_edge_mode.
  assert (Hok : chan_ok [Photo2Map.half; Photo2Map.half; Photo2Map.half]
                  (bands (mode img)) = false).
  { unfold chan_ok. apply bool_decide_eq_false. cbn [length]. lia. }
  rewrite Hok. reflexivity.
Qed.

Lemma transform_rejects_other_band_counts_witness :
  Photo2Map.transform Sample.nearest Sample.gray_2x2 = Raise RuntimeError.
Proof.
  apply (transform_rejects_other_band_counts Sample.nearest Sample.gray_2x2).
  cbn. lia.
Defined.

(** *** What [imshow] draws *)

Lemma plt_imshow_colours (X : tensor) (h w c : nat) :
  shape X = [h; w; c] → c = 1 ∨ c = 3 ∨ c = 4 → plt_imshow X = Ok X.
Proof.
  intros Hs Hc. unfold plt_imshow. rewrite Hs.
  rewrite bool_decide_eq_true_2 by exact Hc. reflexivity.
Qed.

Lemma plt_imshow_refused (X : tensor) (h w c : nat) :
  shape X = [h; w; c] → ¬ (c = 1 ∨ c = 3 ∨ c = 4) →
  plt_imshow X = Raise TypeError.
Proof.
  intros Hs Hc. unfold plt_imshow. rewrite Hs.
  rewrite bool_decide_eq_false_2 by exact Hc. reflexivity.
Qed.

(** The array that [imshow] has drawn. *)
Lemma imshow_elements (img : tensor) (c h w : nat) :
  shape img = [c; h; w] → tensor_wf img → c = 1 ∨ c = 3 ∨ c = 4 →
  ∃ a, Photo2Map.imshow img = Ok a
       ∧ shape a = [h; w; c]
       ∧ data a = (i ← seq 0 h; j ← seq 0 w; k ← seq 0 c;
                   [default 0%Q (data (Photo2Map.unnormalize img)
                                   !! ((k * h + i) * w + j))])
       ∧ ∀ i j k, i < h → j < w → k < c →
           at3 a i j k = (λ p, p / 2 + Photo2Map.half)%Q <$> at3 img k i j.
Proof.
  intros Hs Hwf Hc. unfold Photo2Map.imshow, chw_to_hwc.
  replace (shape (Photo2Map.unnormalize img)) with [c; h; w] by (symmetry; exact Hs).
  unfold plt_imshow. cbn [shape].
    rewrite bool_decide_eq_true_2 by exact Hc.
  eexists. split; [reflexivity|]. cbn [shape data]. split; [reflexivity|].
  split; [reflexivity|].
  assert (Hlen : length (data img) = c * (h * w)).
  { unfold tensor_wf in Hwf. rewrite Hwf, Hs. simpl. lia. }
  intros i j k Hi Hj Hk. unfold at3 at 1. cbn [shape data].
  rewrite (lookup_tabulate3
             (λ i j k, default 0%Q
                (data (Photo2Map.unnormalize img) !! ((k * h + i) * w + j))))
    by assumption.
  unfold at3. rewrite Hs. unfold Photo2Map.unnormalize, tmap. cbn [data].
  rewrite list_lookup_fmap.
  destruct (data img !! ((k * h + i) * w + j)) as [p|] eqn:Hp; [reflexivity|].
  apply lookup_ge_None in Hp.
  assert (k * h + i < c * h) by nia.
  assert ((k * h + i) * w + j < c * h * w) by nia. lia.
Qed.

(** X3. [imshow] of the photo2map notebook, on a well-formed
    (C, H, W) tensor with 1, 3 or 4 channels, draws a well-formed
    (H, W, C) array whose element (i, j, k) is [img[k, i, j] / 2 + 0.5];
    values in [-1, 1] are drawn as values in [0, 1]. *)
Theorem imshow_moves_channels_last (img : tensor) (c h w : nat) :
  shape img = [c; h; w] → tensor_wf img → c = 1 ∨ c = 3 ∨ c = 4 →
  ∃ a, Photo2Map.imshow img = Ok a
       ∧ shape a = [h; w; c]
       ∧ tensor_wf a
       ∧ (∀ i j k, i < h → j < w → k < c →
            at3 a i j k = (λ p, p / 2 + Photo2Map.half)%Q <$> at3 img k i j)
       ∧ (in_range (-1) 1 img → in_range 0 1 a).
Proof.
  intros Hs Hwf Hc.
  destruct (imshow_elements img c h w Hs Hwf Hc) as (a & Ha & Hsa & Hda & Hat).
  exists a. split; [exact Ha|]. split; [exact Hsa|]. split; [|split].
  - unfold tensor_wf. rewrite Hsa, Hda. cbn [numel foldr].
    rewrite length_tabulate3. lia.
  - exact Hat.
  - intros Hr. unfold in_range. rewrite Hda.
    apply (Forall_tabulate3 _
             (λ i j k, default 0%Q
                (data (Photo2Map.unnormalize img) !! ((k * h + i) * w + j)))).
    intros i j k _ _ _. unfold Photo2Map.unnormalize, tmap. cbn [data].
    rewrite list_lookup_fmap.
    destruct (data img !! ((k * h + i) * w + j)) as [p|] eqn:Hp;
      cbn [fmap option_fmap option_map default from_option]; unfold id;
      [|split; lra].
    destruct (Forall_lookup_1 _ _ _ _ Hr Hp) as [H0 H1]. unfold Photo2Map.half.
    assert (E : (p / 2 + (1 # 2) == p * (1 # 2) + (1 # 2))%Q) by field.
    rewrite E. split; lra.
Qed.

Lemma imshow_moves_channels_last_witness :
  ∃ a, Photo2Map.imshow Sample.pair_tensor = Ok a
       ∧ shape a = [1; 2; 3]
       ∧ tensor_wf a
       ∧ (∀ i j k, i < 1 → j < 2 → k < 3 →
            at3 a i j k
            = (λ p, p / 2 + Photo2Map.half)%Q <$> at3 Sample.pair_tensor k i j)
       ∧ (in_range (-1) 1 Sample.pair_tensor → in_range 0 1 a).
Proof.
  apply (imshow_moves_channels_last Sample.pair_tensor 3 1 2);
    [reflexivity|reflexivity|].
  right. left. reflexivity.
Defined.

(** *** The round trip in float32 *)

Section SinglePrecision.
Import Float32.

(** The 256 pixel values, one by one. *)
Lemma round_trip_of_bytes :
  forallb (λ b, Single.round_trip_ok (Single.div_255 b))
    (N.of_nat <$> seq 0 256) = true.
Proof. vm_compute. reflexivity. Qed.

Lemma round_trip_of_byte (b : N) :
  (b ≤ 255)%N → Single.round_trip_ok (Single.div_255 b) = true.
Proof.
  intros Hb. pose proof round_trip_of_bytes as H.
  rewrite forallb_forall in H. apply H.
  apply list_elem_of_In, list_elem_of_fmap. exists (N.to_nat b).
  split; [lia|]. apply elem_of_seq. lia.
Qed.

Lemma round_trip_facts (p : float32) :
  Single.round_trip_ok p = true →
  within (-1) 1 (div (sub p half) half) = true
  ∧ within 0 1 (Single.round_trip p) = true
  ∧ (Qabs (value (Single.round_trip p) - value p) <= 1 # 2 ^ 26)%Q
  ∧ eqb (Single.round_trip p) p = eqb p (of_Z 0) || leb quarter p.
Proof.
  unfold Single.round_trip_ok. intros H.
  apply andb_true_iff in H as [H H4]. apply andb_true_iff in H as [H H3].
  apply andb_true_iff in H as [H1 H2].
  split; [exact H1|]. split; [exact H2|]. split.
  - apply Qle_bool_iff. exact H3.
  - apply Bool.eqb_prop. exact H4.
Qed.

Lemma chan_half32 (c : nat) :
  c < 3 → Single.chan [half; half; half] c = half.
Proof.
  intros Hc. destruct c as [|[|[|c]]]; try reflexivity. lia.
Qed.

(** What the [Normalize] step makes of each element. *)
Lemma transform_Normalize_data32 (t : Single.tensor) (h w : nat) :
  Single.shape t = [3; h; w] → length (Single.data t) = 3 * (h * w) →
  Single.transform_Normalize t
  = Ok {| Single.shape := [3; h; w];
          Single.data := (λ p, div (sub p half) half) <$> Single.data t |}.
Proof.
  intros Hs Hlen. unfold Single.transform_Normalize, Single.Normalize.
  rewrite Hs. cbn [existsb]. 
  change (Single.chan_ok [half; half; half] 3) with true. cbn [andb].
  replace (eqb (of_Z 0) half || (eqb (of_Z 0) half || (eqb (of_Z 0) half || false)))
    with false by reflexivity.
  do 2 f_equal.
  apply list_eq. intros k. rewrite list_lookup_imap, list_lookup_fmap.
  destruct (Single.data t !! k) as [p|] eqn:Hp; [|reflexivity].
  cbn [fmap option_fmap option_map].
  pose proof (lookup_lt_Some _ _ _ Hp) as Hlt.
  rewrite chan_half32 by (apply div_numel_lt; lia). reflexivity.
Qed.

(** The array that the float32 [imshow] draws. *)
Lemma imshow_elements32 (img : Single.tensor) (h w : nat) :
  Single.shape img = [3; h; w] → length (Single.data img) = 3 * (h * w) →
  ∃ a, Single.imshow img = Ok a
       ∧ Single.shape a = [h; w; 3]
       ∧ Single.data a
         = (i ← seq 0 h; j ← seq 0 w; k ← seq 0 3;
            [default (of_Z 0)
               (Single.data (Single.unnormalize img) !! ((k * h + i) * w + j))])
       ∧ ∀ i j k, i < h → j < w → k < 3 →
           Single.at3 a i j k
           = (λ p, add (div p (of_Z 2)) half) <$> Single.at3 img k i j.
Proof.
  intros Hs Hlen. unfold Single.imshow, Single.chw_to_hwc.
  replace (Single.shape (Single.unnormalize img)) with [3; h; w]
    by (symmetry; exact Hs).
  unfold Single.plt_imshow. cbn [Single.shape].
  rewrite bool_decide_eq_true_2 by (right; left; reflexivity).
  eexists. split; [reflexivity|]. cbn [Single.shape Single.data].
  split; [reflexivity|]. split; [reflexivity|].
  intros i j k Hi Hj Hk. unfold Single.at3 at 1. cbn [Single.shape Single.data].
  rewrite (lookup_tabulate3
             (λ i j k, default (of_Z 0)
                (Single.data (Single.unnormalize img) !! ((k * h + i) * w + j))))
    by assumption.
  unfold Single.at3. rewrite Hs. unfold Single.unnormalize. cbn [Single.data].
  rewrite list_lookup_fmap.
  destruct (Single.data img !! ((k * h + i) * w + j)) as [p|] eqn:Hp;
    [reflexivity|].
  apply lookup_ge_None in Hp.
  assert (k * h + i < 3 * h) by nia.
  assert ((k * h + i) * w + j < 3 * h * w) by nia. lia.
Qed.

(** Normalizing and drawing a tensor of pixel values, element by
    element. *)
Lemma round_trip_of_pixel_values (t : Single.tensor) (h w : nat) :
  Single.shape t = [3; h; w] →
  length (Single.data t) = 3 * (h * w) →
  Single.pixel_values t →
  ∃ t' a,
    Single.transform_Normalize t = Ok t'
    ∧ Forall (λ y, within (-1) 1 y = true) (Single.data t')
    ∧ Single.imshow t' = Ok a
    ∧ Single.shape a = [h; w; 3]
    ∧ Forall (λ q, within 0 1 q = true) (Single.data a)
    ∧ ∀ i j k, i < h → j < w → k < 3 →
        ∃ p, Single.at3 t k i j = Some p
             ∧ Single.at3 a i j k = Some (Single.round_trip p)
             ∧ Single.round_trip_ok p = true.
Proof.
  intros Hs Hlen Hpix.
  pose proof (transform_Normalize_data32 t h w Hs Hlen) as Ht'.
  set (t' := {| Single.shape := [3; h; w];
                Single.data := (λ p, div (sub p half) half) <$> Single.data t |})
    in *.
  assert (Hlen' : length (Single.data t') = 3 * (h * w)).
  { unfold t'. cbn [Single.data]. rewrite length_fmap. exact Hlen. }
  destruct (imshow_elements32 t' h w eq_refl Hlen') as (a & Ha & Hsa & Hda & Hat).
  assert (Hok : Forall (λ p, Single.round_trip_ok p = true) (Single.data t)).
  { eapply Forall_impl; [exact Hpix|]. intros p (b & Hb & ->).
    apply round_trip_of_byte, Hb. }
  exists t', a. split; [exact Ht'|]. split.
  { unfold t'. cbn [Single.data]. apply Forall_fmap.
    eapply Forall_impl; [exact Hok|]. intros p Hp. cbn beta.
    apply (round_trip_facts p Hp). }
  split; [exact Ha|]. split; [exact Hsa|].
  assert (Helem : ∀ i j k, i < h → j < w → k < 3 →
            ∃ p, Single.at3 t k i j = Some p
                 ∧ Single.at3 a i j k = Some (Single.round_trip p)
                 ∧ Single.round_trip_ok p = true).
  { intros i j k Hi Hj Hk. rewrite (Hat i j k Hi Hj Hk).
    unfold Single.at3. rewrite Hs. unfold t'. cbn [Single.shape Single.data].
    rewrite list_lookup_fmap.
    destruct (Single.data t !! ((k * h + i) * w + j)) as [p|] eqn:Hp.
    - exists p. split; [reflexivity|]. split; [reflexivity|].
      exact (Forall_lookup_1 _ _ _ _ Hok Hp).
    - apply lookup_ge_None in Hp.
      assert (k * h + i < 3 * h) by nia.
      assert ((k * h + i) * w + j < 3 * h * w) by nia. lia. }
  split; [|exact Helem].
  rewrite Hda.
  apply (Forall_tabulate3 _
           (λ i j k, default (of_Z 0)
              (Single.data (Single.unnormalize t') !! ((k * h + i) * w + j)))).
  intros i j k Hi Hj Hk.
  destruct (Helem i j k Hi Hj Hk) as (p & _ & Hq & Hp).
  rewrite (Hat i j k Hi Hj Hk) in Hq.
  unfold Single.at3 in Hq. cbn [Single.shape t'] in Hq.
  unfold Single.unnormalize. cbn [Single.data]. rewrite list_lookup_fmap.
  rewrite Hq. cbn [default from_option]. unfold id.
  apply (round_trip_facts p Hp).
Qed.

End SinglePrecision.




Lemma ToTensor_pixel_values (img : Image) :
  eight_bit img → Single.pixel_values (Single.ToTensor img).
Proof.
  intros Himg. unfold Single.pixel_values, Single.ToTensor. cbn [Single.data].
  apply (Forall_tabulate3 _ (λ c i j, Single.div_255 (getpixel img c i j))).
  intros c i j _ _ _. exists (getpixel img c i j). split; [|reflexivity].
  unfold getpixel.
  destruct (pixels img !! _) as [b|] eqn:Hl; cbn [default from_option]; unfold id.
  - exact (Forall_lookup_1 _ _ _ _ Himg Hl).
  - lia.
Qed.

(** X4. [(image, _) = train_dataset[0]; imshow(image)] draws the
    resized photo up to the rounding of float32: for a three-band file
    whose resized samples are bytes the transform succeeds, and the
    (H, W, 3) array that is drawn holds at (i, j, k) the value
    [p = b / 255] of the byte [b] of band [k] of pixel (i, j), exactly
    when [p] is 0 or at least 0.25 and to within [2^-26] otherwise. *)
Theorem imshow_shows_the_resized_photo
    (resample : Image → nat → nat → list N) (img : Image) :
  bands (mode img) = 3 →
  eight_bit (Resize_edge resample Photo2Map.image_size img) →
  let photo := Resize_edge resample Photo2Map.image_size img in
  ∃ t a, Single.transform resample img = Ok t
         ∧ Single.imshow t = Ok a
         ∧ Single.shape a = [height photo; width photo; 3]
         ∧ ∀ i j k, i < height photo → j < width photo → k < 3 →
             let p := Single.div_255 (getpixel photo k i j) in
             ∃ q, Single.at3 a i j k = Some q
                  ∧ (Qabs (Float32.value q - Float32.value p) <= 1 # 2 ^ 26)%Q
                  ∧ Float32.eqb q p
                    = Float32.eqb p (Float32.of_Z 0)
                      || Float32.leb Float32.quarter p.
Proof.
  intros Hb Hbytes photo. unfold Single.transform. fold photo.
  assert (Hb' : bands (mode photo) = 3).
  { unfold photo. rewrite Resize_edge_mode. exact Hb. }
  assert (Hs : Single.shape (Single.ToTensor photo)
               = [3; height photo; width photo]).
  { unfold Single.ToTensor. cbn [Single.shape]. rewrite Hb'. reflexivity. }
  assert (Hlen : length (Single.data (Single.ToTensor photo))
                 = 3 * (height photo * width photo)).
  { unfold Single.ToTensor. cbn [Single.data].
    rewrite length_tabulate3, Hb'. reflexivity. }
  destruct (round_trip_of_pixel_values _ _ _ Hs Hlen
              (ToTensor_pixel_values photo Hbytes))
    as (t & a & Ht & _ & Ha & Hsa & _ & Helem).
  exists t, a. split; [exact Ht|]. split; [exact Ha|]. split; [exact Hsa|].
  intros i j k Hi Hj Hk. cbv zeta.
  set (p := Single.div_255 (getpixel photo k i j)).
  destruct (Helem i j k Hi Hj Hk) as (p' & Hp' & Hq & Hok).
  assert (Hpp : p' = p).
  { unfold Single.at3 in Hp'. rewrite Hs in Hp'.
    unfold Single.ToTensor in Hp'. cbn [Single.data] in Hp'.
    rewrite (lookup_tabulate3
               (λ c i j, Single.div_255 (getpixel photo c i j))) in Hp'
      by (assumption || lia).
    injection Hp' as <-. reflexivity. }
  subst p'. exists (Single.round_trip p). split; [exact Hq|].
  apply (round_trip_facts p Hok).
Qed.

Lemma imshow_shows_the_resized_photo_witness :
  let photo := Resize_edge Sample.nearest Photo2Map.image_size Sample.rgb_2x1 in
  ∃ t a, Single.transform Sample.nearest Sample.rgb_2x1 = Ok t
         ∧ Single.imshow t = Ok a
         ∧ Single.shape a = [height photo; width photo; 3]
         ∧ ∀ i j k, i < height photo → j < width photo → k < 3 →
             let p := Single.div_255 (getpixel photo k i j) in
             ∃ q, Single.at3 a i j k = Some q
                  ∧ (Qabs (Float32.value q - Float32.value p) <= 1 # 2 ^ 26)%Q
                  ∧ Float32.eqb q p
                    = Float32.eqb p (Float32.of_Z 0)
                      || Float32.leb Float32.quarter p.
Proof.
  apply (imshow_shows_the_resized_photo Sample.nearest Sample.rgb_2x1).
  - reflexivity.
  - apply (nearest_eight_bit Sample.rgb_2x1 512 256), rgb_2x1_eight_bit.
Defined.

(** X5. In the style-transfer notebook, [imshow(image_loader(name))]
    of an existing file whose mode has 1, 3 or 4 bands draws the resized
    image: the array has size (imsize, imsize, bands) and holds at
    (i, j, k) the byte of band [k] of pixel (i, j) divided by 255, and
    when the resized samples are bytes the loaded tensor and the drawn
    array have their values in [0, 1]. A file with two bands (grayscale
    with alpha) is loaded, but [plt.imshow] refuses it with
    [TypeError]. *)
Theorem loaded_image_is_shown_as_resized (cuda : bool)
    (resample : Image → nat → nat → list N) (files : gmap string Image)
    (image_name : string) (img : Image) :
  files !! image_name = Some img →
  let n := StyleTransfer.imsize cuda in
  let photo := Resize_hw resample n n img in
  ∃ t, StyleTransfer.image_loader cuda resample files image_name = Ok t
       ∧ (bands (mode img) = 2 → StyleTransfer.imshow t = Raise TypeError)
       ∧ (bands (mode img) ≠ 2 →
          ∃ a, StyleTransfer.imshow t = Ok a
               ∧ shape a = [n; n; bands (mode img)]
               ∧ (∀ i j k, i < n → j < n → k < bands (mode img) →
                    at3 a i j k = Some (level photo k i j))
               ∧ (eight_bit photo → in_range 0 1 t ∧ in_range 0 1 a)).
Proof.
  intros Hf n photo.
  rewrite (image_loader_found cuda resample files image_name img Hf).
  unfold StyleTransfer.image_transform_fn. fold n. fold photo.
  assert (Hs : shape (ToTensor photo) = [bands (mode img); n; n]) by reflexivity.
  destruct (chw_to_hwc_elements (ToTensor photo) _ _ _ Hs)
    as (a & Ha & Hsa & _ & Hat).
  exists (unsqueeze0 (ToTensor photo)). split; [reflexivity|].
  assert (Hshow : StyleTransfer.imshow (unsqueeze0 (ToTensor photo))
                  = plt_imshow a).
  { unfold StyleTransfer.imshow, unsqueeze0. cbn [shape data].
    change {| shape := shape (ToTensor photo);
              data := data (ToTensor photo) |} with (ToTensor photo).
    rewrite Ha. reflexivity. }
  rewrite Hshow. split.
  - intros Hb. apply (plt_imshow_refused a n n _ Hsa). lia.
  - intros Hb. exists a. split.
    { apply (plt_imshow_colours a n n _ Hsa). destruct (mode img); cbn in *; lia. }
    split; [exact Hsa|]. split.
    + intros i j k Hi Hj Hk. rewrite (Hat i j k Hi Hj Hk).
      rewrite ToTensor_at3 by assumption. reflexivity.
    + intros Hbytes.
      pose proof (ToTensor_unit_interval photo Hbytes) as Hr.
      split; [exact Hr|].
      apply (chw_to_hwc_range 0 1 (ToTensor photo) a); [lra|lra|exact Hr|exact Ha].
Qed.

Lemma loaded_image_is_shown_as_resized_witness :
  let n := StyleTransfer.imsize false in
  let photo := Resize_hw Sample.nearest n n Sample.rgb_2x1 in
  ∃ t, StyleTransfer.image_loader false Sample.nearest Sample.two_rgb_files
         StyleTransfer.style_image_path = Ok t
       ∧ (bands (mode Sample.rgb_2x1) = 2 →
          StyleTransfer.imshow t = Raise TypeError)
       ∧ (bands (mode Sample.rgb_2x1) ≠ 2 →
          ∃ a, StyleTransfer.imshow t = Ok a
               ∧ shape a = [n; n; bands (mode Sample.rgb_2x1)]
               ∧ (∀ i j k, i < n → j < n → k < bands (mode Sample.rgb_2x1) →
                    at3 a i j k = Some (level photo k i j))
               ∧ (eight_bit photo → in_range 0 1 t ∧ in_range 0 1 a)).
Proof.
  apply (loaded_image_is_shown_as_resized false Sample.nearest
           Sample.two_rgb_files StyleTransfer.style_image_path Sample.rgb_2x1).
  reflexivity.
Defined.

(** X6. The two [imshow] functions draw one image and refuse anything
    else. The photo2map one raises [RuntimeError] unless its argument
    has rank 3; the style-transfer one raises [ValueError] unless its
    argument has size (1, c, h, w); both raise [TypeError], out of
    [plt.imshow], when the number [c] of channels is not 1, 3 or 4, and
    both succeed when it is. *)
Theorem imshow_draws_one_image_only :
  (∀ img, length (shape img) ≠ 3 → Photo2Map.imshow img = Raise RuntimeError)
  ∧ (∀ img c h w, shape img = [c; h; w] → ¬ (c = 1 ∨ c = 3 ∨ c = 4) →
       Photo2Map.imshow img = Raise TypeError)
  ∧ (∀ img c h w, shape img = [c; h; w] → c = 1 ∨ c = 3 ∨ c = 4 →
       ∃ a, Photo2Map.imshow img = Ok a ∧ shape a = [h; w; c])
  ∧ (∀ t, (∀ c h w, shape t ≠ [1; c; h; w]) →
       StyleTransfer.imshow t = Raise ValueError)
  ∧ (∀ t c h w, shape t = [1; c; h; w] → ¬ (c = 1 ∨ c = 3 ∨ c = 4) →
       StyleTransfer.imshow t = Raise TypeError)
  ∧ (∀ t c h w, shape t = [1; c; h; w] → c = 1 ∨ c = 3 ∨ c = 4 →
       ∃ a, StyleTransfer.imshow t = Ok a ∧ shape a = [h; w; c]).
Proof.
  split; [|split; [|split; [|split; [|split]]]].
  - intros img Hn. unfold Photo2Map.imshow, chw_to_hwc.
    change (shape (Photo2Map.unnormalize img)) with (shape img).
    destruct (shape img) as [|c [|h [|w [|]]]]; try reflexivity.
    contradiction Hn. reflexivity.
  - intros img c h w Hs Hc. unfold Photo2Map.imshow, chw_to_hwc.
    change (shape (Photo2Map.unnormalize img)) with (shape img). rewrite Hs.
    unfold plt_imshow. cbn [shape].
    rewrite bool_decide_eq_false_2 by exact Hc. reflexivity.
  - intros img c h w Hs Hc. unfold Photo2Map.imshow, chw_to_hwc.
    change (shape (Photo2Map.unnormalize img)) with (shape img). rewrite Hs.
    unfold plt_imshow. cbn [shape].
    rewrite bool_decide_eq_true_2 by exact Hc.
    eexists. split; reflexivity.
  - intros t Hn. unfold StyleTransfer.imshow, chw_to_hwc. cbn [shape].
    destruct (shape t) as [|[|[|b]] [|c [|h [|w [|]]]]]; try reflexivity.
    contradiction (Hn c h w). reflexivity.
  - intros t c h w Hs Hc. unfold StyleTransfer.imshow, chw_to_hwc. cbn [shape].
    rewrite Hs. unfold plt_imshow. cbn [shape].
    rewrite bool_decide_eq_false_2 by exact Hc. reflexivity.
  - intros t c h w Hs Hc. unfold StyleTransfer.imshow, chw_to_hwc. cbn [shape].
    rewrite Hs. unfold plt_imshow. cbn [shape].
    rewrite bool_decide_eq_true_2 by exact Hc.
    eexists. split; reflexivity.
Qed.

(** *** Building the feature extractor *)

Lemma getitem_invalid {A} (l : list A) (i : nat) :
  l !! i = None → getitem l (Z.of_nat i) = Raise IndexError.
Proof.
  intros Hl. unfold getitem. cbv zeta.
  destruct (decide (Z.of_nat i < 0)%Z) as [Hneg|_]; [lia|].
  destruct (decide (0 ≤ Z.of_nat i)%Z) as [_|Hneg]; [|lia].
  rewrite Nat2Z.id, Hl. reflexivity.
Qed.

(** Filling a slice succeeds when every index is a layer of [features],
    and stops with [IndexError] otherwise. *)
Lemma add_layers_outcome features xs slice :
  match StyleTransfer.add_layers features xs slice with
  | Ok _ => Forall (λ x, x < length features) xs
  | Raise e => e = IndexError ∧ Exists (λ x, length features ≤ x) xs
  end.
Proof.
  revert slice. induction xs as [|x xs IH]; intros slice; cbn [StyleTransfer.add_layers].
  - constructor.
  - destruct (features !! x) as [m|] eqn:Hx.
    + rewrite (getitem_valid _ _ _ Hx). cbn [mbind result_bind bind].
      specialize (IH (StyleTransfer.add_module (pretty x) m slice)).
      destruct (StyleTransfer.add_layers features xs _) as [s|e].
      * constructor; [exact (lookup_lt_Some _ _ _ Hx)|exact IH].
      * destruct IH as [-> IH]. split; [reflexivity|]. right. exact IH.
    + rewrite (getitem_invalid _ _ Hx). cbn [mbind result_bind bind].
      split; [reflexivity|]. left. apply lookup_ge_None. exact Hx.
Qed.

(** X7. [Vgg16.__init__] raises [IndexError] when the pretrained
    [features] hold fewer than 23 layers, whatever [requires_grad]
    is. *)
Theorem Vgg16_init_needs_23_layers (features : list StyleTransfer.Layer)
    (requires_grad : bool) (σ : gmap nat slot) :
  length features < 23 →
  StyleTransfer.Vgg16_init features requires_grad σ = Raise IndexError.
Proof.
  intros Hlen. unfold StyleTransfer.Vgg16_init.
  pose proof (add_layers_outcome features (range 0 4) []) as H1.
  destruct (StyleTransfer.add_layers features (range 0 4) []) as [s1|e];
    cbn [mbind result_bind bind]; [|destruct H1 as [-> _]; reflexivity].
  pose proof (add_layers_outcome features (range 4 9) []) as H2.
  destruct (StyleTransfer.add_layers features (range 4 9) []) as [s2|e];
    cbn [mbind result_bind bind]; [|destruct H2 as [-> _]; reflexivity].
  pose proof (add_layers_outcome features (range 9 16) []) as H3.
  destruct (StyleTransfer.add_layers features (range 9 16) []) as [s3|e];
    cbn [mbind result_bind bind]; [|destruct H3 as [-> _]; reflexivity].
  pose proof (add_layers_outcome features (range 16 23) []) as H4.
  destruct (StyleTransfer.add_layers features (range 16 23) []) as [s4|e];
    cbn [mbind result_bind bind]; [|destruct H4 as [-> _]; reflexivity].
  assert (H22 : 22 ∈ range 16 23) by (apply elem_of_seq; simpl; lia).
  pose proof (proj1 (Forall_forall _ _) H4 22 H22) as H. cbv beta in H. lia.
Qed.

Lemma Vgg16_init_needs_23_layers_witness :
  StyleTransfer.Vgg16_init (take 22 Sample.layers31) false Sample.small_heap
    = Raise IndexError.
Proof.
  apply (Vgg16_init_needs_23_layers (take 22 Sample.layers31) false
           Sample.small_heap).
  vm_compute. lia.
Defined.

Section HeapUpdates.
Implicit Types (σ : gmap nat slot) (ps : list nat) (id : nat).

(** A method that does the same to a parameter however often it meets
    it does it once to every listed parameter. *)
Lemma update_params_lookup f ps σ id :
  (∀ s, f (f s) = f s) → id ∈ ps →
  update_params f ps σ !! id = f <$> σ !! id.
Proof.
  intros Hf. unfold update_params. revert σ.
  induction ps as [|p ps IH]; intros σ Hid; [inversion Hid|].
  cbn [foldl]. destruct (decide (id ∈ ps)) as [Hin|Hnin].
  - rewrite (IH _ Hin). destruct (decide (p = id)) as [->|Hne].
    + rewrite lookup_alter_eq. destruct (σ !! id) as [s|]; [|reflexivity].
      cbn. rewrite Hf. reflexivity.
    + rewrite lookup_alter_ne by exact Hne. reflexivity.
  - apply elem_of_cons in Hid as [->|Hin]; [|contradiction].
    fold (update_params f ps (alter f p σ)).
    rewrite update_params_lookup_ne by exact Hnin.
    apply lookup_alter_eq.
Qed.

End HeapUpdates.

(** X8. With at least 23 layers, [Vgg16(requires_grad=False)]
    succeeds, its parameters are those of the first 23 layers of
    [features], each of them keeps its elements and its [.grad] and has
    [requires_grad] cleared, and every other tensor object is left as it
    was. *)
Theorem Vgg16_init_freezes_its_parameters
    (features : list StyleTransfer.Layer) (σ : gmap nat slot) :
  23 ≤ length features →
  ∃ self σ',
    StyleTransfer.Vgg16_init features false σ = Ok (self, σ')
    ∧ StyleTransfer.Vgg16_parameters self
        = take 23 features ≫= StyleTransfer.layer_params
    ∧ ∀ id,
        (id ∈ StyleTransfer.Vgg16_parameters self →
         σ' !! id = (λ s, Slot (value s) (grad s) false) <$> σ !! id)
        ∧ (id ∉ StyleTransfer.Vgg16_parameters self → σ' !! id = σ !! id).
Proof.
  intros Hlen.
  do 23 (destruct features as [|? features]; [simpl in Hlen; lia|]).
  clear Hlen.
  eexists _, _. split; [reflexivity|].
  split; [vm_compute; reflexivity|].
  intros id. split; intros Hid.
  - apply update_params_lookup; [reflexivity|exact Hid].
  - apply update_params_lookup_ne. exact Hid.
Qed.

Lemma Vgg16_init_freezes_its_parameters_witness :
  ∃ self σ',
    StyleTransfer.Vgg16_init Sample.layers31 false Sample.small_heap
      = Ok (self, σ')
    ∧ StyleTransfer.Vgg16_parameters self
        = take 23 Sample.layers31 ≫= StyleTransfer.layer_params
    ∧ ∀ id,
        (id ∈ StyleTransfer.Vgg16_parameters self →
         σ' !! id
         = (λ s, Slot (value s) (grad s) false) <$> Sample.small_heap !! id)
        ∧ (id ∉ StyleTransfer.Vgg16_parameters self →
           σ' !! id = Sample.small_heap !! id).
Proof.
  apply (Vgg16_init_freezes_its_parameters Sample.layers31 Sample.small_heap).
  vm_compute. lia.
Defined.

(** X9. [Normalization.__init__] with two non-empty lists creates two
    distinct new tensor objects, [mean] and [std], of size (n, 1, 1)
    holding the given lists, without gradient and not requiring one, and
    leaves every tensor that existed before as it was. With an empty
    list it raises [RuntimeError]: [view(-1, 1, 1)] cannot tell the
    length of a tensor without elements. *)
Theorem Normalization_init_allocates_two_columns (mean std : list Q)
    (σ : gmap nat slot) :
  (mean = [] ∨ std = [] →
   StyleTransfer.Normalization_init mean std σ = Raise RuntimeError)
  ∧ (mean ≠ [] → std ≠ [] →
     ∃ self σ',
       StyleTransfer.Normalization_init mean std σ = Ok (self, σ')
       ∧ StyleTransfer.mean self ≠ StyleTransfer.std self
       ∧ σ !! StyleTransfer.mean self = None
       ∧ σ !! StyleTransfer.std self = None
       ∧ σ' !! StyleTransfer.mean self
           = Some (Slot {| shape := [length mean; 1; 1]; data := mean |}
                     None false)
       ∧ σ' !! StyleTransfer.std self
           = Some (Slot {| shape := [length std; 1; 1]; data := std |}
                     None false)
       ∧ ∀ id, is_Some (σ !! id) → σ' !! id = σ !! id).
Proof.
  unfold StyleTransfer.Normalization_init. split.
  - intros [-> | ->]; [reflexivity|]. destruct mean; reflexivity.
  - intros Hm Hs.
    destruct mean as [|m mean]; [contradiction|].
    destruct std as [|s std]; [contradiction|].
    cbn [StyleTransfer.column mbind result_bind bind mret result_ret].
    set (cm := {| shape := [length (m :: mean); 1; 1]; data := m :: mean |}).
    set (cs := {| shape := [length (s :: std); 1; 1]; data := s :: std |}).
    set (r1 := alloc cm false σ). set (r2 := alloc cs false r1.2).
    pose proof (alloc_fresh cm false σ) as F1.
    pose proof (alloc_lookup_new cm false σ) as N1.
    pose proof (alloc_fresh cs false r1.2) as F2.
    pose proof (alloc_lookup_new cs false r1.2) as N2.
    fold r1 in F1, N1. fold r2 in F2, N2.
    assert (Hne : r1.1 ≠ r2.1) by (intros E; rewrite <- E in F2; congruence).
    eexists _, _. split; [reflexivity|].
    cbn [StyleTransfer.mean StyleTransfer.std].
    split; [exact Hne|]. split; [exact F1|]. split.
    { destruct (σ !! r2.1) as [x|] eqn:Hx; [|reflexivity].
      rewrite <- (alloc_lookup_old cm false σ r2.1) in Hx by (rewrite Hx; eauto).
      fold r1 in Hx. congruence. }
    split.
    { unfold r2. rewrite alloc_lookup_old by (rewrite N1; eauto). exact N1. }
    split; [exact N2|].
    intros id Hid. unfold r2. rewrite alloc_lookup_old.
    + apply alloc_lookup_old, Hid.
    + fold r1. unfold r1. rewrite alloc_lookup_old by exact Hid. exact Hid.
Qed.

(** *** The style loss as a distance *)

Lemma sum_squares_nonneg (l1 l2 : list Q) :
  (0 <= sum_Q (zip_with (λ x y, (x - y) * (x - y)) l1 l2))%Q.
Proof.
  revert l2. induction l1 as [|x l1 IH]; intros [|y l2]; cbn; try lra.
  specialize (IH l2). unfold sum_Q in IH.
  set (rest := foldr Qplus 0%Q _) in *. clearbody rest.
  set (d := (x - y)%Q). clearbody d. nra.
Qed.

Lemma sum_squares_self (l : list Q) :
  (sum_Q (zip_with (λ x y, (x - y) * (x - y)) l l) == 0)%Q.
Proof.
  induction l as [|x l IH]; cbn; [reflexivity|].
  unfold sum_Q in IH. rewrite IH. ring.
Qed.

Lemma length_positive_Q {A} (l : list A) :
  l ≠ [] → (0 < inject_Z (Z.of_nat (length l)))%Q.
Proof.
  intros Hl. change 0%Q with (inject_Z 0). rewrite <- Zlt_Qlt.
  destruct l; [contradiction|]. simpl. lia.
Qed.

(** X10. For every completion of [gram_matrix] that yields a
    non-empty tensor, the style loss of a (b, c, h, w) feature map
    against itself is zero, and its style loss against any target, when
    defined, is not negative. *)
Theorem style_loss_is_zero_on_equal_features (g : tensor → tensor)
    (x : tensor) (b c h w : nat) :
  shape x = [b; c; h; w] →
  data (g {| shape := [b; c; w * h]; data := data x |}) ≠ [] →
  (∃ q, StyleTransfer.StyleLoss_forward (Filled g) x x = Ok q ∧ (q == 0)%Q)
  ∧ ∀ target q,
      StyleTransfer.StyleLoss_forward (Filled g) x target = Ok q → (0 <= q)%Q.
Proof.
  intros Hs Hne. unfold StyleTransfer.StyleLoss_forward.
  rewrite (gram_matrix_filled g x b c h w Hs). cbn [mbind result_bind bind].
  set (G := g {| shape := [b; c; w * h]; data := data x |}) in *.
  pose proof (length_positive_Q _ Hne) as Hpos.
  split.
  - unfold mse_loss. rewrite decide_True by reflexivity.
    eexists. split; [reflexivity|].
    unfold Qdiv. rewrite sum_squares_self. ring.
  - intros target q H.
    destruct (StyleTransfer.gram_matrix (Filled g) target) as [T|e];
      cbn [mbind result_bind bind] in H; [|discriminate H].
    unfold mse_loss in H. destruct (decide (shape G = shape T)); [|discriminate H].
    injection H as <-.
    apply Qle_shift_div_l; [exact Hpos|]. rewrite Qmult_0_l.
    apply sum_squares_nonneg.
Qed.

Lemma style_loss_is_zero_on_equal_features_witness :
  (∃ q, StyleTransfer.StyleLoss_forward (Filled Spec.inner_products)
          Sample.two_channels Sample.two_channels = Ok q ∧ (q == 0)%Q)
  ∧ ∀ target q,
      StyleTransfer.StyleLoss_forward (Filled Spec.inner_products)
        Sample.two_channels target = Ok q → (0 <= q)%Q.
Proof.
  apply (style_loss_is_zero_on_equal_features Spec.inner_products
           Sample.two_channels 1 2 1 2).
  - reflexivity.
  - discriminate.
Defined.

(** *** The optimize block *)





(** *** What the transfer loop shows *)

Lemma clamp_range (lo hi : Q) (t : tensor) :
  (lo <= hi)%Q → in_range lo hi (clamp lo hi t).
Proof.
  intros Hle. unfold in_range, clamp, tmap. cbn [data].
  apply Forall_fmap, Forall_forall. intros p _. cbn beta. split.
  - apply Q.le_max_l.
  - apply Q.max_lub; [exact Hle|apply Q.le_min_l].
Qed.

Lemma style_imshow_range (lo hi : Q) (t a : tensor) :
  (lo <= 0)%Q → (0 <= hi)%Q → in_range lo hi t →
  StyleTransfer.imshow t = Ok a → in_range lo hi a.
Proof.
  intros Hlo Hhi Hr Ha. unfold StyleTransfer.imshow in Ha.
  destruct (shape t) as [|[|[|b]] s]; try discriminate Ha.
  destruct (chw_to_hwc _) as [image|] eqn:Himage; [|discriminate Ha].
  assert (Hdrawn : image = a).
  { unfold plt_imshow in Ha.
    destruct (shape image) as [|? [|? [|c [|]]]]; try discriminate Ha.
    - injection Ha as <-. reflexivity.
    - destruct (bool_decide _); [|discriminate Ha].
      injection Ha as <-. reflexivity. }
  subst a.
  exact (chw_to_hwc_range lo hi {| shape := s; data := data t |} image
           Hlo Hhi Hr Himage).
Qed.

Lemma preserves_lift_bind {S A B} (R : relation S) `{!PreOrder R}
    (r : result A) (k : A → cell S B) :
  (∀ a, r = Ok a → preserves R (k a)) → preserves R (lift r ≫= k).
Proof.
  intros Hk s. unfold mbind, cell_bind, cbind, lift.
  destruct r as [a|e]; [exact (Hk a eq_refl s)|reflexivity].
Qed.

#[local] Instance shows_within_preorder lo hi : PreOrder (shows_within lo hi).
Proof.
  split.
  - intros st. exists []. split; [symmetry; apply app_nil_r|constructor].
  - intros a b c (n1 & E1 & F1) (n2 & E2 & F2). exists (n1 ++ n2). split.
    + rewrite E2, E1, app_assoc. reflexivity.
    + apply Forall_app. split; assumption.
Qed.

Lemma shows_within_same_figures lo hi (st st' : StyleTransfer.notebook) :
  StyleTransfer.figures st' = StyleTransfer.figures st →
  shows_within lo hi st st'.
Proof.
  intros E. exists []. split; [rewrite app_nil_r; exact E|constructor].
Qed.

Section TransferFigures.
Import StyleTransfer.
Variable vgg_forward :
  hole (Vgg16 * gmap nat slot → gmap string tensor → gmap string tensor).
Variable normalize : hole (tensor → tensor → tensor → tensor).
Variable vgg16 : Vgg16.
Variable normalizer : Normalization.
Variable input_image : nat.

Lemma transfer_iteration_shows_clamped code cf sf epoch :
  preserves (shows_within 0 1)
    (transfer_iteration vgg_forward normalize vgg16 normalizer input_image
       code cf sf epoch).
Proof.
  unfold transfer_iteration.
  refine (preserves_bind _ _ _ _ _); [|intros _].
  - destruct (epoch mod 10 =? 0); [|refine (preserves_ret _ _)].
    refine (preserves_bind _ _ _ _ _); [|intros _].
    { apply preserves_modify. intros st.
      apply shows_within_same_figures. reflexivity. }
    refine (preserves_bind _ _ _ _ _); [refine (preserves_gets _ _)|intros σ].
    cbv beta. apply preserves_lift_bind; [apply _|]. intros img _.
    apply preserves_lift_bind; [apply _|]. intros fig Hfig.
    apply preserves_modify. intros st. exists [fig]. split; [reflexivity|].
    constructor; [|constructor].
    apply (style_imshow_range 0 1 (clamp 0 1 img)); [lra|lra| |exact Hfig].
    apply clamp_range. lra.
  - preserves_steps; apply preserves_modify; intros st;
      apply shows_within_same_figures; reflexivity.
Qed.

End TransferFigures.

(** X12. Whatever the student's code and whether or not the cell
    stops with an exception, every figure the transfer cell shows has
    all its values in [0, 1]: the loop shows [input_image] only through
    [torch.clamp(..., 0.0, 1.0)]. *)
Theorem transfer_shows_only_clamped_images
    (vgg_forward : hole (StyleTransfer.Vgg16 * gmap nat slot
                         → gmap string tensor → gmap string tensor))
    (normalize : hole (tensor → tensor → tensor → tensor))
    (vgg16 : StyleTransfer.Vgg16) (normalizer : StyleTransfer.Normalization)
    (input_image : nat) (h : StyleTransfer.transfer_holes)
    (st : StyleTransfer.notebook) :
  ∃ new,
    StyleTransfer.figures
      (StyleTransfer.transfer vgg_forward normalize vgg16 normalizer
         input_image h st).1
    = StyleTransfer.figures st ++ new
    ∧ Forall (in_range 0 1) new.
Proof.
  revert st.
  change (preserves (shows_within 0 1)
            (StyleTransfer.transfer vgg_forward normalize vgg16 normalizer
               input_image h)).
  unfold StyleTransfer.transfer. preserves_steps.
  apply transfer_iteration_shows_clamped.
Qed.

(** *** What the loops print *)

Section HoareMore.
Context {S : Type}.

Lemma hoare_lift_bind {A B} (P : S → Prop) (r : result A) (k : A → cell S B)
    (Q : B → S → Prop) (E : S → Prop) :
  (∀ s, P s → E s) → (∀ a, r = Ok a → hoare P (k a) Q E) →
  hoare P (lift r ≫= k) Q E.
Proof.
  intros HE Hk s Hs. unfold mbind, cell_bind, cbind, lift.
  destruct r as [a|e]; [exact (Hk a eq_refl s Hs)|exact (HE s Hs)].
Qed.

Lemma hoare_silent {X A} (V : S → X) (p : X → Prop) (m : cell S A)
    (E : S → Prop) :
  preserves (same_view V) m → (∀ s, p (V s) → E s) →
  hoare (λ s, p (V s)) m (λ _ s, p (V s)) E.
Proof.
  intros Hm HE s Hs. specialize (Hm s). unfold same_view in Hm.
  destruct (m s) as [s' [a|e]]; cbn [fst] in Hm.
  - rewrite Hm. exact Hs.
  - apply HE. rewrite Hm. exact Hs.
Qed.

End HoareMore.

Lemma reported_epochs_S (n : nat) :
  reported_epochs (Datatypes.S n)
    = reported_epochs n ++ (if n mod 10 =? 0 then [n] else []).
Proof.
  unfold reported_epochs. rewrite seq_S, filter_app. f_equal. cbn [Nat.add].
  destruct (n mod 10 =? 0) eqn:Hn.
  - apply Nat.eqb_eq in Hn. rewrite filter_cons_True by exact Hn. reflexivity.
  - apply Nat.eqb_neq in Hn. rewrite filter_cons_False by exact Hn. reflexivity.
Qed.

Section TransferReport.
Import StyleTransfer.
Variable vgg_forward :
  hole (Vgg16 * gmap nat slot → gmap string tensor → gmap string tensor).
Variable normalize : hole (tensor → tensor → tensor → tensor).
Variable vgg16 : Vgg16.
Variable normalizer : Normalization.
Variable input_image : nat.
Variable out : list string.
Variable shown : nat.

Abbreviation reported := (reported_after out shown).

Lemma transfer_iteration_report code cf sf epoch :
  hoare (reported epoch)
    (transfer_iteration vgg_forward normalize vgg16 normalizer input_image
       code cf sf epoch)
    (λ _, reported (Datatypes.S epoch)) (λ _, True).
Proof.
  unfold transfer_iteration.
  apply (hoare_bind _ _ _ (λ _, reported (Datatypes.S epoch))).
  - intros st Hst. unfold reported_after, report in *.
    rewrite reported_epochs_S, fmap_app, length_app, app_assoc.
    injection Hst as Hout Hshown.
    destruct (epoch mod 10 =? 0).
    + unfold mbind, cell_bind, cbind, modify, gets, lift.
      destruct (deref _ _) as [img|e]; [|exact I].
      destruct (imshow _) as [fig|e]; [|exact I].
      cbn [stdout figures print show]. rewrite length_app, Hout, Hshown.
      cbn [length fmap list_fmap]. f_equal. lia.
    + cbn [mret cell_ret cret fmap list_fmap length].
      rewrite Hout, Hshown, !app_nil_r. f_equal. lia.
  - intros _.
    refine (hoare_silent report
              (λ v, v = (out ++ (epoch_line <$> reported_epochs (Datatypes.S epoch)),
                         shown + length (reported_epochs (Datatypes.S epoch))))
              _ _ _ (λ _ _, I)).
    preserves_steps; apply preserves_modify; intros st; reflexivity.
Qed.

Lemma transfer_report h :
  hoare (reported 0)
    (transfer vgg_forward normalize vgg16 normalizer input_image h)
    (λ _, reported n_epochs) (λ _, True).
Proof.
  unfold transfer.
  apply hoare_lift_bind; [intros; exact I|intros code _].
  apply hoare_gets_bind. intros σ.
  apply hoare_lift_bind; [intros; exact I|intros cf _].
  apply hoare_lift_bind; [intros; exact I|intros sf _].
  intros st [Hst _]. revert st Hst.
  refine (hoare_for (λ i (st : notebook), reported i st)
            (range 0 n_epochs) _ (λ _, True) _).
  intros i epoch Hi. unfold range in Hi. apply lookup_seq in Hi as [-> _].
  apply transfer_iteration_report.
Qed.

End TransferReport.

(** X13. A transfer cell that runs to its end has printed
    ["Epoch:  e"] and shown one figure for exactly the epochs 0, 10,
    ..., 190, in this order: twenty lines and twenty figures. *)
Theorem transfer_reports_every_tenth_epoch
    (vgg_forward : hole (StyleTransfer.Vgg16 * gmap nat slot
                         → gmap string tensor → gmap string tensor))
    (normalize : hole (tensor → tensor → tensor → tensor))
    (vgg16 : StyleTransfer.Vgg16) (normalizer : StyleTransfer.Normalization)
    (input_image : nat) (h : StyleTransfer.transfer_holes)
    (st : StyleTransfer.notebook) :
  let run := StyleTransfer.transfer vgg_forward normalize vgg16 normalizer
               input_image h st in
  run.2 = Ok tt →
  StyleTransfer.stdout run.1
    = StyleTransfer.stdout st
        ++ (epoch_line <$> reported_epochs StyleTransfer.n_epochs)
  ∧ length (StyleTransfer.figures run.1)
      = length (StyleTransfer.figures st) + 20
  ∧ reported_epochs StyleTransfer.n_epochs = (λ k, 10 * k) <$> seq 0 20.
Proof.
  intros run Hok.
  pose proof (transfer_report vgg_forward normalize vgg16 normalizer
                input_image (StyleTransfer.stdout st)
                (length (StyleTransfer.figures st)) h st) as H.
  fold run in H. destruct run as [st' [[]|e]]; [|discriminate Hok].
  cbn [fst]. unfold reported_after, report in H.
  assert (H0 : (StyleTransfer.stdout st, length (StyleTransfer.figures st))
               = (StyleTransfer.stdout st ++ (epoch_line <$> reported_epochs 0),
                  length (StyleTransfer.figures st)
                  + length (reported_epochs 0))).
  { cbn. rewrite app_nil_r. f_equal. lia. }
  specialize (H H0). injection H as Hout Hshown.
  split; [exact Hout|]. split; [exact Hshown|]. reflexivity.
Qed.

Lemma transfer_reports_every_tenth_epoch_witness :
  let run := StyleTransfer.transfer (Filled StyleTransfer.forward_slice_by_slice)
               (Filled (λ x _ _, x)) Sample.no_slices Sample.small_normalizer.1
               Sample.small_input_image.1 Sample.completed_transfer
               {| StyleTransfer.heap := Sample.small_input_image.2;
                  StyleTransfer.stdout := []; StyleTransfer.figures := [] |} in
  StyleTransfer.stdout run.1
    = epoch_line <$> reported_epochs StyleTransfer.n_epochs
  ∧ length (StyleTransfer.figures run.1) = 20
  ∧ reported_epochs StyleTransfer.n_epochs = (λ k, 10 * k) <$> seq 0 20.
Proof.
  apply (transfer_reports_every_tenth_epoch
           (Filled StyleTransfer.forward_slice_by_slice)
           (Filled (λ x _ _, x)) Sample.no_slices Sample.small_normalizer.1
           Sample.small_input_image.1 Sample.completed_transfer
           {| StyleTransfer.heap := Sample.small_input_image.2;
              StyleTransfer.stdout := []; StyleTransfer.figures := [] |}).
  vm_compute. reflexivity.
Defined.

Section TrainPrints.
Import Photo2Map.
Context {AdamSt : Type}.
Variable adam_rule : Q → option AdamSt → tensor → tensor → AdamSt * tensor.
Variable make_grid : tensor → tensor.
Variable autograd : gmap nat slot → nat → nat → nat → option tensor.
Variable shuffle_perm : nat → list nat.
Variable split : hole (sample → sample * sample).
Variable unet_forward : forward_body.
Variable train_dataset : ImageFolder.
Variable unet : Module.
Variable opt : list nat.
Variable epoch_end : hole (nat → @notebook AdamSt → @notebook AdamSt).
Variable out : list string.

(** What the student adds after the batch loop prints nothing. *)
Hypothesis epoch_end_prints_nothing :
  ∀ f e st, epoch_end = Filled f → stdout (f e st) = stdout st.

Lemma train_batch_prints_nothing e idxs :
  preserves (same_view (@stdout AdamSt))
    (train_batch adam_rule make_grid autograd split unet_forward
       train_dataset unet opt e idxs).
Proof.
  unfold train_batch, train_step. preserves_steps; intros st; reflexivity.
Qed.

End TrainPrints.

(** A loop either runs through, or stops in its first iteration that
    raises, with the state in which that iteration ended. *)
Lemma for_outcome {S A} (body : A → cell S unit) (l : list A) (s : S) :
  (∃ s', for_ l body s = (s', Ok tt))
  ∨ ∃ l1 a l2 s1 s' e,
      l = l1 ++ a :: l2
      ∧ for_ l1 body s = (s1, Ok tt)
      ∧ body a s1 = (s', Raise e)
      ∧ for_ l body s = (s', Raise e).
Proof.
  revert s. induction l as [|a l IH]; intros s.
  - left. exists s. reflexivity.
  - cbn [for_]. unfold cbind.
    destruct (body a s) as [s1 [[]|e]] eqn:Ha.
    + destruct (IH s1) as [[s' Hl]|(l1 & b & l2 & s2 & s' & e & -> & Hl1 & Hb & Hl)].
      * left. exists s'. exact Hl.
      * right. exists (a :: l1), b, l2, s2, s', e.
        split; [reflexivity|]. split; [|split; [exact Hb|exact Hl]].
        cbn [for_]. unfold cbind. rewrite Ha. exact Hl1.
    + right. exists [], a, l, s, s1, e.
      split; [reflexivity|]. split; [reflexivity|]. split; [exact Ha|reflexivity].
Qed.

Lemma seq_split (n : nat) (l1 l2 : list nat) (a : nat) :
  seq 0 n = l1 ++ a :: l2 → l1 = seq 0 a ∧ a < n.
Proof.
  intros H.
  assert (Ha : seq 0 n !! length l1 = Some a).
  { rewrite H. rewrite lookup_app_r by lia. rewrite Nat.sub_diag. reflexivity. }
  apply lookup_seq in Ha as [Ha Hlt]. cbn [Nat.add] in Ha. subst a.
  split; [|exact Hlt].
  assert (Ht : take (length l1) (seq 0 n) = l1).
  { rewrite H. rewrite take_app_length. reflexivity. }
  rewrite <- Ht at 1. rewrite take_seq. f_equal. lia.
Qed.

Section TrainLines.
Import Photo2Map.
Context {AdamSt : Type}.
Variable adam_rule : Q → option AdamSt → tensor → tensor → AdamSt * tensor.
Variable make_grid : tensor → tensor.
Variable autograd : gmap nat slot → nat → nat → nat → option tensor.
Variable shuffle_perm : nat → list nat.
Variable split : hole (sample → sample * sample).
Variable unet_forward : forward_body.
Variable train_dataset : ImageFolder.
Variable unet : Module.
Variable opt : list nat.
Variable epoch_end : hole (nat → @notebook AdamSt → @notebook AdamSt).

Hypothesis epoch_end_prints_nothing :
  ∀ f e st, epoch_end = Filled f → stdout (f e st) = stdout st.

Abbreviation epoch :=
  (train_epoch adam_rule make_grid autograd shuffle_perm split unet_forward
     train_dataset unet opt epoch_end).

(** An epoch prints its line when, and only when, it completes. *)
Lemma train_epoch_line e (st : @notebook AdamSt) :
  match (epoch e st).2 with
  | Ok _ => stdout (epoch e st).1 = stdout st ++ [done_line e]
  | Raise _ => stdout (epoch e st).1 = stdout st
  end.
Proof.
  unfold train_epoch, mbind, cell_bind, cbind, modify.
  set (st0 := set_n_iters 0 (set_training true st)).
  pose proof (preserves_for (same_view (@stdout AdamSt))
                (batch_indices (dl train_dataset) (shuffle_perm e))
                (train_batch adam_rule make_grid autograd split unet_forward
                   train_dataset unet opt e)
                (train_batch_prints_nothing adam_rule make_grid autograd split
                   unet_forward train_dataset unet opt e) st0) as Hsilent.
  unfold same_view in Hsilent.
  destruct (for_ _ _ st0) as [st1 [[]|err]]; cbn [fst snd] in *.
  - cbn [stdout print]. f_equal.
    destruct epoch_end as [|f] eqn:Ehook; cbn [stmt_hole].
    + exact Hsilent.
    + rewrite (epoch_end_prints_nothing f e st1 eq_refl). exact Hsilent.
  - exact Hsilent.
Qed.

(** The first [k] epochs, when they all complete, print their [k]
    lines. *)
Lemma train_epochs_lines k (st st' : @notebook AdamSt) :
  for_ (seq 0 k) epoch st = (st', Ok tt) →
  stdout st' = stdout st ++ (done_line <$> seq 0 k).
Proof.
  intros H.
  pose proof (hoare_for (λ e (s : @notebook AdamSt), printed (stdout st) e s)
                (seq 0 k) epoch (λ _, True)) as Hfor.
  unfold hoare in Hfor. specialize (Hfor) as Hfor'.
  assert (Hbody : ∀ i a, seq 0 k !! i = Some a →
            hoare (λ s : @notebook AdamSt, printed (stdout st) i s) (epoch a)
              (λ _ s, printed (stdout st) (S i) s) (λ _, True)).
  { intros i a Hi. apply lookup_seq in Hi as [-> _]. cbn [Nat.add].
    intros s Hs. pose proof (train_epoch_line i s) as Hline.
    destruct (epoch i s) as [s1 [[]|err]]; cbn [fst snd] in *; [|exact I].
    unfold printed in *. rewrite Hline, Hs, seq_S, fmap_app, app_assoc.
    reflexivity. }
  specialize (Hfor Hbody st). rewrite H, length_seq in Hfor.
  apply Hfor. unfold printed. cbn. rewrite app_nil_r. reflexivity.
Qed.

End TrainLines.

(** X14. In the train loop an epoch prints its line ["Epoch e done."]
    when, and only when, it completes, so after the batches. Of a run,
    the first [k] epochs complete and either [k] is 25 and the run
    returns, or epoch [k] raises and the run ends there with that
    exception; the output is then the lines of the epochs 0 to [k - 1],
    in order, and nothing else. This holds for every end-of-epoch code
    that prints nothing. *)
Theorem train_loop_prints_one_line_per_epoch {AdamSt : Type}
    (adam_rule : Q → option AdamSt → tensor → tensor → AdamSt * tensor)
    (make_grid : tensor → tensor)
    (autograd : gmap nat slot → nat → nat → nat → option tensor)
    (shuffle_perm : nat → list nat)
    (split : hole (Photo2Map.sample → Photo2Map.sample * Photo2Map.sample))
    (unet_forward : Photo2Map.forward_body)
    (train_dataset : Photo2Map.ImageFolder)
    (unet : Photo2Map.Module) (opt : list nat)
    (epoch_end : hole (nat → @Photo2Map.notebook AdamSt
                           → @Photo2Map.notebook AdamSt))
    (st : @Photo2Map.notebook AdamSt) :
  (∀ f e st, epoch_end = Filled f →
     Photo2Map.stdout (f e st) = Photo2Map.stdout st) →
  let epoch := Photo2Map.train_epoch adam_rule make_grid autograd shuffle_perm
                 split unet_forward train_dataset unet opt epoch_end in
  let run := Photo2Map.train_loop adam_rule make_grid autograd shuffle_perm
               split unet_forward train_dataset unet opt epoch_end st in
  (∀ e s, match (epoch e s).2 with
          | Ok _ => Photo2Map.stdout (epoch e s).1
                    = Photo2Map.stdout s ++ [done_line e]
          | Raise _ => Photo2Map.stdout (epoch e s).1 = Photo2Map.stdout s
          end)
  ∧ ∃ k s_k,
      k ≤ Photo2Map.n_epochs
      ∧ for_ (range 0 k) epoch st = (s_k, Ok tt)
      ∧ Photo2Map.stdout run.1
          = Photo2Map.stdout st ++ (done_line <$> seq 0 k)
      ∧ (k = Photo2Map.n_epochs → run = (s_k, Ok tt))
      ∧ (k < Photo2Map.n_epochs →
         ∃ e, epoch k s_k = (run.1, Raise e) ∧ run.2 = Raise e).
Proof.
  intros Hhook epoch run. split.
  { intros e s.
    apply (train_epoch_line adam_rule make_grid autograd shuffle_perm split
             unet_forward train_dataset unet opt epoch_end Hhook). }
  subst run. unfold Photo2Map.train_loop. fold epoch.
  set (run := for_ (range 0 Photo2Map.n_epochs) epoch st).
  destruct (for_outcome epoch (range 0 Photo2Map.n_epochs) st)
    as [[s' Hall]|(l1 & k & l2 & s_k & s' & e & Hl & Hl1 & Hk & Hrun)].
  - change (run = (s', Ok tt)) in Hall.
    exists Photo2Map.n_epochs, s'. split; [lia|]. split; [exact Hall|].
    rewrite Hall. cbn [fst snd]. split.
    { apply (train_epochs_lines adam_rule make_grid autograd shuffle_perm split
               unet_forward train_dataset unet opt epoch_end Hhook _ _ _ Hall). }
    split; [reflexivity|]. intros Hlt. lia.
  - change (run = (s', Raise e)) in Hrun.
    unfold range in Hl. rewrite Nat.sub_0_r in Hl.
    apply seq_split in Hl as [-> Hlt].
    exists k, s_k. split; [lia|]. unfold range at 1. rewrite Nat.sub_0_r.
    split; [exact Hl1|]. rewrite Hrun. cbn [fst snd]. split.
    { pose proof (train_epoch_line adam_rule make_grid autograd shuffle_perm
                    split unet_forward train_dataset unet opt epoch_end Hhook
                    k s_k) as Hline.
      fold epoch in Hline. rewrite Hk in Hline. cbn [fst snd] in Hline.
      rewrite Hline.
      apply (train_epochs_lines adam_rule make_grid autograd shuffle_perm split
               unet_forward train_dataset unet opt epoch_end Hhook _ _ _ Hl1). }
    split; [intros ->; lia|]. intros _. exists e. split; [exact Hk|reflexivity].
Qed.

Lemma train_loop_prints_one_line_per_epoch_witness :
  let epoch := Photo2Map.train_epoch Sample.no_moments (λ t, t)
                 Sample.no_gradient (λ _, [0]) (Filled Spec.halves) Unfilled
                 Sample.one_sample_folder Sample.no_module [] Unfilled in
  let run := Photo2Map.train_loop Sample.no_moments (λ t, t) Sample.no_gradient
               (λ _, [0]) (Filled Spec.halves) Unfilled
               Sample.one_sample_folder Sample.no_module [] Unfilled
               Sample.fresh_notebook in
  (∀ e s, match (epoch e s).2 with
          | Ok _ => Photo2Map.stdout (epoch e s).1
                    = Photo2Map.stdout s ++ [done_line e]
          | Raise _ => Photo2Map.stdout (epoch e s).1 = Photo2Map.stdout s
          end)
  ∧ ∃ k s_k,
      k ≤ Photo2Map.n_epochs
      ∧ for_ (range 0 k) epoch Sample.fresh_notebook = (s_k, Ok tt)
      ∧ Photo2Map.stdout run.1
          = Photo2Map.stdout Sample.fresh_notebook ++ (done_line <$> seq 0 k)
      ∧ (k = Photo2Map.n_epochs → run = (s_k, Ok tt))
      ∧ (k < Photo2Map.n_epochs →
         ∃ e, epoch k s_k = (run.1, Raise e) ∧ run.2 = Raise e).
Proof.
  apply (train_loop_prints_one_line_per_epoch Sample.no_moments (λ t, t)
           Sample.no_gradient (λ _, [0]) (Filled Spec.halves) Unfilled
           Sample.one_sample_folder Sample.no_module [] Unfilled
           Sample.fresh_notebook).
  intros f e st Hf. discriminate Hf.
Defined.

(** *** Summing the loss terms *)

(** X15. [for layer in layers: loss += term(layer)] adds the values
    of all the terms to the initial loss when every term is defined,
    and otherwise raises the exception of the first term that fails. *)
Theorem sum_terms_adds_every_layer (term : string → result scalar)
    (layers : list string) (loss : scalar) :
  (∀ ts, Forall2 (λ layer t, term layer = Ok t) layers ts →
     ∃ r, StyleTransfer.sum_terms term layers loss = Ok r
          ∧ (item r == item loss + sum_Q (item <$> ts))%Q)
  ∧ (∀ done layer rest e,
       layers = done ++ layer :: rest →
       Forall (λ l, ∃ t, term l = Ok t) done →
       term layer = Raise e →
       StyleTransfer.sum_terms term layers loss = Raise e).
Proof.
  split.
  - intros ts Hts. revert loss.
    induction Hts as [|layer t layers ts Ht Hts IH]; intros loss;
      cbn [StyleTransfer.sum_terms].
    + eexists. split; [reflexivity|]. cbn. ring.
    + rewrite Ht. cbn [mbind result_bind bind].
      destruct (IH (scalar_add loss t)) as (r & Hr & Hitem).
      exists r. split; [exact Hr|]. rewrite Hitem. cbn. unfold sum_Q. ring.
  - intros done layer rest e -> Hdone Hlayer. revert loss.
    induction Hdone as [|l done [t Ht] Hdone IH]; intros loss;
      cbn [app StyleTransfer.sum_terms].
    + rewrite Hlayer. reflexivity.
    + rewrite Ht. cbn [mbind result_bind bind]. apply IH.
Qed.

(** *** Missing files and indices out of range *)

(** X16. The image-loading cell reports the first missing file: a
    missing style image raises [FileNotFoundError] for its path whether
    or not the content image exists, and a missing content image raises
    it for its own path when the style image was found. *)
Theorem load_images_reports_the_first_missing_file (cuda : bool)
    (resample : Image → nat → nat → list N) (files : gmap string Image)
    (style_path content_path : string) :
  (files !! style_path = None →
   StyleTransfer.load_images cuda resample files style_path content_path
     = Raise (FileNotFoundError style_path))
  ∧ (is_Some (files !! style_path) → files !! content_path = None →
     StyleTransfer.load_images cuda resample files style_path content_path
       = Raise (FileNotFoundError content_path)).
Proof.
  unfold StyleTransfer.load_images. split.
  - intros Hs. rewrite (image_loader_missing cuda resample files _ Hs).
    reflexivity.
  - intros [img Hs] Hc.
    rewrite (image_loader_found cuda resample files style_path img Hs).
    rewrite (image_loader_missing cuda resample files _ Hc). reflexivity.
Qed.

Lemma getitem_out_of_range {A} (l : list A) (i : Z) :
  (i < - Z.of_nat (length l) ∨ Z.of_nat (length l) ≤ i)%Z →
  getitem l i = Raise IndexError.
Proof.
  intros Hi. unfold getitem. cbv zeta.
  destruct (decide (i < 0)%Z) as [Hneg|Hpos].
  - destruct (decide (0 ≤ i + Z.of_nat (length l))%Z) as [H0|_]; [|reflexivity].
    lia.
  - destruct (decide (0 ≤ i)%Z) as [H0|_]; [|reflexivity].
    rewrite (proj2 (lookup_ge_None l (Z.to_nat i))) by lia. reflexivity.
Qed.

Lemma getitem_negative {A} (l : list A) (i : Z) :
  (- Z.of_nat (length l) ≤ i < 0)%Z →
  getitem l i = getitem l (i + Z.of_nat (length l)).
Proof.
  intros Hi. unfold getitem. cbv zeta.
  rewrite (decide_True (P := (i < 0)%Z)) by lia.
  rewrite (decide_False (P := (i + Z.of_nat (length l) < 0)%Z)) by lia.
  reflexivity.
Qed.

(** X17. [PhotoMapDataset.__getitem__], once completed, follows
    Python's list indexing on [self.samples]: an index below [-n] or
    from [n] on, with [n] the number of samples, raises [IndexError],
    and a negative index [i >= -n] names the same sample as
    [i + n]. *)
Theorem PhotoMapDataset_getitem_index_bounds
    (split : Photo2Map.sample → Photo2Map.sample * Photo2Map.sample)
    (self : Photo2Map.ImageFolder) (index : Z) :
  let n := Z.of_nat (length (Photo2Map.samples self)) in
  ((index < - n ∨ n ≤ index)%Z →
   Photo2Map.PhotoMapDataset_getitem (Filled split) self index
     = Raise IndexError)
  ∧ ((- n ≤ index < 0)%Z →
     Photo2Map.PhotoMapDataset_getitem (Filled split) self index
       = Photo2Map.PhotoMapDataset_getitem (Filled split) self (index + n)).
Proof.
  intros n. unfold Photo2Map.PhotoMapDataset_getitem. cbn [expr_hole]. split.
  - intros Hi. rewrite (getitem_out_of_range _ _ Hi). reflexivity.
  - intros Hi. rewrite (getitem_negative _ _ Hi). reflexivity.
Qed.

(** *** Batches *)

Lemma chunks_aux_lookup {A} (n fuel : nat) (l c : list A) (i : nat) :
  chunks_aux fuel n l !! i = Some c → c = take n (drop (i * n) l) ∧ c ≠ [] ∨ n = 0.
Proof.
  destruct (decide (n = 0)) as [->|Hn]; [right; reflexivity|]. intros H. left.
  revert l i H. induction fuel as [|fuel IH]; intros l i H.
  - destruct l; discriminate H.
  - destruct l as [|a l]; [discriminate H|].
    change (chunks_aux (S fuel) n (a :: l))
      with (take n (a :: l) :: chunks_aux fuel n (drop n (a :: l))) in H.
    destruct i as [|i].
    + injection H as <-. split; [reflexivity|].
      destruct n; [contradiction|]. discriminate.
    + cbn [lookup list_lookup] in H. apply IH in H as [-> Hne].
      split; [|exact Hne]. rewrite drop_drop.
      do 2 f_equal.
Qed.

Lemma chunks_aux_concat {A} (n fuel : nat) (l : list A) :
  0 < n → length l ≤ fuel → concat (chunks_aux fuel n l) = l.
Proof.
  intros Hn. revert l. induction fuel as [|fuel IH]; intros l Hl.
  - destruct l; [reflexivity|simpl in Hl; lia].
  - destruct l as [|a l]; [reflexivity|].
    change (chunks_aux (S fuel) n (a :: l))
      with (take n (a :: l) :: chunks_aux fuel n (drop n (a :: l))).
    cbn [concat]. rewrite IH; [apply take_drop|].
    rewrite length_drop. simpl in *. lia.
Qed.

(** X18. One pass over [train_dataloader] cuts the sampler's
    permutation into consecutive batches of [batch_size] = 4 indices:
    batch [i] holds the entries [4 i, 4 i + 4) of the permutation, every
    batch holds between 1 and 4 indices, there are [ceil(n / 4)]
    batches, and put end to end they are the permutation again, so every
    drawn index is used exactly once. *)
Theorem batches_partition_the_permutation (train_dataset : Photo2Map.ImageFolder)
    (perm : list nat) :
  let batches :=
    Photo2Map.batch_indices (Photo2Map.train_dataloader train_dataset) perm in
  concat batches = perm
  ∧ length batches = (length perm + 3) / 4
  ∧ ∀ i idxs, batches !! i = Some idxs →
      idxs = take 4 (drop (i * 4) perm) ∧ 0 < length idxs ≤ 4.
Proof.
  intros batches. unfold batches, Photo2Map.batch_indices, Photo2Map.train_dataloader.
  cbn [dl_shuffle dl_batch_size dataset]. unfold Photo2Map.batch_size.
  split; [|split].
  - apply chunks_aux_concat; [lia|reflexivity].
  - rewrite chunks_length by lia. f_equal. lia.
  - intros i idxs H. apply chunks_aux_lookup in H as [[-> Hne]|H4]; [|discriminate H4].
    split; [reflexivity|]. split.
    + destruct (take 4 (drop (i * 4) perm)); [contradiction|simpl; lia].
    + rewrite length_take. lia.
Qed.

Lemma mapM_Ok {A B} (f : A → result B) (l : list A) (ks : list B) :
  mapM f l = Ok ks → Forall2 (λ x y, f x = Ok y) l ks.
Proof.
  revert ks. induction l as [|x l IH]; intros ks H; cbn [mapM] in H.
  - injection H as <-. constructor.
  - apply bind_Ok in H as (y & Hy & H). apply bind_Ok in H as (k & Hk & H).
    injection H as <-. constructor; [exact Hy|apply IH, Hk].
Qed.

Lemma stack_Ok (ts : list tensor) (t : tensor) :
  stack ts = Ok t →
  ts ≠ [] ∧ Forall (λ u, shape t = length ts :: shape u) ts
  ∧ data t = ts ≫= data.
Proof.
  unfold stack. destruct ts as [|t0 ts]; [discriminate|].
  destruct (forallb _ _) eqn:Hall; [|discriminate]. intros H. injection H as <-.
  split; [discriminate|]. split; [|reflexivity]. cbn [shape].
  apply Forall_forall. intros u Hu.
  rewrite forallb_forall in Hall.
  specialize (Hall u (proj1 (list_elem_of_In _ _) Hu)).
  apply bool_decide_eq_true in Hall. rewrite Hall. reflexivity.
Qed.

(** X19. When the loader delivers a batch, the index list was not
    empty, [__getitem__] returned a pair of tensors for every index, and
    all photos (and all maps) of the batch have one size [s]: the batch
    tensor has size [len(idxs) :: s]. *)
Theorem fetch_stacks_equal_sized_samples
    (h : hole (Photo2Map.sample → Photo2Map.sample * Photo2Map.sample))
    (dl : DataLoader Photo2Map.ImageFolder) (idxs : list nat)
    (photos maps : tensor) :
  Photo2Map.fetch h dl idxs = Ok (photos, maps) →
  idxs ≠ []
  ∧ Forall (λ i : nat, ∃ p m,
      Photo2Map.PhotoMapDataset_getitem h (dataset dl) (Z.of_nat i)
        = Ok (Photo2Map.Tens p, Photo2Map.Tens m)
      ∧ shape photos = length idxs :: shape p
      ∧ shape maps = length idxs :: shape m) idxs.
Proof.
  unfold Photo2Map.fetch. intros H.
  apply bind_Ok in H as (items & Hitems & H). apply mapM_Ok in Hitems.
  apply bind_Ok in H as (ps & Hps & H). apply mapM_Ok in Hps.
  apply bind_Ok in H as (ms & Hms & H). apply mapM_Ok in Hms.
  apply bind_Ok in H as (pb & Hpb & H). apply stack_Ok in Hpb as (Hne & Hpb & _).
  apply bind_Ok in H as (mb & Hmb & H). apply stack_Ok in Hmb as (_ & Hmb & _).
  injection H as -> ->.
  pose proof (Forall2_length _ _ _ Hitems) as L1.
  pose proof (Forall2_length _ _ _ Hps) as L2.
  pose proof (Forall2_length _ _ _ Hms) as L3.
  split.
  { intros ->. destruct items; [|discriminate L1].
    destruct ps; [contradiction|discriminate L2]. }
  apply Forall_lookup_2. intros n i Hi.
  destruct (Forall2_lookup_l _ _ _ _ _ Hitems Hi) as (it & Hit & Hget).
  destruct (Forall2_lookup_l _ _ _ _ _ Hps Hit) as (p & Hp & Hasp).
  destruct (Forall2_lookup_l _ _ _ _ _ Hms Hit) as (m & Hm & Hasm).
  exists p, m. destruct it as [[?|p'] [?|m']]; try discriminate.
  cbn in Hasp, Hasm. injection Hasp as ->. injection Hasm as ->.
  split; [exact Hget|]. split.
  - rewrite (Forall_lookup_1 _ _ _ _ Hpb Hp). f_equal. lia.
  - rewrite (Forall_lookup_1 _ _ _ _ Hmb Hm). f_equal. lia.
Qed.

Lemma fetch_stacks_equal_sized_samples_witness :
  [0] ≠ []
  ∧ Forall (λ i : nat, ∃ p m,
      Photo2Map.PhotoMapDataset_getitem (Filled Spec.halves)
        (dataset (Photo2Map.train_dataloader Sample.one_sample_folder))
        (Z.of_nat i)
        = Ok (Photo2Map.Tens p, Photo2Map.Tens m)
      ∧ shape {| shape := [1; 3; 1; 1]; data := [1; 3; 5]%Q |}
          = length [0] :: shape p
      ∧ shape {| shape := [1; 3; 1; 1]; data := [2; 4; 6]%Q |}
          = length [0] :: shape m) [0].
Proof.
  apply (fetch_stacks_equal_sized_samples (Filled Spec.halves)
           (Photo2Map.train_dataloader Sample.one_sample_folder) [0]
           {| shape := [1; 3; 1; 1]; data := [1; 3; 5]%Q |}
           {| shape := [1; 3; 1; 1]; data := [2; 4; 6]%Q |}).
  reflexivity.
Defined.

(** *** The logged images *)

Lemma image_iterations_S (n : nat) :
  image_iterations (Datatypes.S n)
    = image_iterations n ++ (if n mod 50 =? 0 then [n] else []).
Proof.
  unfold image_iterations. rewrite seq_S, filter_app. f_equal. cbn [Nat.add].
  destruct (n mod 50 =? 0) eqn:Hn.
  - apply Nat.eqb_eq in Hn. rewrite filter_cons_True by exact Hn. reflexivity.
  - apply Nat.eqb_neq in Hn. rewrite filter_cons_False by exact Hn. reflexivity.
Qed.

Section TrainImages.
Import Photo2Map.
Context {AdamSt : Type}.
Variable adam_rule : Q → option AdamSt → tensor → tensor → AdamSt * tensor.
Variable make_grid : tensor → tensor.
Variable autograd : gmap nat slot → nat → nat → nat → option tensor.
Variable shuffle_perm : nat → list nat.
Variable split : hole (sample → sample * sample).
Variable unet_forward : forward_body.
Variable train_dataset : ImageFolder.
Variable unet : Module.
Variable opt : list nat.
Variable epoch_end : hole (nat → @notebook AdamSt → @notebook AdamSt).
Variable tag : string.
Variable before : list nat.

Hypothesis tag_is_logged : tag ∈ image_tags.
Hypothesis perm_length :
  ∀ e, length (shuffle_perm e) = length (samples train_dataset).
(** What the student adds after the batch loop logs no image under
    [tag]. *)
Hypothesis epoch_end_logs_no_image :
  ∀ f e st, epoch_end = Filled f →
    image_steps tag (writer (f e st)) = image_steps tag (writer st).

Abbreviation len := (DataLoader_len (dl train_dataset)).

Lemma image_steps_record (st : @notebook AdamSt) (e : event) :
  image_steps tag (writer (record e st))
    = image_steps tag (writer st) ++ image_steps tag [e].
Proof. unfold image_steps. cbn [writer record]. apply bind_app. Qed.

Lemma image_steps_three (a b c : tensor) (k : nat) :
  image_steps tag [add_image "train/photo_image" a k]
    ++ image_steps tag [add_image "train/map_image_pred" b k]
    ++ image_steps tag [add_image "train/map_image_gt" c k] = [k].
Proof.
  pose proof tag_is_logged as Ht. unfold image_tags in Ht.
  repeat (apply elem_of_cons in Ht as [->|Ht]; [reflexivity|]).
  inversion Ht.
Qed.

Abbreviation logged_images := (images_logged tag before len).

Lemma train_step_images e i batch photo map :
  hoare (logged_images e i)
    (train_step adam_rule make_grid autograd unet_forward train_dataset
       unet opt e batch photo map)
    (λ _, logged_images e (Datatypes.S i)) (λ _, True).
Proof.
  unfold train_step, images_logged.
  set (v := (before ++ (e' ← seq 0 e; n ← image_iterations len; [e' * len + n])
               ++ (n ← image_iterations i; [e * len + n]), i)).
  do 6 (refine (hoare_bind_silent (image_view tag) (λ x, x = v)
                  _ _ _ _ _ (λ _ _, I) _);
        [lazymatch goal with
         | |- preserves _ (gets _) => refine (preserves_gets _ _)
         | |- preserves _ (lift _) => refine (preserves_lift _ _)
         | |- preserves _ (modify _) => intros ?; reflexivity
         end|intros ?; cbv beta]).
  apply hoare_gets_bind. intros n st [Hst Hn].
  unfold v, image_view in Hst. injection Hst as Hsteps Hiters.
  assert (Hni : n = i) by congruence. clear Hn. subst n.
  unfold mbind, cell_bind, cbind, modify.
  rewrite image_iterations_S, bind_app.
  destruct (i mod 50 =? 0); cbn [mret cell_ret cret]; unfold image_view;
    cbn [n_iters set_n_iters writer];
    change (writer (set_n_iters (i + 1) ?s)) with (writer s).
  - rewrite !image_steps_record, <- !app_assoc.
    rewrite image_steps_three. cbn [image_steps mbind list_bind app].
    rewrite Hsteps, <- !app_assoc. f_equal. lia.
  - rewrite image_steps_record. cbn [image_steps mbind list_bind app].
    rewrite Hsteps, !app_nil_r. f_equal. lia.
Qed.

Lemma train_batch_images e i idxs :
  hoare (logged_images e i)
    (train_batch adam_rule make_grid autograd split unet_forward
       train_dataset unet opt e idxs)
    (λ _, logged_images e (Datatypes.S i)) (λ _, True).
Proof.
  unfold train_batch.
  apply hoare_lift_bind; [intros; exact I|intros batch _].
  unfold images_logged.
  do 2 (refine (hoare_bind_silent (image_view tag) (λ x, x = _)
                  _ _ _ _ _ (λ _ _, I) _);
        [intros st; reflexivity|intros ?; cbv beta]).
  apply train_step_images.
Qed.

Lemma train_epoch_images e :
  hoare (λ st, image_steps tag (writer st)
               = before ++ (e' ← seq 0 e; n ← image_iterations len;
                            [e' * len + n]))
    (train_epoch adam_rule make_grid autograd shuffle_perm split unet_forward
       train_dataset unet opt epoch_end e)
    (λ _ st, image_steps tag (writer st)
             = before ++ (e' ← seq 0 (Datatypes.S e);
                          n ← image_iterations len; [e' * len + n]))
    (λ _, True).
Proof.
  unfold train_epoch.
  apply (hoare_bind _ _ _ (λ _ st, image_steps tag (writer st)
             = before ++ (e' ← seq 0 e; n ← image_iterations len;
                          [e' * len + n]))).
  { apply hoare_modify. intros st Hst. exact Hst. }
  intros _. apply (hoare_bind _ _ _ (λ _, logged_images e 0)).
  { apply hoare_modify. intros st Hst. unfold images_logged, image_view.
    cbn [writer n_iters set_n_iters]. rewrite Hst. cbn. rewrite app_nil_r.
    reflexivity. }
  intros _.
  pose (n := length (batch_indices (dl train_dataset) (shuffle_perm e))).
  assert (Hn : n = len)
    by apply (batches_per_epoch shuffle_perm train_dataset perm_length).
  apply (hoare_bind _ _ _ (λ _, logged_images e n)).
  { apply (hoare_for (λ i st, logged_images e i st)).
    intros i idxs _. apply train_batch_images. }
  intros _.
  assert (Hdone : ∀ st : @notebook AdamSt, logged_images e n st →
            image_steps tag (writer st)
            = before ++ (e' ← seq 0 (Datatypes.S e);
                         n ← image_iterations len; [e' * len + n])).
  { intros st Hst. unfold images_logged, image_view in Hst.
    injection Hst as Hsteps _. rewrite Hsteps, Hn, seq_S, bind_app.
    cbn [Nat.add mbind list_bind app]. rewrite app_nil_r. reflexivity. }
  apply (hoare_bind _ _ _ (λ _ st, image_steps tag (writer st)
             = before ++ (e' ← seq 0 (Datatypes.S e);
                          n ← image_iterations len; [e' * len + n]))).
  - apply hoare_modify. intros st Hst.
    destruct epoch_end as [|f] eqn:Ehook; cbn [stmt_hole]; [exact (Hdone st Hst)|].
    rewrite (epoch_end_logs_no_image f e st eq_refl). exact (Hdone st Hst).
  - intros _. apply hoare_modify. intros st Hst. exact Hst.
Qed.

Lemma train_loop_images :
  hoare (λ st, image_steps tag (writer st) = before)
    (train_loop adam_rule make_grid autograd shuffle_perm split unet_forward
       train_dataset unet opt epoch_end)
    (λ _ st, image_steps tag (writer st)
             = before ++ (e ← seq 0 n_epochs;
                          n ← image_iterations len; [e * len + n]))
    (λ _, True).
Proof.
  unfold train_loop. intros st Hst.
  assert (Hstart : image_steps tag (writer st)
            = before ++ (e ← seq 0 0; n ← image_iterations len; [e * len + n])).
  { rewrite Hst. cbn. rewrite app_nil_r. reflexivity. }
  clear Hst. revert st Hstart.
  refine (hoare_for
            (λ e (st : @notebook AdamSt),
               image_steps tag (writer st)
               = before ++ (e' ← seq 0 e; n ← image_iterations len;
                            [e' * len + n]))
            (range 0 n_epochs) _ (λ _, True) _).
  intros i e Hi. unfold range in Hi. apply lookup_seq in Hi as [-> _].
  cbn [Nat.add]. apply train_epoch_images.
Qed.

End TrainImages.

(** X20. Over a run of the train loop that completes, each of the
    three images is logged exactly in the iterations with
    [n_iters % 50 == 0] of every epoch, under the step
    [epoch * len(train_dataloader) + n_iters], in increasing order of
    epoch and iteration. This holds for every end-of-epoch code that
    logs no image under the same tag. *)
Theorem images_are_logged_every_50th_iteration {AdamSt : Type}
    (adam_rule : Q → option AdamSt → tensor → tensor → AdamSt * tensor)
    (make_grid : tensor → tensor)
    (autograd : gmap nat slot → nat → nat → nat → option tensor)
    (shuffle_perm : nat → list nat)
    (split : hole (Photo2Map.sample → Photo2Map.sample * Photo2Map.sample))
    (unet_forward : Photo2Map.forward_body)
    (train_dataset : Photo2Map.ImageFolder)
    (unet : Photo2Map.Module) (opt : list nat)
    (epoch_end : hole (nat → @Photo2Map.notebook AdamSt
                           → @Photo2Map.notebook AdamSt))
    (tag : string) (st : @Photo2Map.notebook AdamSt) :
  tag ∈ image_tags →
  (∀ e, length (shuffle_perm e) = length (Photo2Map.samples train_dataset)) →
  (∀ f e st, epoch_end = Filled f →
     image_steps tag (Photo2Map.writer (f e st))
       = image_steps tag (Photo2Map.writer st)) →
  let len := Photo2Map.DataLoader_len (Photo2Map.train_dataloader train_dataset) in
  let run := Photo2Map.train_loop adam_rule make_grid autograd shuffle_perm
               split unet_forward train_dataset unet opt epoch_end st in
  run.2 = Ok tt →
  image_steps tag (Photo2Map.writer run.1)
    = image_steps tag (Photo2Map.writer st)
        ++ (e ← seq 0 Photo2Map.n_epochs; n_iters ← image_iterations len;
            [e * len + n_iters]).
Proof.
  intros Htag Hperm Hhook len run Hok.
  pose proof (train_loop_images adam_rule make_grid autograd shuffle_perm split
                unet_forward train_dataset unet opt epoch_end tag
                (image_steps tag (Photo2Map.writer st)) Htag Hperm Hhook
                st eq_refl) as H.
  fold run in H. destruct run as [st' [[]|e]]; [|discriminate Hok].
  exact H.
Qed.

Lemma images_are_logged_every_50th_iteration_witness :
  let len := Photo2Map.DataLoader_len
               (Photo2Map.train_dataloader Sample.one_sample_folder) in
  let run := Photo2Map.train_loop Sample.no_moments (λ t, t) Sample.no_gradient
               (λ _, [0]) (Filled Spec.halves) Unfilled
               Sample.one_sample_folder Sample.no_module [] Unfilled
               Sample.fresh_notebook in
  image_steps "train/map_image_pred" (Photo2Map.writer run.1)
    = (e ← seq 0 Photo2Map.n_epochs; n_iters ← image_iterations len;
       [e * len + n_iters]).
Proof.
  apply (images_are_logged_every_50th_iteration Sample.no_moments (λ t, t)
           Sample.no_gradient (λ _, [0]) (Filled Spec.halves) Unfilled
           Sample.one_sample_folder Sample.no_module [] Unfilled
           "train/map_image_pred" Sample.fresh_notebook).
  - constructor. constructor.
  - intros e. reflexivity.
  - intros f e st Hf. discriminate Hf.
  - vm_compute. reflexivity.
Defined.
